(** * Breslov voice assistant: chunker, index builder and hierarchical router

    A shallow embedding of
    - [backend/src/processors/semanticChunker.ts] (class [SemanticChunker]),
    - the index builder that follows it in the same file (class [IndexBuilder]),
    - the hierarchical router of [backend/src/rag/geminiGenerator.ts]
      (class [HierarchicalRouter]),
    and the properties of the specification that concern them.

    Conventions.
    - A JavaScript string is the list of its UTF-16 code units ([ustring]),
      so that [length] is the [.length] of the source.
    - Token counts, indexes and budgets are integers ([Z]).
    - Scores are JavaScript numbers.  They are modelled by exact rationals
      together with the IEEE value NaN ([num]); where the rounding of a
      double decides what the code does, the computation is made in binary64
      ([Num.double]).
    - A [Map] or a plain object used as a record of keys is an association
      list in insertion order; a read of a plain object that goes through
      the prototype chain is [Obj.read].
    - Code that can raise returns [option] or [result]. *)

From Stdlib Require Import String Ascii DecimalString.
From Stdlib Require Import List ZArith NArith QArith Qround Bool Lia.
From Stdlib Require Import Permutation Sorted DecimalNat SpecFloat.
Import ListNotations.

Set Implicit Arguments.
Open Scope Z_scope.

(* ================================================================= *)
(** ** JavaScript strings and arrays *)

Module JS.

Definition ustring := list N.

Definition lit (s : string) : ustring :=
  List.map N_of_ascii (list_ascii_of_string s).
Arguments lit s%_string.

Definition ueqb (a b : ustring) : bool :=
  if list_eq_dec N.eq_dec a b then true else false.

(** [arr.includes(x)] on an array of strings. *)
Definition mem (x : ustring) (l : list ustring) : bool :=
  existsb (ueqb x) l.

Fixpoint startsWith (pat s : ustring) : bool :=
  match pat, s with
  | [], _ => true
  | _ :: _, [] => false
  | p :: pat', c :: s' => N.eqb p c && startsWith pat' s'
  end.

(** [s.includes(pat)] *)
Fixpoint includes (s pat : ustring) : bool :=
  startsWith pat s ||
  match s with
  | [] => false
  | _ :: s' => includes s' pat
  end.

(** [s.substring(a, b)] for [0 <= a <= b]. *)
Definition substring (s : ustring) (a b : nat) : ustring :=
  firstn (b - a) (skipn a s).

(** [arr.slice(a, b)] for [0 <= a <= b]. *)
Definition slice {A} (l : list A) (a b : nat) : list A :=
  firstn (b - a) (skipn a l).

(** [arr.join(sep)] *)
Fixpoint join (sep : ustring) (l : list ustring) : ustring :=
  match l with
  | [] => []
  | [x] => x
  | x :: rest => x ++ sep ++ join sep rest
  end.

(** [String(n)] for a non-negative integer. *)
Definition ofNat (n : nat) : ustring :=
  lit (NilEmpty.string_of_uint (Nat.to_uint n)).

(** The class [\s] of a regular expression. *)
Definition isSpace (c : N) : bool :=
  ((9 <=? c) && (c <=? 13) || (c =? 32) || (c =? 160) || (c =? 5760)
   || ((8192 <=? c) && (c <=? 8202)) || (c =? 8232) || (c =? 8233)
   || (c =? 8239) || (c =? 8287) || (c =? 12288) || (c =? 65279))%N.

(** The class [\d]. *)
Definition isDigit (c : N) : bool := ((48 <=? c) && (c <=? 57))%N.

(** The class [[א-ת]], U+05D0 to U+05EA. *)
Definition isAlefTav (c : N) : bool := ((1488 <=? c) && (c <=? 1514))%N.

(** The class [[֐-׿]]. *)
Definition isHebrew (c : N) : bool := ((1424 <=? c) && (c <=? 1535))%N.

Fixpoint dropWhile (p : N -> bool) (s : ustring) : ustring :=
  match s with
  | c :: s' => if p c then dropWhile p s' else s
  | [] => []
  end.

(** [/^pat\s+[cls]+/.test(s)]: the literal, at least one blank, then one
    character of the class.  Blanks and the classes used below are
    disjoint, so no backtracking is involved. *)
Definition testMarker (pat : ustring) (cls : N -> bool) (s : ustring) : bool :=
  startsWith pat s &&
  match skipn (length pat) s with
  | c :: rest =>
      isSpace c &&
      match dropWhile isSpace rest with
      | d :: _ => cls d
      | [] => false
      end
  | [] => false
  end.

(** [[...new Set(l)]]: first occurrences, in order. *)
Fixpoint dedupAcc (seen l : list ustring) : list ustring :=
  match l with
  | [] => []
  | x :: rest =>
      if mem x seen then dedupAcc seen rest
      else x :: dedupAcc (x :: seen) rest
  end.

Definition dedup (l : list ustring) : list ustring := dedupAcc [] l.

(** Hebrew literals of the source, as code units. *)
Definition he_torah       : ustring := [1514; 1493; 1512; 1492]%N.
Definition he_siman       : ustring := [1505; 1497; 1502; 1503]%N.
Definition he_maase       : ustring := [1502; 1506; 1513; 1492]%N.
Definition he_haya_paam   : ustring := [1492; 1497; 1492; 32; 1508; 1506; 1501]%N.
Definition he_maase_b     : ustring := [1502; 1506; 1513; 1492; 32; 1489]%N.
Definition he_ribono      : ustring :=
  [1512; 1489; 1493; 1504; 1493; 32; 1513; 1500; 32; 1506; 1493; 1500; 1501]%N.
Definition he_yehi_ratzon : ustring := [1497; 1492; 1497; 32; 1512; 1510; 1493; 1503]%N.
Definition he_tefila      : ustring := [1514; 1508; 1497; 1500; 1492]%N.
Definition he_lehitpalel  : ustring := [1500; 1492; 1514; 1508; 1500; 1500]%N.
Definition he_tfila       : ustring := [1514; 1508; 1500; 1492]%N.
Definition he_simcha      : ustring := [1513; 1502; 1495; 1492]%N.
Definition he_lismoach    : ustring := [1500; 1513; 1502; 1493; 1495]%N.
Definition he_sameach     : ustring := [1513; 1502; 1495]%N.
Definition he_emuna       : ustring := [1488; 1502; 1493; 1504; 1492]%N.
Definition he_lehaamin    : ustring := [1500; 1492; 1488; 1502; 1497; 1503]%N.
Definition he_maamin      : ustring := [1502; 1488; 1502; 1497; 1503]%N.
Definition he_teshuva     : ustring := [1514; 1513; 1493; 1489; 1492]%N.
Definition he_lashuv      : ustring := [1500; 1513; 1493; 1489]%N.
Definition he_chazara     : ustring := [1495; 1494; 1512; 1492]%N.
Definition he_tzadik      : ustring := [1510; 1491; 1497; 1511]%N.
Definition he_tzadikim    : ustring := [1510; 1491; 1497; 1511; 1497; 1501]%N.
Definition he_hatzadik    : ustring := [1492; 1510; 1491; 1497; 1511]%N.
Definition he_lilmod      : ustring := [1500; 1500; 1502; 1493; 1491]%N.
Definition he_limud       : ustring := [1500; 1497; 1502; 1493; 1491]%N.
Definition he_hitbodedut  : ustring := [1492; 1514; 1489; 1493; 1491; 1491; 1493; 1514]%N.
Definition he_lehitboded  : ustring := [1500; 1492; 1514; 1489; 1493; 1491; 1491]%N.
Definition he_boded       : ustring := [1489; 1493; 1491; 1491]%N.
Definition he_hodaa       : ustring := [1492; 1493; 1491; 1488; 1492]%N.
Definition he_toda        : ustring := [1514; 1493; 1491; 1492]%N.
Definition he_lehodot     : ustring := [1500; 1492; 1493; 1491; 1493; 1514]%N.
Definition he_mode        : ustring := [1502; 1493; 1491; 1492]%N.
Definition he_bakasha     : ustring := [1489; 1511; 1513; 1492]%N.
Definition he_levakesh    : ustring := [1500; 1489; 1511; 1513]%N.
Definition he_mevakesh    : ustring := [1502; 1489; 1511; 1513]%N.
Definition he_shevach     : ustring := [1513; 1489; 1495]%N.
Definition he_leshabeach  : ustring := [1500; 1513; 1489; 1495]%N.
Definition he_meshabeach  : ustring := [1502; 1513; 1489; 1495]%N.
Definition he_vidui       : ustring := [1493; 1497; 1491; 1493; 1497]%N.
Definition he_lehitvadot  : ustring := [1500; 1492; 1514; 1493; 1493; 1491; 1493; 1514]%N.
Definition he_mitvade     : ustring := [1502; 1514; 1493; 1493; 1491; 1492]%N.

End JS.

(** The option monad, for code that can raise a [TypeError]. *)
Definition obind {A B} (x : option A) (k : A -> option B) : option B :=
  match x with
  | Some a => k a
  | None => None
  end.

Notation "x <- e ;; k" := (obind e (fun x => k))
  (at level 61, e at next level, right associativity).

Fixpoint mapM {A B} (f : A -> option B) (l : list A) : option (list B) :=
  match l with
  | [] => Some []
  | a :: rest =>
      b <- f a ;;
      bs <- mapM f rest ;;
      Some (b :: bs)
  end.

(** An option of a call, with the default that it is spread over. *)
Definition withDefault {A} (x : option A) (d : A) : A :=
  match x with
  | Some a => a
  | None => d
  end.

(* ================================================================= *)
(** ** The semantic chunker ([SemanticChunker]) *)

Module Chunker.
Import JS.

(** A section of a book, as the ingestion step hands it over. *)
Record BookSection := mkSection {
  s_title : option ustring;
  s_hebrewText : ustring;
  s_englishText : option ustring;
  s_frenchText : option ustring;
  s_reference : ustring;
  s_index : Z
}.

Record Book := mkBook {
  b_id : ustring;
  b_title : option ustring;
  b_hebrewTitle : option ustring;
  b_sections : list BookSection
}.

Inductive UnitType := torah | story | prayer | section.

Record SemanticUnit := mkUnit {
  u_id : ustring;
  u_type : UnitType;
  u_sections : list BookSection;
  u_tokenCount : Z;
  u_themes : list ustring
}.

Record Citation := mkCitation {
  cit_source : ustring;
  cit_text : ustring
}.

(** [Chunk].  The [searchVectors] field is never written by the code
    embedded here and is left out. *)
Record Chunk := mkChunk {
  c_id : ustring;
  c_bookId : ustring;
  c_sectionId : ustring;
  c_hebrew : ustring;
  c_english : option ustring;
  c_french : option ustring;
  c_reference : ustring;
  c_startIndex : Z;
  c_endIndex : Z;
  c_tokenCount : Z;
  c_themes : list ustring;
  c_citations : list Citation;
  c_before : option ustring;
  c_after : option ustring;
  c_embedding : option (list Q)
}.

Record ChunkingOptions := mkOptions {
  maxTokens : Z;
  minTokens : Z;
  overlapRatio : Q;
  preserveSemanticUnits : bool
}.

Definition DEFAULT_OPTIONS : ChunkingOptions :=
  mkOptions 75000 50000 (1 # 10) true.

(** [Math.ceil(text.length / 4)] *)
Definition estimateTokens (text : ustring) : Z :=
  (Z.of_nat (length text) + 3) / 4.

(** [x || y] on strings: the empty string is falsy. *)
Definition orElse (x : option ustring) (y : ustring) : ustring :=
  match x with
  | Some (c :: t) => c :: t
  | _ => y
  end.

Definition isTorahStart (s : BookSection) : bool :=
  let subject := orElse (s_title s) (substring (s_hebrewText s) 0 50) in
  testMarker he_torah isAlefTav subject
  || testMarker (lit "Torah") isDigit subject
  || testMarker he_siman isAlefTav subject.

Definition storyMarkers : list ustring :=
  [he_maase; he_haya_paam; he_maase_b; lit "Once there was"; lit "Story of"].

Definition isStoryStart (s : BookSection) : bool :=
  let text := substring (s_hebrewText s) 0 100 in
  existsb (includes text) storyMarkers.

Definition prayerMarkers : list ustring :=
  [he_ribono; he_yehi_ratzon; he_tefila; lit "Master of the Universe"].

Definition isPrayerStart (s : BookSection) : bool :=
  let text := substring (s_hebrewText s) 0 100 in
  existsb (includes text) prayerMarkers.

(** A theme table: each theme with the words that announce it. *)
Definition themeTable := list (ustring * list ustring).

Definition matchThemes (table : themeTable) (text : ustring) : list ustring :=
  List.map fst (filter (fun e => existsb (includes text) (snd e)) table).

Definition themeKeywords : themeTable :=
  [ (he_tefila,     [he_tefila; he_lehitpalel; he_tfila]);
    (he_simcha,     [he_simcha; he_lismoach; he_sameach]);
    (he_emuna,      [he_emuna; he_lehaamin; he_maamin]);
    (he_teshuva,    [he_teshuva; he_lashuv; he_chazara]);
    (he_tzadik,     [he_tzadik; he_tzadikim; he_hatzadik]);
    (he_torah,      [he_torah; he_lilmod; he_limud]);
    (he_hitbodedut, [he_hitbodedut; he_lehitboded; he_boded]) ].

Definition extractThemes (text : ustring) : list ustring :=
  matchThemes themeKeywords text.

Definition prayerThemes : themeTable :=
  [ (he_hodaa,   [he_toda; he_lehodot; he_mode]);
    (he_bakasha, [he_bakasha; he_levakesh; he_mevakesh]);
    (he_shevach, [he_shevach; he_leshabeach; he_meshabeach]);
    (he_vidui,   [he_vidui; he_lehitvadot; he_mitvade]) ].

Definition extractPrayerThemes (text : ustring) : list ustring :=
  dedup (extractThemes text ++ matchThemes prayerThemes text).

(** *** Unit identification *)

(** The loops of [identifyTorahUnits], [identifyStoryUnits] and
    [identifyPrayerUnits] are one loop, up to the marker test, the prefix of
    the unit ids, the unit type and the theme extractor.  The loop state is
    the array [units] and the unit under construction. *)
Record Heuristic := mkHeuristic {
  h_isStart : BookSection -> bool;
  h_prefix : ustring;
  h_type : UnitType;
  h_themes : ustring -> list ustring
}.

Definition unitsStep (h : Heuristic)
  (st : list SemanticUnit * option SemanticUnit) (s : BookSection)
  : list SemanticUnit * option SemanticUnit :=
  let '(units, current) := st in
  if h_isStart h s then
    let units' := match current with
                  | Some c => units ++ [c]
                  | None => units
                  end in
    (units',
     Some (mkUnit (h_prefix h ++ ofNat (length units' + 1)) (h_type h) [s]
                  (estimateTokens (s_hebrewText s))
                  (h_themes h (s_hebrewText s))))
  else
    match current with
    | Some c =>
        (units,
         Some (mkUnit (u_id c) (u_type c) (u_sections c ++ [s])
                      (u_tokenCount c + estimateTokens (s_hebrewText s))
                      (u_themes c)))
    | None => (units, None)
    end.

Definition unitsLoop (h : Heuristic) (sections : list BookSection)
  : list SemanticUnit :=
  let '(units, current) := fold_left (unitsStep h) sections ([], None) in
  match current with
  | Some c => units ++ [c]
  | None => units
  end.

Definition torahHeuristic : Heuristic :=
  mkHeuristic isTorahStart (lit "torah_") torah extractThemes.
Definition storyHeuristic : Heuristic :=
  mkHeuristic isStoryStart (lit "story_") story extractThemes.
Definition prayerHeuristic : Heuristic :=
  mkHeuristic isPrayerStart (lit "prayer_") prayer extractPrayerThemes.

Definition identifyTorahUnits (book : Book) : list SemanticUnit :=
  unitsLoop torahHeuristic (b_sections book).
Definition identifyStoryUnits (book : Book) : list SemanticUnit :=
  unitsLoop storyHeuristic (b_sections book).
Definition identifyPrayerUnits (book : Book) : list SemanticUnit :=
  unitsLoop prayerHeuristic (b_sections book).

Definition sectionsPerUnit : nat := 10.

(** [sections.reduce((sum, s) => sum + estimateTokens(s.hebrewText), 0)] *)
Definition sumSectionTokens (secs : list BookSection) : Z :=
  fold_left (fun sum s => sum + estimateTokens (s_hebrewText s)) secs 0.

(** The [for (let i = 0; i < book.sections.length; i += sectionsPerUnit)]
    loop; [fuel] bounds the number of iterations. *)
Fixpoint defaultLoop (fuel : nat) (sections : list BookSection) (i : nat)
  (units : list SemanticUnit) : list SemanticUnit :=
  match fuel with
  | O => units
  | S fuel' =>
      if (i <? length sections)%nat then
        let secs := slice sections i (i + sectionsPerUnit) in
        let tokenCount := sumSectionTokens secs in
        defaultLoop fuel' sections (i + sectionsPerUnit)
          (units ++ [mkUnit (lit "unit_" ++ ofNat (length units + 1)) section
                            secs tokenCount
                            (extractThemes
                               (join (lit " ") (List.map s_hebrewText secs)))])
      else units
  end.

Definition identifyDefaultUnits (book : Book) : list SemanticUnit :=
  defaultLoop (length (b_sections book)) (b_sections book) 0 [].

Definition identifySemanticUnits (book : Book) : list SemanticUnit :=
  if includes (b_id book) (lit "likutey_moharan") then identifyTorahUnits book
  else if includes (b_id book) (lit "sippurei_maasiyot") then identifyStoryUnits book
  else if includes (b_id book) (lit "tefilot") then identifyPrayerUnits book
  else identifyDefaultUnits book.

(** *** Grouping units into chunks *)

(** [Math.floor(options.maxTokens * 0.8)] *)
Definition targetSize (options : ChunkingOptions) : Z :=
  (maxTokens options * 8) / 10.

Record SplitState := mkSplit {
  sp_chunks : list SemanticUnit;
  sp_currentSections : list BookSection;
  sp_currentTokens : Z
}.

Definition partOf (unit : SemanticUnit) (n : nat) (secs : list BookSection)
  (tokens : Z) : SemanticUnit :=
  mkUnit (u_id unit ++ lit "_part" ++ ofNat (n + 1)) (u_type unit) secs tokens
         (u_themes unit).

Definition splitStep (unit : SemanticUnit) (options : ChunkingOptions)
  (st : SplitState) (s : BookSection) : SplitState :=
  let sectionTokens := estimateTokens (s_hebrewText s) in
  if (sp_currentTokens st + sectionTokens >? targetSize options)
     && (0 <? length (sp_currentSections st))%nat
  then
    mkSplit (sp_chunks st ++
               [partOf unit (length (sp_chunks st)) (sp_currentSections st)
                       (sp_currentTokens st)])
            [s] sectionTokens
  else
    mkSplit (sp_chunks st) (sp_currentSections st ++ [s])
            (sp_currentTokens st + sectionTokens).

Definition splitLargeUnit (unit : SemanticUnit) (options : ChunkingOptions)
  : list SemanticUnit :=
  let st := fold_left (splitStep unit options) (u_sections unit)
                      (mkSplit [] [] 0) in
  if (0 <? length (sp_currentSections st))%nat then
    sp_chunks st ++
      [partOf unit (length (sp_chunks st)) (sp_currentSections st)
              (sp_currentTokens st)]
  else sp_chunks st.

Record GroupState := mkGroup {
  g_groups : list (list SemanticUnit);
  g_currentGroup : list SemanticUnit;
  g_currentTokens : Z
}.

Definition groupTokens (g : list SemanticUnit) : Z :=
  fold_left (fun sum u => sum + u_tokenCount u) g 0.

Definition flushCurrent (st : GroupState) : GroupState :=
  if (0 <? length (g_currentGroup st))%nat
  then mkGroup (g_groups st ++ [g_currentGroup st]) [] 0
  else st.

Definition groupStep (options : ChunkingOptions) (st : GroupState)
  (unit : SemanticUnit) : GroupState :=
  if u_tokenCount unit >? maxTokens options then
    let st' := flushCurrent st in
    mkGroup (g_groups st' ++
               List.map (fun u => [u]) (splitLargeUnit unit options))
            (g_currentGroup st') (g_currentTokens st')
  else if g_currentTokens st + u_tokenCount unit >? maxTokens options then
    mkGroup (if (0 <? length (g_currentGroup st))%nat
             then g_groups st ++ [g_currentGroup st]
             else g_groups st)
            [unit] (u_tokenCount unit)
  else
    mkGroup (g_groups st) (g_currentGroup st ++ [unit])
            (g_currentTokens st + u_tokenCount unit).

Definition groupUnitsIntoChunks (units : list SemanticUnit)
  (options : ChunkingOptions) : list (list SemanticUnit) :=
  let st := fold_left (groupStep options) units (mkGroup [] [] 0) in
  let groups := g_groups st in
  let currentGroup := g_currentGroup st in
  let currentTokens := g_currentTokens st in
  if (0 <? length currentGroup)%nat then
    if (currentTokens <? minTokens options) && (0 <? length groups)%nat then
      let lastGroup := last groups [] in
      let lastGroupTokens := groupTokens lastGroup in
      if lastGroupTokens + currentTokens <=? maxTokens options then
        removelast groups ++ [lastGroup ++ currentGroup]
      else groups ++ [currentGroup]
    else groups ++ [currentGroup]
  else groups.

(** *** Building the chunks *)

Inductive Position := atStart | atEnd.

(** The number of characters kept of a text that does not fit whole:
    [Math.floor(text.length * ((maxTokens - tokens) / textTokens))],
    computed exactly. *)
Definition partialChars (text : ustring) (budget tokens textTokens : Z) : nat :=
  Z.to_nat (Z.max 0 ((Z.of_nat (length text) * (budget - tokens)) / textTokens)).

(** Loop of the ['start'] branch, with its accumulators [context] and
    [tokens]; the first text that does not fit ends the loop. *)
Fixpoint contextStart (texts : list ustring) (budget : Z) (context : ustring)
  (tokens : Z) : ustring :=
  match texts with
  | [] => context
  | text :: rest =>
      let textTokens := estimateTokens text in
      if tokens + textTokens >? budget then
        context ++ substring text 0 (partialChars text budget tokens textTokens)
                ++ lit "..."
      else contextStart rest budget (context ++ text ++ [10%N])
                        (tokens + textTokens)
  end.

(** Loop of the ['end'] branch, over the texts in reverse order. *)
Fixpoint contextEnd (revTexts : list ustring) (budget : Z) (context : ustring)
  (tokens : Z) : ustring :=
  match revTexts with
  | [] => context
  | text :: rest =>
      let textTokens := estimateTokens text in
      if tokens + textTokens >? budget then
        lit "..." ++
        skipn (length text - partialChars text budget tokens textTokens) text
        ++ context
      else contextEnd rest budget (text ++ [10%N] ++ context)
                      (tokens + textTokens)
  end.

Definition getOverlapContext (units : list SemanticUnit) (budget : Z)
  (position : Position) : ustring :=
  let sections := flat_map u_sections units in
  let texts := List.map s_hebrewText sections in
  match position with
  | atStart => contextStart texts budget [] 0
  | atEnd => contextEnd (rev texts) budget [] 0
  end.

(** [s || undefined] *)
Definition nonEmpty (s : ustring) : option ustring :=
  match s with
  | [] => None
  | _ => Some s
  end.

Definition extractUniqueThemes (units : list SemanticUnit) : list ustring :=
  dedup (flat_map u_themes units).

Definition generateReference (bookId : ustring) (units : list SemanticUnit)
  : option ustring :=
  u0 <- hd_error units ;;
  firstSection <- hd_error (u_sections u0) ;;
  lastUnit <- hd_error (rev units) ;;
  lastSection <- hd_error (rev (u_sections lastUnit)) ;;
  if ueqb (s_reference firstSection) (s_reference lastSection)
  then Some (s_reference firstSection)
  else Some (s_reference firstSection ++ lit " - " ++ s_reference lastSection).

Definition paragraphBreak : ustring := [10; 10]%N.

Section WithExternals.

(** The first eight hexadecimal digits of the MD5 digest of a string. *)
Variable md5hex8 : ustring -> ustring.

(** The method [this.extractCitations] that [createChunk] calls, as a
    parameter of the functions that lead to the call; [None] is an
    exception that it raises.  The method of the class is
    [extractCitations] below. *)
Variable extractCitations : ustring -> option (list Citation).

Definition generateChunkId (bookId : ustring) (index : nat) (content : ustring)
  : ustring :=
  bookId ++ lit "_chunk_" ++ ofNat index ++ lit "_"
         ++ md5hex8 (substring content 0 100).

(** [createChunk]; [None] is the [TypeError] raised by the scan for
    citations, or when a group or the sections of its first or last unit
    are empty. *)
Definition createChunk (bookId : ustring) (units : list SemanticUnit)
  (index : nat) (prevUnits nextUnits : option (list SemanticUnit))
  (options : ChunkingOptions) : option Chunk :=
  let allSections := flat_map u_sections units in
  let overlapTokens :=
    Qfloor (inject_Z (maxTokens options) * overlapRatio options) in
  let beforeContext :=
    match prevUnits with
    | Some pu => getOverlapContext pu overlapTokens atEnd
    | None => []
    end in
  let afterContext :=
    match nextUnits with
    | Some nu => getOverlapContext nu overlapTokens atStart
    | None => []
    end in
  let hebrewText := join paragraphBreak (List.map s_hebrewText allSections) in
  let englishText :=
    join paragraphBreak
         (List.map (fun s => orElse (s_englishText s) []) allSections) in
  let frenchText :=
    join paragraphBreak
         (List.map (fun s => orElse (s_frenchText s) []) allSections) in
  let themes := extractUniqueThemes units in
  citations <- extractCitations hebrewText ;;
  let chunkId := generateChunkId bookId index hebrewText in
  u0 <- hd_error units ;;
  ref <- generateReference bookId units ;;
  first <- hd_error allSections ;;
  lastS <- hd_error (rev allSections) ;;
  Some (mkChunk chunkId bookId (u_id u0)
                hebrewText (nonEmpty englishText) (nonEmpty frenchText)
                ref (s_index first) (s_index lastS)
                (groupTokens units) themes citations
                (nonEmpty beforeContext) (nonEmpty afterContext) None).

(** The caller's [Partial<ChunkingOptions>] and [{...DEFAULT_OPTIONS, ...options}]. *)
Record PartialOptions := mkPartial {
  p_maxTokens : option Z;
  p_minTokens : option Z;
  p_overlapRatio : option Q;
  p_preserveSemanticUnits : option bool
}.

Definition noOptions : PartialOptions := mkPartial None None None None.

Definition mergeOptions (options : PartialOptions) : ChunkingOptions :=
  mkOptions (withDefault (p_maxTokens options) (maxTokens DEFAULT_OPTIONS))
            (withDefault (p_minTokens options) (minTokens DEFAULT_OPTIONS))
            (withDefault (p_overlapRatio options) (overlapRatio DEFAULT_OPTIONS))
            (withDefault (p_preserveSemanticUnits options)
                         (preserveSemanticUnits DEFAULT_OPTIONS)).

(** [groupedUnits[i - 1]]: [undefined] at [i = 0]. *)
Definition before {A} (l : list A) (i : nat) : option A :=
  match i with
  | O => None
  | S j => nth_error l j
  end.

Definition chunksOfGroups (bookId : ustring)
  (groupedUnits : list (list SemanticUnit)) (opts : ChunkingOptions)
  : option (list Chunk) :=
  mapM (fun i =>
          group <- nth_error groupedUnits i ;;
          createChunk bookId group i (before groupedUnits i)
                      (nth_error groupedUnits (i + 1)) opts)
       (seq 0 (length groupedUnits)).

Definition chunkBook (book : Book) (options : PartialOptions)
  : option (list Chunk) :=
  let opts := mergeOptions options in
  let semanticUnits := identifySemanticUnits book in
  let groupedUnits := groupUnitsIntoChunks semanticUnits opts in
  chunksOfGroups (b_id book) groupedUnits opts.

End WithExternals.

(** *** The scan for citations *)

(** A regular expression of the scan: whether it has the [g] flag, and the
    first groups of its matches in a text, from left to right. *)
Record Pattern := mkPattern {
  p_global : bool;
  p_groups : ustring -> list ustring
}.

(** The first groups of the matches of a pattern [O([^C]+)C], where [O] is
    a class of characters that open and [C] one of characters that close.
    [open] is the text since the character that may open a match; a
    closing character that comes at once ends the attempt, and opens the
    next one when it is in [O] too. *)
Fixpoint groupsBetween (isOpen isClose : N -> bool) (s : ustring)
  (open : option ustring) : list ustring :=
  match s with
  | [] => []
  | c :: rest =>
      match open with
      | None =>
          if isOpen c then groupsBetween isOpen isClose rest (Some [])
          else groupsBetween isOpen isClose rest None
      | Some run =>
          if isClose c then
            match run with
            | [] =>
                groupsBetween isOpen isClose rest
                              (if isOpen c then Some [] else None)
            | _ => rev run :: groupsBetween isOpen isClose rest None
            end
          else groupsBetween isOpen isClose rest (Some (c :: run))
      end
  end.

(** [/\(([^)]+)\)/g] *)
Definition parenthesized : Pattern :=
  mkPattern true (fun text => groupsBetween (N.eqb 40) (N.eqb 41) text None).

(** The second pattern of the source, the text between two double quotes,
    which has no [g] flag. *)
Definition quoted : Pattern :=
  mkPattern false (fun text => groupsBetween (N.eqb 34) (N.eqb 34) text None).

(** [text.matchAll(pattern)]: a [TypeError], here [None], for a pattern
    without the [g] flag. *)
Definition matchAll (text : ustring) (pattern : Pattern)
  : option (list ustring) :=
  if p_global pattern then Some (p_groups pattern text) else None.

(** The names of the books that make a text in brackets a citation. *)
Definition citationSources : list ustring :=
  [ [1514; 1492; 1500; 1497; 1501]; [1502; 1513; 1500; 1497];
    [1489; 1512; 1488; 1513; 1497; 1514]; [1513; 1502; 1493; 1514];
    [1493; 1497; 1511; 1512; 1488]; [1489; 1502; 1491; 1489; 1512];
    [1491; 1489; 1512; 1497; 1501] ]%N.

(** The inner loops: a match whose group holds a known source is pushed
    once. *)
Definition citationsOf (groups : list ustring) : list Citation :=
  flat_map (fun citationText =>
              if existsb (includes citationText) citationSources
              then [mkCitation citationText citationText] else [])
           groups.

(** The loop over the patterns, with the citations pushed so far. *)
Fixpoint scanPatterns (patterns : list Pattern) (text : ustring)
  (citations : list Citation) : option (list Citation) :=
  match patterns with
  | [] => Some citations
  | pattern :: rest =>
      matches <- matchAll text pattern ;;
      scanPatterns rest text (citations ++ citationsOf matches)
  end.

(** [SemanticChunker.extractCitations] *)
Definition extractCitations (text : ustring) : option (list Citation) :=
  scanPatterns [parenthesized; quoted] text [].

End Chunker.

(* ================================================================= *)
(** ** JavaScript numbers *)

Module Num.

(** The value of a number-typed expression: a rational, an infinity or
    NaN.  The sign of zero is not kept, and the operations below are
    exact; the operations on doubles, with their rounding, come after
    them. *)
Inductive num := Fin (q : Q) | PInf | NInf | NaN.

Definition Qltb (a b : Q) : bool :=
  match Qcompare a b with
  | Lt => true
  | _ => false
  end.

Definition ofZ (z : Z) : num := Fin (inject_Z z).
Definition ofNat (n : nat) : num := Fin (inject_Z (Z.of_nat n)).

(** The infinity of the sign of [q], NaN at zero. *)
Definition infOfSign (q : Q) : num :=
  match Qcompare q 0 with
  | Gt => PInf
  | Lt => NInf
  | Eq => NaN
  end.

Definition neg (a : num) : num :=
  match a with
  | Fin q => Fin (- q)
  | PInf => NInf
  | NInf => PInf
  | NaN => NaN
  end.

Definition add (a b : num) : num :=
  match a, b with
  | NaN, _ | _, NaN => NaN
  | Fin x, Fin y => Fin (x + y)
  | PInf, NInf | NInf, PInf => NaN
  | PInf, _ | _, PInf => PInf
  | NInf, _ | _, NInf => NInf
  end.

Definition mul (a b : num) : num :=
  match a, b with
  | NaN, _ | _, NaN => NaN
  | Fin x, Fin y => Fin (x * y)
  | Fin x, PInf | PInf, Fin x => infOfSign x
  | Fin x, NInf | NInf, Fin x => neg (infOfSign x)
  | PInf, PInf | NInf, NInf => PInf
  | PInf, NInf | NInf, PInf => NaN
  end.

Definition div (a b : num) : num :=
  match a, b with
  | NaN, _ | _, NaN => NaN
  | Fin x, Fin y => if Qeq_bool y 0 then infOfSign x else Fin (x / y)
  | Fin _, _ => Fin 0
  | PInf, Fin y => if Qltb y 0 then NInf else PInf
  | NInf, Fin y => if Qltb y 0 then PInf else NInf
  | _, _ => NaN
  end.

(** [a > b] *)
Definition gt (a b : num) : bool :=
  match a, b with
  | NaN, _ | _, NaN => false
  | Fin x, Fin y => Qltb y x
  | PInf, PInf => false
  | PInf, _ => true
  | Fin _, NInf => true
  | _, _ => false
  end.

(** [Math.min(a, b)] *)
Definition min (a b : num) : num :=
  match a, b with
  | NaN, _ | _, NaN => NaN
  | _, _ => if gt a b then b else a
  end.

(** [Math.max(a, b)] *)
Definition max (a b : num) : num :=
  match a, b with
  | NaN, _ | _, NaN => NaN
  | _, _ => if gt b a then b else a
  end.

(** [Math.max(...l)]: minus infinity on the empty list. *)
Definition maxOf (l : list num) : num := fold_left max l NInf.

(** [x || 0]: zero and NaN are falsy. *)
Definition orZero (a : num) : num :=
  match a with
  | Fin q => if Qeq_bool q 0 then Fin 0 else a
  | NaN => Fin 0
  | _ => a
  end.

(** [Math.sqrt] on a non-negative rational: exact on squares of rationals,
    truncated to sixteen decimal places otherwise. *)
Definition sqrtScale : Z := 10 ^ 16.

Definition sqrtQ (q : Q) : Q :=
  Qmake (Z.sqrt (Qnum q * Zpos (Qden q) * (sqrtScale * sqrtScale)))
        (Qden q * Z.to_pos sqrtScale).

(** Stable sort in descending order of [score], as [arr.sort((a, b) =>
    b.score - a.score)] on finite scores: an element goes before the first
    element that does not beat it. *)
Fixpoint insertDesc {A} (score : A -> Q) (x : A) (l : list A) : list A :=
  match l with
  | [] => [x]
  | y :: rest =>
      if Qltb (score x) (score y) then y :: insertDesc score x rest
      else x :: y :: rest
  end.

Definition sortDesc {A} (score : A -> Q) (l : list A) : list A :=
  fold_right (insertDesc score) [] l.

(** *** Doubles

    Where the rounding of a double decides what the code does (a score
    against a threshold, the floor of a product), the computation is made
    in binary64 with rounding to nearest, ties to even, by the operations
    of the specification of IEEE 754 of the library. *)

Definition double : Set := spec_float.

Definition prec : Z := 53.
Definition emax : Z := 1024.

(** The double of an integer, exact below [2^53]. *)
Definition dOfZ (z : Z) : double := binary_normalize prec emax z 0 false.
Definition dOfNat (n : nat) : double := dOfZ (Z.of_nat n).

Definition dadd : double -> double -> double := SFadd prec emax.
Definition dmul : double -> double -> double := SFmul prec emax.
Definition ddiv : double -> double -> double := SFdiv prec emax.

(** The double that a decimal literal [n / d] denotes, for [d] a power of
    ten: the quotient of two integers that doubles hold exactly, rounded
    once. *)
Definition decimal (n d : Z) : double := ddiv (dOfZ n) (dOfZ d).

(** [m * 2^e] *)
Definition scaled (m e : Z) : Q :=
  match e with
  | Z0 => inject_Z m
  | Zpos p => inject_Z (m * Zpos (Pos.pow 2 p))
  | Zneg p => Qmake m (Pos.pow 2 p)
  end.

(** The value of a double; 0 for what is no rational. *)
Definition valueQ (x : double) : Q :=
  match x with
  | S754_finite s m e => scaled (if s then Zneg m else Zpos m) e
  | _ => 0
  end.

Definition value (x : double) : num :=
  match x with
  | S754_zero _ => Fin 0
  | S754_finite _ _ _ => Fin (valueQ x)
  | S754_infinity s => if s then NInf else PInf
  | S754_nan => NaN
  end.

(** [Math.floor] of a finite double. *)
Definition dfloor (x : double) : option Z :=
  match x with
  | S754_zero _ => Some 0
  | S754_finite s m e =>
      let z := if s then Zneg m else Zpos m in
      Some match e with
           | Z0 => z
           | Zpos p => z * Zpos (Pos.pow 2 p)
           | Zneg p => z / Zpos (Pos.pow 2 p)
           end
  | _ => None
  end.

End Num.

(* ================================================================= *)
(** ** JavaScript objects used as records of keys, and maps *)

Module Obj.
Import JS.

(** The entries of a [Map], or the own properties of a plain object, in
    creation order.  [get], [set] and [has] are the methods of a [Map]; on
    a plain object they are the read and the write of an own property, and
    agree with [o[k]] for every key that names no member of
    [Object.prototype] ([read] below is [o[k]] for every key). *)
Definition t (V : Type) := list (ustring * V).

Fixpoint get {V} (o : t V) (k : ustring) : option V :=
  match o with
  | [] => None
  | (k', v) :: rest => if ueqb k k' then Some v else get rest k
  end.

(** [o[k] = v], and [m.set(k, v)]: an existing key keeps its place. *)
Fixpoint set {V} (o : t V) (k : ustring) (v : V) : t V :=
  match o with
  | [] => [(k, v)]
  | (k', v') :: rest =>
      if ueqb k k' then (k', v) :: rest else (k', v') :: set rest k v
  end.

Definition has {V} (o : t V) (k : ustring) : bool :=
  match get o k with
  | Some _ => true
  | None => false
  end.

(** The names of the members of [Object.prototype]. *)
Definition prototypeNames : list ustring :=
  [ lit "constructor"; lit "__defineGetter__"; lit "__defineSetter__";
    lit "hasOwnProperty"; lit "__lookupGetter__"; lit "__lookupSetter__";
    lit "isPrototypeOf"; lit "propertyIsEnumerable"; lit "toString";
    lit "valueOf"; lit "__proto__"; lit "toLocaleString" ].

Definition inherited (k : ustring) : bool := mem k prototypeNames.

(** What [o[k]] finds in a plain object: an own property; or, under the
    name of a member of [Object.prototype], the member that the object
    inherits, a function or, under [__proto__], the prototype itself: a
    value that is truthy, is no array and cannot be iterated; or nothing
    ([undefined]). *)
Inductive lookup (V : Type) :=
| Own (v : V)
| Inherited
| Missing.
Arguments Own {V} v.
Arguments Inherited {V}.
Arguments Missing {V}.

Definition read {V} (o : t V) (k : ustring) : lookup V :=
  match get o k with
  | Some v => Own v
  | None => if inherited k then Inherited else Missing
  end.

(** The value of a string of decimal digits. *)
Definition digitsValue (k : ustring) : N :=
  fold_left (fun acc c => (acc * 10 + (c - 48))%N) k 0%N.

(** An array index: a canonical decimal numeral below [2^32 - 1]. *)
Definition arrayIndex (k : ustring) : option N :=
  match k with
  | [] => None
  | c :: rest =>
      if forallb isDigit k
         && (negb (N.eqb c 48) || match rest with [] => true | _ => false end)
         && (length k <=? 10)%nat
         && (digitsValue k <? 4294967295)%N
      then Some (digitsValue k)
      else None
  end.

Fixpoint insertIndex {V} (x : N * (ustring * V)) (l : list (N * (ustring * V)))
  : list (N * (ustring * V)) :=
  match l with
  | [] => [x]
  | y :: rest =>
      if (fst y <? fst x)%N then y :: insertIndex x rest else x :: y :: rest
  end.

Definition indexEntries {V} (o : t V) : list (N * (ustring * V)) :=
  flat_map (fun e => match arrayIndex (fst e) with
                     | Some n => [(n, e)]
                     | None => []
                     end) o.

(** [Object.entries(o)]: array indexes in ascending order, then the other
    keys in creation order. *)
Definition entries {V} (o : t V) : list (ustring * V) :=
  List.map snd (fold_right insertIndex [] (indexEntries o))
  ++ filter (fun e => match arrayIndex (fst e) with
                      | Some _ => false
                      | None => true
                      end) o.

End Obj.

(* ================================================================= *)
(** ** The three index tiers ([MasterIndex], [BookIndex], [ChunkIndex]) *)

Module Index.
Import JS Chunker.

(** A [Date], in milliseconds since the epoch. *)
Definition Date := Z.

Record BookSummary := mkBookSummary {
  bs_id : ustring;
  bs_title : option ustring;
  bs_hebrewTitle : option ustring;
  bs_sections : nat;
  bs_chunks : nat;
  bs_totalTokens : Z;
  bs_themes : list ustring;
  bs_summary : ustring;
  bs_keywordEmbeddings : option (list (list Q))
}.

Record BookReference := mkBookReference {
  br_bookId : ustring;
  br_weight : Q
}.

Record MasterIndex := mkMasterIndex {
  mi_version : ustring;
  mi_created : Date;
  mi_totalBooks : nat;
  mi_totalTokens : Z;
  mi_books : list BookSummary;
  mi_searchIndex : Obj.t (list ustring);
  mi_thematicMap : Obj.t (list BookReference)
}.

Record SectionInfo := mkSectionInfo {
  si_id : ustring;
  si_title : ustring;
  si_themes : list ustring;
  si_summary : ustring;
  si_chunkIds : list ustring;
  si_tokenCount : Z;
  si_keywords : list ustring;
  si_embedding : option (list Q)
}.

Inductive NodeType :=
  nodePart | nodeChapter | nodeSection | nodeTorah | nodePrayer | nodeStory.

#[warnings="-register-all"]
Inductive HierarchyNode :=
  mkNode (id : ustring) (type : NodeType) (title : ustring)
         (children : option (list HierarchyNode)) (chunkIds : list ustring).

Record ChunkReference := mkChunkReference {
  cr_id : ustring;
  cr_sectionId : ustring;
  cr_reference : ustring;
  cr_summary : ustring;
  cr_keywords : list ustring;
  cr_themes : list ustring;
  cr_tokenCount : Z;
  cr_embedding : option (list Q)
}.

Inductive CrossRefType := refQuote | refTheme | refConcept.

Record CrossReference := mkCrossReference {
  xr_fromSection : ustring;
  xr_toSection : ustring;
  xr_type : CrossRefType;
  xr_strength : Q
}.

Record BookIndex := mkBookIndex {
  bi_bookId : ustring;
  bi_title : option ustring;
  bi_hebrewTitle : option ustring;
  bi_created : Date;
  bi_sections : list SectionInfo;
  bi_hierarchy : list HierarchyNode;
  bi_chunks : list ChunkReference;
  bi_thematicMap : Obj.t (list ustring);
  bi_crossReferences : list CrossReference;
  bi_totalTokens : Z
}.

Record ChunkIndex := mkChunkIndex {
  ci_chunkId : ustring;
  ci_bookId : ustring;
  ci_created : Date;
  ci_reference : ustring;
  ci_tokenCount : Z;
  ci_themes : list ustring;
  ci_keywords : list ustring;
  ci_citations : list Citation;
  ci_relatedChunks : list ustring;
  ci_embedding : option (list Q);
  ci_bm25Vector : Obj.t Q
}.

End Index.

(* ================================================================= *)
(** ** The length of [JSON.stringify] *)

Module Json.
Import JS.

(** The values that the indexes serialise to.  A property whose value is
    [undefined] is not part of the object. *)
#[warnings="-register-all"]
Inductive value :=
| Str (s : ustring)
| Int (z : Z)
| Float (q : Q)
| DateValue (d : Z)
| Arr (items : list value)
| Object (fields : list (ustring * value)).

(** Characters that one code unit takes inside a JSON string: two for a
    quote, a backslash and the short escapes, six for the other control
    characters and for a lone surrogate. *)
Definition isHighSurrogate (c : N) : bool := ((55296 <=? c) && (c <=? 56319))%N.
Definition isLowSurrogate (c : N) : bool := ((56320 <=? c) && (c <=? 57343))%N.

Definition plainLength (c : N) : Z :=
  if ((c =? 34) || (c =? 92) || (c =? 8) || (c =? 9) || (c =? 10)
      || (c =? 12) || (c =? 13))%N then 2
  else if (c <? 32)%N then 6
  else 1.

Fixpoint escapedLength (s : ustring) : Z :=
  match s with
  | [] => 0
  | c :: rest =>
      if isHighSurrogate c then
        match rest with
        | d :: rest' =>
            if isLowSurrogate d then 2 + escapedLength rest'
            else 6 + escapedLength rest
        | [] => 6
        end
      else if isLowSurrogate c then 6 + escapedLength rest
      else plainLength c + escapedLength rest
  end.

Definition stringLength (s : ustring) : Z := 2 + escapedLength s.

Definition intLength (z : Z) : Z :=
  Z.of_nat (String.length (NilEmpty.string_of_int (Z.to_int z))).

(** A date serialises to its ISO form between quotes,
    [YYYY-MM-DDTHH:mm:ss.sssZ], for the years 0000 to 9999. *)
Definition dateLength : Z := 26.

Definition commas (n : nat) : Z := Z.of_nat (Nat.pred n).

Section Length.

(** The number of characters of a number that is not integer-valued: the
    shortest decimal that reads back as the same double.  It is a
    parameter. *)
Variable floatLength : Q -> Z.

Fixpoint length (v : value) : Z :=
  match v with
  | Str s => stringLength s
  | Int z => intLength z
  | Float q => floatLength q
  | DateValue _ => dateLength
  | Arr items =>
      2 + commas (List.length items)
      + fold_right (fun x acc => length x + acc) 0 items
  | Object fields =>
      2 + commas (List.length fields)
      + fold_right (fun f acc => stringLength (fst f) + 1 + length (snd f) + acc)
                   0 fields
  end.

End Length.

(** An optional property. *)
Definition opt {A} (k : string) (f : A -> value) (x : option A)
  : list (ustring * value) :=
  match x with
  | Some a => [(lit k, f a)]
  | None => []
  end.

Definition strings (l : list ustring) : value := Arr (List.map Str l).
Definition floats (l : list Q) : value := Arr (List.map Float l).

End Json.

(* ================================================================= *)
(** ** The index builder ([IndexBuilder]) *)

Module IndexBuilder.
Import JS Chunker Index.

(** [text.split(/\s+/)]: the pieces between runs of blanks, empty pieces
    at the ends included. *)
Fixpoint splitBlanks (s : ustring) (word : ustring) (inBlank : bool)
  : list ustring :=
  match s with
  | [] => [rev word]
  | c :: rest =>
      if isSpace c then
        if inBlank then splitBlanks rest word true
        else rev word :: splitBlanks rest [] true
      else splitBlanks rest (c :: word) false
  end.

Definition splitWords (text : ustring) : list ustring :=
  splitBlanks text [] false.

(** [counts[item] = (counts[item] || 0) + 1] over the items, for items that
    name no member of [Object.prototype]: [counts] is a plain object, and
    under such a name the read finds the inherited member, so that what the
    code stores is a string and no count. *)
Definition countOccurrences (items : list ustring) : Obj.t nat :=
  fold_left (fun counts item =>
               Obj.set counts item
                       (match Obj.get counts item with
                        | Some n => n
                        | None => O
                        end + 1)%nat)
            items [].

Definition stopWords : list ustring :=
  [ [1488; 1514]; [1513; 1500]; [1506; 1500]; [1488; 1500]; [1502; 1503];
    [1506; 1501]; [1492; 1493; 1488]; [1492; 1497; 1488]; [1492; 1501];
    [1492; 1503] ]%N.

Definition countScore (e : ustring * nat) : Q := inject_Z (Z.of_nat (snd e)).

(** [extractKeywords], for a text of which no word names a member of
    [Object.prototype] (see [countOccurrences]). *)
Definition extractKeywords (text : ustring) : list ustring :=
  let words := splitWords text in
  let wordCounts := countOccurrences words in
  List.map fst
    (firstn 50
       (Num.sortDesc countScore
          (filter (fun e => negb (mem (fst e) stopWords)
                            && (2 <? length (fst e))%nat)
                  (Obj.entries wordCounts)))).

(** [buildBM25Vector]: the counts of the words longer than two characters,
    divided by the largest count, for a text of which no word names a
    member of [Object.prototype] (see [countOccurrences]). *)
Definition buildBM25Vector (text : ustring) : Obj.t Q :=
  let words := splitWords text in
  let vector :=
    fold_left (fun v word =>
                 if (2 <? length word)%nat then
                   Obj.set v word
                           (match Obj.get v word with
                            | Some n => n
                            | None => O
                            end + 1)%nat
                 else v)
              words [] in
  let maxCount := fold_left Nat.max (List.map snd vector) O in
  List.map (fun e => (fst e,
                      (inject_Z (Z.of_nat (snd e))
                       / inject_Z (Z.of_nat maxCount))%Q))
           vector.

(** [`${x}`] for a value that may be [undefined]. *)
Definition strOf (x : option ustring) : ustring :=
  match x with
  | Some s => s
  | None => lit "undefined"
  end.

(** *** Level 3: chunk indexes *)

Definition buildChunkIndex (now : Date) (chunk : Chunk) : ChunkIndex :=
  mkChunkIndex (c_id chunk) (c_bookId chunk) now (c_reference chunk)
               (c_tokenCount chunk) (c_themes chunk)
               (extractKeywords (c_hebrew chunk)) (c_citations chunk)
               [] (c_embedding chunk) (buildBM25Vector (c_hebrew chunk)).

(** [a.filter(x => b.includes(x)).length] *)
Definition commonCount (a b : list ustring) : nat :=
  length (filter (fun x => mem x b) a).

(** The score of [findRelatedChunks],
    [(themeScore * 0.6) + (keywordScore * 0.4)], as the double that the
    code computes. *)
Definition relatedScore (chunk other : ChunkIndex) : Num.double :=
  let themeScore :=
    Num.ddiv (Num.dOfNat (commonCount (ci_themes chunk) (ci_themes other)))
             (Num.dOfNat (Nat.max (length (ci_themes chunk))
                                  (length (ci_themes other)))) in
  let keywordScore :=
    Num.ddiv (Num.dOfNat (commonCount (ci_keywords chunk) (ci_keywords other)))
             (Num.dOfNat (Nat.max (length (ci_keywords chunk))
                                  (length (ci_keywords other)))) in
  Num.dadd (Num.dmul themeScore (Num.decimal 6 10))
           (Num.dmul keywordScore (Num.decimal 4 10)).

(** Its value: a rational, or NaN when a ratio is [0 / 0]. *)
Definition similarity (chunk other : ChunkIndex) : Num.num :=
  Num.value (relatedScore chunk other).

(** The value of the double [0.3], which is a little below 3/10.  The
    values of two doubles compare as the doubles do. *)
Definition relatedThreshold : Q := Num.valueQ (Num.decimal 3 10).

(** The candidates of one chunk: the other chunks whose score is above the
    threshold, with the score. *)
Definition relatedCandidates (chunks : list ChunkIndex) (chunk : ChunkIndex)
  : list (ustring * Q) :=
  flat_map (fun other =>
              if ueqb (ci_chunkId other) (ci_chunkId chunk) then []
              else match similarity chunk other with
                   | Num.Fin q =>
                       if Num.Qltb relatedThreshold q
                       then [(ci_chunkId other, q)] else []
                   | _ => [] (* NaN; [similarity] is never infinite *)
                   end)
           chunks.

Definition relatedOf (chunks : list ChunkIndex) (chunk : ChunkIndex)
  : list ustring :=
  List.map fst (firstn 5 (Num.sortDesc snd (relatedCandidates chunks chunk))).

Definition setRelated (chunk : ChunkIndex) (related : list ustring)
  : ChunkIndex :=
  mkChunkIndex (ci_chunkId chunk) (ci_bookId chunk) (ci_created chunk)
               (ci_reference chunk) (ci_tokenCount chunk) (ci_themes chunk)
               (ci_keywords chunk) (ci_citations chunk) related
               (ci_embedding chunk) (ci_bm25Vector chunk).

(** [findRelatedChunks] assigns [relatedChunks] of each value of the map in
    turn; the scores read only the fields that it leaves alone. *)
Definition findRelatedChunks (chunkIndexes : Obj.t ChunkIndex)
  : Obj.t ChunkIndex :=
  let chunks := List.map snd chunkIndexes in
  List.map (fun e => (fst e, setRelated (snd e) (relatedOf chunks (snd e))))
           chunkIndexes.

(** *** Level 2: book indexes *)

Definition emptySection (sectionId : ustring) : SectionInfo :=
  mkSectionInfo sectionId (lit "Section " ++ sectionId) [] [] [] 0 [] None.

Definition generateSectionSummary (title : ustring) (themes : list ustring)
  : ustring :=
  title ++ lit ": " ++ join (lit ", ") (firstn 3 themes).

(** The first loop of [buildSectionInfo]: one entry per [sectionId], filled
    chunk after chunk. *)
Definition sectionStep (sectionsMap : Obj.t SectionInfo) (chunk : Chunk)
  : Obj.t SectionInfo :=
  let sectionId := c_sectionId chunk in
  let m := if Obj.has sectionsMap sectionId then sectionsMap
           else Obj.set sectionsMap sectionId (emptySection sectionId) in
  match Obj.get m sectionId with
  | Some sec =>
      Obj.set m sectionId
        (mkSectionInfo (si_id sec) (si_title sec)
                       (si_themes sec ++ c_themes chunk)
                       (si_summary sec)
                       (si_chunkIds sec ++ [c_id chunk])
                       (si_tokenCount sec + c_tokenCount chunk)
                       (si_keywords sec ++ extractKeywords (c_hebrew chunk))
                       (si_embedding sec))
  | None => m
  end.

(** The second loop: deduplicate and summarise. *)
Definition finishSection (sec : SectionInfo) : SectionInfo :=
  let themes := dedup (si_themes sec) in
  mkSectionInfo (si_id sec) (si_title sec) themes
                (generateSectionSummary (si_title sec) themes)
                (si_chunkIds sec) (si_tokenCount sec)
                (firstn 20 (dedup (si_keywords sec)))
                (si_embedding sec).

Definition buildSectionInfo (book : Book) (chunks : list Chunk)
  : list SectionInfo :=
  List.map (fun e => finishSection (snd e)) (fold_left sectionStep chunks []).

Fixpoint updateAt {A} (f : A -> A) (j : nat) (l : list A) : list A :=
  match l, j with
  | [], _ => []
  | x :: rest, O => f x :: rest
  | x :: rest, S j' => x :: updateAt f j' rest
  end.

Definition addChunkIds (ids : list ustring) (sec : SectionInfo) : SectionInfo :=
  mkSectionInfo (si_id sec) (si_title sec) (si_themes sec) (si_summary sec)
                (si_chunkIds sec ++ ids) (si_tokenCount sec) (si_keywords sec)
                (si_embedding sec).

(** A Torah node under construction.  Its [chunkIds] is the very array of
    the section that opened it, here the index of that section; pushing to
    it changes the section too. *)
Record TorahRef := mkTorahRef {
  tr_id : ustring;
  tr_title : ustring;
  tr_section : nat
}.

Record TorahState := mkTorahState {
  ts_sections : list SectionInfo;
  ts_torahs : list TorahRef;
  ts_current : option TorahRef;
  ts_number : nat
}.

Definition torahStep (st : TorahState) (k : nat) : TorahState :=
  match nth_error (ts_sections st) k with
  | None => st
  | Some sec =>
      if includes (si_title sec) (lit "Torah")
         || includes (si_title sec) he_torah
      then
        mkTorahState (ts_sections st)
                     (match ts_current st with
                      | Some c => ts_torahs st ++ [c]
                      | None => ts_torahs st
                      end)
                     (Some (mkTorahRef (lit "torah_" ++ ofNat (ts_number st))
                                       (si_title sec) k))
                     (S (ts_number st))
      else
        match ts_current st with
        | Some c =>
            mkTorahState
              (updateAt (addChunkIds (si_chunkIds sec)) (tr_section c)
                        (ts_sections st))
              (ts_torahs st) (ts_current st) (ts_number st)
        | None => st
        end
  end.

Definition torahNode (sections : list SectionInfo) (r : TorahRef)
  : HierarchyNode :=
  mkNode (tr_id r) nodeTorah (tr_title r) (Some [])
         (match nth_error sections (tr_section r) with
          | Some sec => si_chunkIds sec
          | None => []
          end).

(** [buildTorahHierarchy], with the sections as it leaves them. *)
Definition buildTorahHierarchy (sections : list SectionInfo)
  : list HierarchyNode * list SectionInfo :=
  let st := fold_left torahStep (seq 0 (length sections))
                      (mkTorahState sections [] None 1) in
  let torahs := match ts_current st with
                | Some c => ts_torahs st ++ [c]
                | None => ts_torahs st
                end in
  (List.map (torahNode (ts_sections st)) torahs, ts_sections st).

Fixpoint numbered {A B} (f : nat -> A -> B) (n : nat) (l : list A) : list B :=
  match l with
  | [] => []
  | x :: rest => f n x :: numbered f (S n) rest
  end.

Definition buildStoryHierarchy (sections : list SectionInfo)
  : list HierarchyNode :=
  numbered (fun n sec =>
              mkNode (lit "story_" ++ ofNat n) nodeStory (si_title sec) None
                     (si_chunkIds sec))
           1
           (filter (fun sec => mem (lit "story") (si_themes sec)
                               || includes (si_title sec) he_maase)
                   sections).

Definition buildPrayerHierarchy (sections : list SectionInfo)
  : list HierarchyNode :=
  numbered (fun n sec =>
              mkNode (lit "prayer_" ++ ofNat n) nodePrayer (si_title sec) None
                     (si_chunkIds sec))
           1 sections.

Definition buildHierarchy (book : Book) (sections : list SectionInfo)
  : list HierarchyNode * list SectionInfo :=
  if includes (b_id book) (lit "likutey_moharan") then
    buildTorahHierarchy sections
  else if includes (b_id book) (lit "sippurei_maasiyot") then
    (buildStoryHierarchy sections, sections)
  else if includes (b_id book) (lit "tefilot") then
    (buildPrayerHierarchy sections, sections)
  else
    (List.map (fun sec => mkNode (si_id sec) nodeSection (si_title sec) None
                                 (si_chunkIds sec))
              sections,
     sections).

Definition generateChunkSummary (chunk : Chunk) : ustring :=
  c_reference chunk ++ lit ": " ++ substring (c_hebrew chunk) 0 100 ++ lit "...".

Definition buildChunkReference (chunk : Chunk) : ChunkReference :=
  mkChunkReference (c_id chunk) (c_sectionId chunk) (c_reference chunk)
                   (generateChunkSummary chunk)
                   (firstn 10 (extractKeywords (c_hebrew chunk)))
                   (c_themes chunk) (c_tokenCount chunk) (c_embedding chunk).

(** [if (!o[k]) o[k] = []; o[k].push(v)], for a key that names no member
    of [Object.prototype]: under such a name the read finds the inherited
    member, which has no method [push], and the code raises. *)
Definition pushTo {V} (o : Obj.t (list V)) (k : ustring) (v : V)
  : Obj.t (list V) :=
  Obj.set o k (match Obj.get o k with
               | Some l => l ++ [v]
               | None => [v]
               end).

Definition buildThematicMap (chunks : list Chunk) : Obj.t (list ustring) :=
  fold_left (fun m chunk =>
               fold_left (fun m' theme => pushTo m' theme (c_id chunk))
                         (c_themes chunk) m)
            chunks [].

Definition ratio (a b : nat) : Q :=
  (inject_Z (Z.of_nat a) / inject_Z (Z.of_nat b))%Q.

Definition themeLink (a b : SectionInfo) : list CrossReference :=
  let common := commonCount (si_themes a) (si_themes b) in
  if (0 <? common)%nat then
    [mkCrossReference (si_id a) (si_id b) refTheme
       (ratio common (Nat.max (length (si_themes a)) (length (si_themes b))))]
  else [].

Fixpoint themeLinks (sections : list SectionInfo) : list CrossReference :=
  match sections with
  | [] => []
  | a :: rest => flat_map (themeLink a) rest ++ themeLinks rest
  end.

Definition quoteLinks (chunks : list Chunk) : list CrossReference :=
  flat_map (fun chunk =>
    flat_map (fun citation =>
      flat_map (fun sourceChunk =>
                  if ueqb (c_id sourceChunk) (c_id chunk) then []
                  else [mkCrossReference (c_sectionId chunk)
                                         (c_sectionId sourceChunk)
                                         refQuote (8 # 10)])
               (filter (fun c => includes (c_hebrew c) (cit_source citation))
                       chunks))
      (c_citations chunk))
    chunks.

Definition findCrossReferences (sections : list SectionInfo)
  (chunks : list Chunk) : list CrossReference :=
  themeLinks sections ++ quoteLinks chunks.

Definition buildBookIndex (now : Date) (book : Book) (chunks : list Chunk)
  (chunkIndexes : list ChunkIndex) : BookIndex :=
  let sections := buildSectionInfo book chunks in
  let '(hierarchy, sections') := buildHierarchy book sections in
  let chunkReferences := List.map buildChunkReference chunks in
  let thematicMap := buildThematicMap chunks in
  let crossReferences := findCrossReferences sections' chunks in
  let totalTokens := fold_left (fun sum chunk => sum + c_tokenCount chunk)
                               chunks 0 in
  mkBookIndex (b_id book) (b_title book) (b_hebrewTitle book) now
              sections' hierarchy chunkReferences thematicMap crossReferences
              totalTokens.

Definition compressBookIndex (index : BookIndex) : BookIndex :=
  mkBookIndex (bi_bookId index) (bi_title index) (bi_hebrewTitle index)
    (bi_created index)
    (List.map (fun sec =>
                 mkSectionInfo (si_id sec) (si_title sec) (si_themes sec)
                               (substring (si_summary sec) 0 50)
                               (si_chunkIds sec) (si_tokenCount sec)
                               (firstn 10 (si_keywords sec))
                               (si_embedding sec))
              (bi_sections index))
    (bi_hierarchy index)
    (List.map (fun c =>
                 mkChunkReference (cr_id c) (cr_sectionId c) (cr_reference c)
                                  (substring (cr_summary c) 0 50)
                                  (firstn 5 (cr_keywords c)) (cr_themes c)
                                  (cr_tokenCount c) (cr_embedding c))
              (bi_chunks index))
    (bi_thematicMap index) (bi_crossReferences index) (bi_totalTokens index).

(** *** Level 1: the master index *)

Definition extractTopThemes (bookIndex : BookIndex) : list ustring :=
  let themeCounts :=
    fold_left (fun o e => Obj.set o (fst e) (length (snd e)))
              (Obj.entries (bi_thematicMap bookIndex)) [] in
  List.map fst (firstn 10 (Num.sortDesc countScore (Obj.entries themeCounts))).

Definition generateBookSummary (book : Book) (bookIndex : BookIndex) : ustring :=
  strOf (b_hebrewTitle book) ++ lit ": "
    ++ ofNat (length (bi_sections bookIndex)) ++ lit " sections, "
    ++ ofNat (length (bi_chunks bookIndex)) ++ lit " chunks. Main themes: "
    ++ join (lit ", ") (extractTopThemes bookIndex).

Definition updateGlobalSearchIndex (index : Obj.t (list ustring))
  (bookId : ustring) (bookIndex : BookIndex) : Obj.t (list ustring) :=
  let index1 :=
    fold_left (fun ix e =>
                 pushTo ix (fst e) (bookId ++ lit ":" ++ ofNat (length (snd e))))
              (Obj.entries (bi_thematicMap bookIndex)) index in
  let allKeywords := flat_map cr_keywords (bi_chunks bookIndex) in
  let keywordCounts := countOccurrences allKeywords in
  fold_left (fun ix e =>
               if (5 <? snd e)%nat
               then pushTo ix (fst e) (bookId ++ lit ":" ++ ofNat (snd e))
               else ix)
            (Obj.entries keywordCounts) index1.

Definition updateGlobalThematicMap (map : Obj.t (list BookReference))
  (bookId : ustring) (bookIndex : BookIndex) : Obj.t (list BookReference) :=
  fold_left (fun m e =>
               pushTo m (fst e)
                      (mkBookReference bookId
                         (ratio (length (snd e))
                                (length (bi_chunks bookIndex)))))
            (Obj.entries (bi_thematicMap bookIndex)) map.

Definition compressMasterIndex (index : MasterIndex) : MasterIndex :=
  mkMasterIndex (mi_version index) (mi_created index) (mi_totalBooks index)
    (mi_totalTokens index)
    (List.map (fun b =>
                 mkBookSummary (bs_id b) (bs_title b) (bs_hebrewTitle b)
                               (bs_sections b) (bs_chunks b) (bs_totalTokens b)
                               (firstn 5 (bs_themes b))
                               (substring (bs_summary b) 0 100)
                               (bs_keywordEmbeddings b))
              (mi_books index))
    (List.map (fun e => (fst e, firstn 10 (snd e))) (mi_searchIndex index))
    (mi_thematicMap index).

(** *** Serialised size *)

Definition jsonSection (sec : SectionInfo) : Json.value :=
  Json.Object
    ([ (lit "id", Json.Str (si_id sec));
       (lit "title", Json.Str (si_title sec));
       (lit "themes", Json.strings (si_themes sec));
       (lit "summary", Json.Str (si_summary sec));
       (lit "chunkIds", Json.strings (si_chunkIds sec));
       (lit "tokenCount", Json.Int (si_tokenCount sec));
       (lit "keywords", Json.strings (si_keywords sec)) ]
     ++ Json.opt "embedding" Json.floats (si_embedding sec)).

Definition nodeTypeName (t : NodeType) : ustring :=
  match t with
  | nodePart => lit "part"
  | nodeChapter => lit "chapter"
  | nodeSection => lit "section"
  | nodeTorah => lit "torah"
  | nodePrayer => lit "prayer"
  | nodeStory => lit "story"
  end.

Fixpoint jsonNode (n : HierarchyNode) : Json.value :=
  match n with
  | mkNode id type title children chunkIds =>
      Json.Object
        ([ (lit "id", Json.Str id);
           (lit "type", Json.Str (nodeTypeName type));
           (lit "title", Json.Str title);
           (lit "chunkIds", Json.strings chunkIds) ]
         ++ match children with
            | Some l => [(lit "children", Json.Arr (List.map jsonNode l))]
            | None => []
            end)
  end.

Definition jsonChunkReference (c : ChunkReference) : Json.value :=
  Json.Object
    ([ (lit "id", Json.Str (cr_id c));
       (lit "sectionId", Json.Str (cr_sectionId c));
       (lit "reference", Json.Str (cr_reference c));
       (lit "summary", Json.Str (cr_summary c));
       (lit "keywords", Json.strings (cr_keywords c));
       (lit "themes", Json.strings (cr_themes c));
       (lit "tokenCount", Json.Int (cr_tokenCount c)) ]
     ++ Json.opt "embedding" Json.floats (cr_embedding c)).

Definition crossRefTypeName (t : CrossRefType) : ustring :=
  match t with
  | refQuote => lit "quote"
  | refTheme => lit "theme"
  | refConcept => lit "concept"
  end.

Definition jsonCrossReference (x : CrossReference) : Json.value :=
  Json.Object
    [ (lit "fromSection", Json.Str (xr_fromSection x));
      (lit "toSection", Json.Str (xr_toSection x));
      (lit "type", Json.Str (crossRefTypeName (xr_type x)));
      (lit "strength", Json.Float (xr_strength x)) ].

Definition jsonBookIndex (index : BookIndex) : Json.value :=
  Json.Object
    ([ (lit "bookId", Json.Str (bi_bookId index)) ]
     ++ Json.opt "title" Json.Str (bi_title index)
     ++ Json.opt "hebrewTitle" Json.Str (bi_hebrewTitle index)
     ++ [ (lit "created", Json.DateValue (bi_created index));
          (lit "structure",
           Json.Object
             [ (lit "sections", Json.Arr (List.map jsonSection (bi_sections index)));
               (lit "hierarchy", Json.Arr (List.map jsonNode (bi_hierarchy index))) ]);
          (lit "chunks", Json.Arr (List.map jsonChunkReference (bi_chunks index)));
          (lit "thematicMap",
           Json.Object (List.map (fun e => (fst e, Json.strings (snd e)))
                                 (bi_thematicMap index)));
          (lit "crossReferences",
           Json.Arr (List.map jsonCrossReference (bi_crossReferences index)));
          (lit "totalTokens", Json.Int (bi_totalTokens index)) ]).

Definition jsonBookSummary (b : BookSummary) : Json.value :=
  Json.Object
    ([ (lit "id", Json.Str (bs_id b)) ]
     ++ Json.opt "title" Json.Str (bs_title b)
     ++ Json.opt "hebrewTitle" Json.Str (bs_hebrewTitle b)
     ++ [ (lit "sections", Json.Int (Z.of_nat (bs_sections b)));
          (lit "chunks", Json.Int (Z.of_nat (bs_chunks b)));
          (lit "totalTokens", Json.Int (bs_totalTokens b));
          (lit "themes", Json.strings (bs_themes b));
          (lit "summary", Json.Str (bs_summary b)) ]
     ++ Json.opt "keywordEmbeddings"
                 (fun l => Json.Arr (List.map Json.floats l))
                 (bs_keywordEmbeddings b)).

Definition jsonBookReference (r : BookReference) : Json.value :=
  Json.Object
    [ (lit "bookId", Json.Str (br_bookId r));
      (lit "weight", Json.Float (br_weight r)) ].

Definition jsonMasterIndex (index : MasterIndex) : Json.value :=
  Json.Object
    [ (lit "version", Json.Str (mi_version index));
      (lit "created", Json.DateValue (mi_created index));
      (lit "totalBooks", Json.Int (Z.of_nat (mi_totalBooks index)));
      (lit "totalTokens", Json.Int (mi_totalTokens index));
      (lit "books", Json.Arr (List.map jsonBookSummary (mi_books index)));
      (lit "searchIndex",
       Json.Object (List.map (fun e => (fst e, Json.strings (snd e)))
                             (mi_searchIndex index)));
      (lit "thematicMap",
       Json.Object
         (List.map (fun e => (fst e, Json.Arr (List.map jsonBookReference (snd e))))
                   (mi_thematicMap index))) ].

Section Build.

(** How many characters [JSON.stringify] takes for a fractional number. *)
Variable floatLength : Q -> Z.

(** The time that the [k]-th evaluation of [new Date()] returns. *)
Variable clock : nat -> Date.

(** [Math.ceil(JSON.stringify(index).length / 4)] *)
Definition estimateIndexSize (json : Json.value) : Z :=
  (Json.length floatLength json + 3) / 4.

(** Computations that read the clock: the state is the number of readings
    so far. *)
Definition Timed (A : Type) : Type := nat -> A * nat.

Definition ret {A} (a : A) : Timed A := fun n => (a, n).

Definition bind {A B} (m : Timed A) (k : A -> Timed B) : Timed B :=
  fun n => let '(a, n') := m n in k a n'.

Definition newDate : Timed Date := fun n => (clock n, S n).

Fixpoint foldT {A S} (f : S -> A -> Timed S) (l : list A) (s : S) : Timed S :=
  match l with
  | [] => ret s
  | a :: rest => bind (f s a) (foldT f rest)
  end.

(** The body of the inner loop of [buildChunkIndexes]. *)
Definition addChunkIndex (chunkIndexes : Obj.t ChunkIndex) (chunk : Chunk)
  : Timed (Obj.t ChunkIndex) :=
  bind newDate (fun now =>
  ret (Obj.set chunkIndexes (c_id chunk) (buildChunkIndex now chunk))).

(** The body of the outer loop, over the entries of [chunksMap]. *)
Definition addBookChunks (chunkIndexes : Obj.t ChunkIndex)
  (entry : ustring * list Chunk) : Timed (Obj.t ChunkIndex) :=
  foldT addChunkIndex (snd entry) chunkIndexes.

Definition buildChunkIndexes (chunksMap : Obj.t (list Chunk))
  : Timed (Obj.t ChunkIndex) :=
  bind (foldT addBookChunks chunksMap [])
       (fun chunkIndexes => ret (findRelatedChunks chunkIndexes)).

(** [chunks.map(c => chunkIndexes.get(c.id)).filter(Boolean)] *)
Definition chunkIndexesOf (chunkIndexes : Obj.t ChunkIndex)
  (chunks : list Chunk) : list ChunkIndex :=
  flat_map (fun c => match Obj.get chunkIndexes (c_id c) with
                     | Some ci => [ci]
                     | None => []
                     end)
           chunks.

(** The body of the loop of [buildBookIndexes]. *)
Definition addBookIndex (chunksMap : Obj.t (list Chunk))
  (chunkIndexes : Obj.t ChunkIndex) (bookIndexes : Obj.t BookIndex)
  (book : Book) : Timed (Obj.t BookIndex) :=
  let chunks := match Obj.get chunksMap (b_id book) with
                | Some l => l
                | None => []
                end in
  let bookChunkIndexes := chunkIndexesOf chunkIndexes chunks in
  bind newDate (fun now =>
  let bookIndex := buildBookIndex now book chunks bookChunkIndexes in
  let indexSize := estimateIndexSize (jsonBookIndex bookIndex) in
  if indexSize >? 200000
  then ret (Obj.set bookIndexes (b_id book) (compressBookIndex bookIndex))
  else ret (Obj.set bookIndexes (b_id book) bookIndex)).

Definition buildBookIndexes (books : list Book) (chunksMap : Obj.t (list Chunk))
  (chunkIndexes : Obj.t ChunkIndex) : Timed (Obj.t BookIndex) :=
  foldT (addBookIndex chunksMap chunkIndexes) books [].

Record MasterState := mkMasterState {
  ms_bookSummaries : list BookSummary;
  ms_globalSearchIndex : Obj.t (list ustring);
  ms_globalThematicMap : Obj.t (list BookReference);
  ms_totalTokens : Z
}.

Definition masterStep (bookIndexes : Obj.t BookIndex) (st : MasterState)
  (book : Book) : MasterState :=
  match Obj.get bookIndexes (b_id book) with
  | None => st
  | Some bookIndex =>
      let summary :=
        mkBookSummary (b_id book) (b_title book) (b_hebrewTitle book)
                      (length (bi_sections bookIndex))
                      (length (bi_chunks bookIndex))
                      (bi_totalTokens bookIndex)
                      (extractTopThemes bookIndex)
                      (generateBookSummary book bookIndex)
                      (Some []) in
      mkMasterState
        (ms_bookSummaries st ++ [summary])
        (updateGlobalSearchIndex (ms_globalSearchIndex st) (b_id book) bookIndex)
        (updateGlobalThematicMap (ms_globalThematicMap st) (b_id book) bookIndex)
        (ms_totalTokens st + bi_totalTokens bookIndex)
  end.

(** The master index once the loop over the books is over. *)
Definition finishMasterIndex (now : Date) (totalBooks : nat) (st : MasterState)
  : MasterIndex :=
  let masterIndex :=
    mkMasterIndex (lit "1.0.0") now totalBooks (ms_totalTokens st)
                  (ms_bookSummaries st) (ms_globalSearchIndex st)
                  (ms_globalThematicMap st) in
  let indexSize := estimateIndexSize (jsonMasterIndex masterIndex) in
  if indexSize >? 100000 then compressMasterIndex masterIndex
  else masterIndex.

Definition buildMasterIndex (books : list Book) (bookIndexes : Obj.t BookIndex)
  : Timed MasterIndex :=
  let st := fold_left (masterStep bookIndexes) books (mkMasterState [] [] [] 0) in
  bind newDate (fun now => ret (finishMasterIndex now (length books) st)).

Record AllIndexes := mkAllIndexes {
  masterIndex : MasterIndex;
  bookIndexes : Obj.t BookIndex;
  chunkIndexes : Obj.t ChunkIndex
}.

(** [buildAllIndexes]; the directories and files that it writes are not
    part of the result. *)
Definition buildAllIndexes (books : list Book) (chunksMap : Obj.t (list Chunk))
  : Timed AllIndexes :=
  bind (buildChunkIndexes chunksMap) (fun chunkIndexes =>
  bind (buildBookIndexes books chunksMap chunkIndexes) (fun bookIndexes =>
  bind (buildMasterIndex books bookIndexes) (fun masterIndex =>
  ret (mkAllIndexes masterIndex bookIndexes chunkIndexes)))).

End Build.

End IndexBuilder.

(* ================================================================= *)
(** ** The hierarchical router ([HierarchicalRouter]) *)

Module Router.
Import JS Chunker Index.

Record BookScore := mkBookScore {
  bk_bookId : ustring;
  bk_title : option ustring;
  bk_score : Q;
  bk_reason : ustring
}.

Record SectionCandidate := mkCandidate {
  sc_bookId : ustring;
  sc_sectionId : ustring;
  sc_score : Q;
  sc_chunkIds : list ustring
}.

(** The [confidence] of a result: the number that [calculateConfidence]
    gives, or [null], which is what a confidence that is NaN or infinite
    has become in a result that went through [JSON.stringify] and
    [JSON.parse]. *)
Inductive Confidence :=
| Number (x : Num.num)
| Null.
Coercion Number : Num.num >-> Confidence.

Record RouteResult := mkRouteResult {
  rr_query : ustring;
  rr_books : list BookScore;
  rr_sections : list SectionCandidate;
  rr_chunks : list Chunk;
  rr_totalTokens : Z;
  rr_confidence : Confidence;
  rr_fromCache : bool;
  rr_strategy : ustring
}.

Inductive Language := hebrew | french | english.

(** A property of an options object: the object has no such property, or
    has it with the value [undefined], or with a value. *)
Inductive property (A : Type) :=
| Absent
| Undefined
| Given (a : A).
Arguments Absent {A}.
Arguments Undefined {A}.
Arguments Given {A} a.

Record SearchOptions := mkSearchOptions {
  so_maxTokens : property Z;
  so_minConfidence : property Q;
  so_language : property Language;
  so_useCache : property bool
}.

(** [{}], the default of the parameter. *)
Definition defaultSearch : SearchOptions :=
  mkSearchOptions Absent Absent Absent Absent.

(** The property of [{ name: default, ...options }]: a property of
    [options] overrides the default, also when its value is [undefined],
    which is [None] here. *)
Definition spread {A} (default : A) (given : property A) : option A :=
  match given with
  | Absent => Some default
  | Undefined => None
  | Given a => Some a
  end.

Definition MAX_CONTEXT_TOKENS : Z := 900000.

(** The outcome of a call that can throw. *)
Inductive result (A : Type) :=
| Ok (a : A)
| Throw (message : ustring).
Arguments Ok {A} a.
Arguments Throw {A} message.

(** *** Query keywords *)

(** The code units for which [toLowerCase] is given below: those of ASCII
    and Latin-1, and the Hebrew block, which has no case. *)
Definition latinOrHebrew (c : N) : bool := (c <? 256)%N || isHebrew c.

(** [toLowerCase], for a string of such code units: the capital letters
    of ASCII and Latin-1 are lowered.  The cased letters of other scripts
    are not covered. *)
Definition lowerUnit (c : N) : N :=
  if ((65 <=? c) && (c <=? 90))%N then (c + 32)%N
  else if ((192 <=? c) && (c <=? 222) && negb (c =? 215))%N then (c + 32)%N
  else c.

Definition toLowerCase (s : ustring) : ustring := List.map lowerUnit s.

(** [query.match(/[֐-׿]+/g) || []]: the maximal runs of Hebrew
    code units. *)
Fixpoint hebrewRuns (s : ustring) (run : ustring) : list ustring :=
  match s with
  | [] => match run with [] => [] | _ => [rev run] end
  | c :: rest =>
      if isHebrew c then hebrewRuns rest (c :: run)
      else match run with
           | [] => hebrewRuns rest []
           | _ => rev run :: hebrewRuns rest []
           end
  end.

Definition themeMap : list (ustring * list ustring) :=
  [ (lit "joie",        [he_simcha; lit "simcha"]);
    ([112; 114; 105; 232; 114; 101]%N, [he_tefila; lit "tefila"]);
    (lit "foi",         [he_emuna; lit "emuna"]);
    (lit "repentance",  [he_teshuva; lit "teshuva"]);
    (lit "torah",       [he_torah; lit "torah"]);
    (lit "tsadik",      [he_tzadik; lit "tzadik"]);
    (lit "hitbodedout", [he_hitbodedut; lit "hitbodedut"]) ].

Definition detectThematicKeywords (query : ustring) : list ustring :=
  flat_map (fun e => if includes (toLowerCase query) (fst e) then snd e else [])
           themeMap.

Definition extractQueryKeywords (query : ustring) : list ustring :=
  let normalized := toLowerCase query in
  let words := filter (fun word => (2 <? length word)%nat)
                      (IndexBuilder.splitWords normalized) in
  let hebrewKeywords :=
    if existsb isHebrew query then hebrewRuns query [] else [] in
  let thematicKeywords := detectThematicKeywords query in
  dedup (words ++ hebrewKeywords ++ thematicKeywords).

(** *** Numbers read from the master index *)

(** [s.split(':')] *)
Fixpoint splitColon (s : ustring) (piece : ustring) : list ustring :=
  match s with
  | [] => [rev piece]
  | c :: rest =>
      if (c =? 58)%N then rev piece :: splitColon rest []
      else splitColon rest (c :: piece)
  end.

Definition hexValue (c : N) : option N :=
  if isDigit c then Some (c - 48)%N
  else if ((97 <=? c) && (c <=? 102))%N then Some (c - 87)%N
  else if ((65 <=? c) && (c <=? 70))%N then Some (c - 55)%N
  else None.

Definition decValue (c : N) : option N :=
  if isDigit c then Some (c - 48)%N else None.

(** The digits at the head of [s] in base [radix]; [None] without any. *)
Fixpoint leadingDigits (digit : N -> option N) (radix : N) (s : ustring)
  (acc : option N) : option N :=
  match s with
  | [] => acc
  | c :: rest =>
      match digit c with
      | Some d =>
          leadingDigits digit radix rest
            (Some (match acc with Some a => a | None => 0 end * radix + d)%N)
      | None => acc
      end
  end.

(** [parseInt(s)] without a radix; [undefined] reads as NaN. *)
Definition parseInt (s : option ustring) : Num.num :=
  match s with
  | None => Num.NaN
  | Some s =>
      let s1 := dropWhile isSpace s in
      let '(negative, s2) :=
        match s1 with
        | 45%N :: r => (true, r)
        | 43%N :: r => (false, r)
        | _ => (false, s1)
        end in
      let magnitude :=
        match s2 with
        | 48%N :: x :: r =>
            if ((x =? 120) || (x =? 88))%N
            then leadingDigits hexValue 16 r None
            else leadingDigits decValue 10 s2 None
        | _ => leadingDigits decValue 10 s2 None
        end in
      match magnitude with
      | Some n => Num.ofZ (if negative then - Z.of_N n else Z.of_N n)
      | None => Num.NaN
      end
  end.

Definition dot (a b : list Q) : Q :=
  fold_left (fun acc xy => (acc + fst xy * snd xy)%Q) (combine a b) 0%Q.

Definition cosineSimilarity (vec1 vec2 : list Q) : Q :=
  if negb (length vec1 =? length vec2)%nat then 0%Q
  else
    let dotProduct := dot vec1 vec2 in
    let norm1 := Num.sqrtQ (dot vec1 vec1) in
    let norm2 := Num.sqrtQ (dot vec2 vec2) in
    if Qeq_bool norm1 0 || Qeq_bool norm2 0 then 0%Q
    else (dotProduct / (norm1 * norm2))%Q.

(** *** Level 1: the master index *)

(** [m.set(k, (m.get(k) || 0) + x)] *)
Definition accumulate (m : Obj.t Num.num) (k : ustring) (x : Num.num)
  : Obj.t Num.num :=
  Obj.set m k (Num.add (Num.orZero (match Obj.get m k with
                                    | Some v => v
                                    | None => Num.Fin 0
                                    end)) x).

(** The two loops over the keywords read [searchIndex[keyword]] and
    [thematicMap[keyword]] in plain objects.  Under a keyword that is no
    own property and names a member of [Object.prototype] the read finds
    the inherited member, which is truthy and cannot be iterated: the
    [for ... of] over it raises a [TypeError].  The maps of the loops are
    local to the call, so the test is made before them
    ([searchMasterIndex] below), and the loops read own properties. *)
Definition notIterable {V} (o : Obj.t V) (keyword : ustring) : bool :=
  match Obj.read o keyword with
  | Obj.Inherited => true
  | _ => false
  end.

Definition lexicalMatches (index : MasterIndex) (queryKeywords : list ustring)
  : Obj.t Num.num :=
  fold_left (fun m keyword =>
               match Obj.get (mi_searchIndex index) keyword with
               | Some bookRefs =>
                   fold_left (fun m' ref =>
                                let pieces := splitColon ref [] in
                                let bookId := hd [] pieces in
                                let count := nth_error pieces 1 in
                                accumulate m' bookId
                                  (Num.div (parseInt count) (Num.Fin 100)))
                             bookRefs m
               | None => m
               end)
            queryKeywords [].

Definition thematicMatches (index : MasterIndex) (queryKeywords : list ustring)
  : Obj.t Num.num :=
  fold_left (fun m keyword =>
               match Obj.get (mi_thematicMap index) keyword with
               | Some bookRefs =>
                   fold_left (fun m' ref =>
                                accumulate m' (br_bookId ref)
                                           (Num.Fin (br_weight ref)))
                             bookRefs m
               | None => m
               end)
            queryKeywords [].

(** [queryEmbedding && this.masterIndex.books[0]?.keywordEmbeddings]: an
    array, even an empty one, is truthy. *)
Definition semanticGate (index : MasterIndex) (queryEmbedding : option (list Q))
  : option (list Q) :=
  match queryEmbedding, mi_books index with
  | Some q, first :: _ =>
      match bs_keywordEmbeddings first with
      | Some _ => Some q
      | None => None
      end
  | _, _ => None
  end.

Definition semanticMatches (index : MasterIndex)
  (queryEmbedding : option (list Q)) : Obj.t Num.num :=
  match semanticGate index queryEmbedding with
  | Some q =>
      fold_left (fun m book =>
                   match bs_keywordEmbeddings book with
                   | Some (e :: es) =>
                       let similarities :=
                         List.map (fun emb => Num.Fin (cosineSimilarity q emb))
                                  (e :: es) in
                       Obj.set m (bs_id book) (Num.maxOf similarities)
                   | _ => m
                   end)
                (mi_books index) []
  | None => []
  end.

(** [m.get(k) || 0] *)
Definition scoreIn (m : Obj.t Num.num) (k : ustring) : Num.num :=
  Num.orZero (match Obj.get m k with
              | Some v => v
              | None => Num.Fin 0
              end).

Definition totalScore (lexicalScore thematicScore semanticScore : Num.num)
  : Num.num :=
  Num.add (Num.add (Num.mul lexicalScore (Num.Fin (3 # 10)))
                   (Num.mul thematicScore (Num.Fin (3 # 10))))
          (Num.mul semanticScore (Num.Fin (4 # 10))).

Definition explainBookRelevance (book : BookSummary)
  (lexicalScore thematicScore semanticScore : Num.num) : ustring :=
  let reasons :=
    (if Num.gt lexicalScore (Num.Fin (2 # 10))
     then [lit "Strong keyword match"] else [])
    ++ (if Num.gt thematicScore (Num.Fin (3 # 10))
        then [lit "Relevant themes: "
                ++ join (lit ", ") (firstn 3 (bs_themes book))]
        else [])
    ++ (if Num.gt semanticScore (Num.Fin (5 # 10))
        then [lit "High semantic similarity"] else []) in
  match join (lit "; ") reasons with
  | [] => lit "General relevance"
  | r => r
  end.

Definition bookFloor : Q := 1 # 10.

(** The body of the loop over [allBookIds]. *)
Definition scoreBook (index : MasterIndex)
  (lexical thematic semantic : Obj.t Num.num) (bookId : ustring)
  : list BookScore :=
  let lexicalScore := scoreIn lexical bookId in
  let thematicScore := scoreIn thematic bookId in
  let semanticScore := scoreIn semantic bookId in
  match totalScore lexicalScore thematicScore semanticScore with
  | Num.Fin total =>
      if Num.Qltb bookFloor total then
        match find (fun b => ueqb (bs_id b) bookId) (mi_books index) with
        | Some book =>
            [mkBookScore (bs_id book) (bs_title book) total
                         (explainBookRelevance book lexicalScore thematicScore
                                               semanticScore)]
        | None => []
        end
      else []
  | _ => [] (* the three scores are rationals *)
  end.

(** The message of the [TypeError]. *)
Definition notIterableError : ustring := lit "bookRefs is not iterable".

Definition searchMasterIndex (masterIndex : option MasterIndex)
  (query : ustring) (queryEmbedding : option (list Q))
  (queryKeywords : list ustring) : result (list BookScore) :=
  match masterIndex with
  | None => Throw (lit "Master index not loaded")
  | Some index =>
      if existsb (notIterable (mi_searchIndex index)) queryKeywords
         || existsb (notIterable (mi_thematicMap index)) queryKeywords
      then Throw notIterableError
      else
        let lexical := lexicalMatches index queryKeywords in
        let thematic := thematicMatches index queryKeywords in
        let semantic := semanticMatches index queryEmbedding in
        let allBookIds :=
          dedup (List.map fst lexical ++ List.map fst thematic
                          ++ List.map fst semantic) in
        let bookScores :=
          flat_map (scoreBook index lexical thematic semantic) allBookIds in
        Ok (firstn 3 (Num.sortDesc bk_score bookScores))
  end.

(** *** Level 2: the book indexes *)

Definition sectionFloor : Q := 1 # 10.

(** [queryKeywords.filter(kw => l.includes(kw)).length] *)
Definition overlap (queryKeywords l : list ustring) : Q :=
  inject_Z (Z.of_nat (length (filter (fun kw => mem kw l) queryKeywords))).

Definition sectionScore (book : BookScore) (queryEmbedding : option (list Q))
  (queryKeywords : list ustring) (sec : SectionInfo) : Q :=
  let score0 := (0 + overlap queryKeywords (si_keywords sec) * (2 # 10))%Q in
  let score1 := (score0 + overlap queryKeywords (si_themes sec) * (3 # 10))%Q in
  let score2 :=
    match queryEmbedding, si_embedding sec with
    | Some q, Some e => (score1 + cosineSimilarity q e * (5 # 10))%Q
    | _, _ => score1
    end in
  (score2 * bk_score book)%Q.

Definition sectionCandidates (bookIndex : BookIndex) (book : BookScore)
  (queryEmbedding : option (list Q)) (queryKeywords : list ustring)
  : list SectionCandidate :=
  let sectionScores :=
    fold_left (fun m sec =>
                 let score := sectionScore book queryEmbedding queryKeywords sec in
                 if Num.Qltb sectionFloor score
                 then Obj.set m (si_id sec) score else m)
              (bi_sections bookIndex) [] in
  let topSections := firstn 5 (Num.sortDesc snd sectionScores) in
  flat_map (fun e =>
              match find (fun sec => ueqb (si_id sec) (fst e))
                         (bi_sections bookIndex) with
              | Some sec =>
                  [mkCandidate (bk_bookId book) (fst e) (snd e) (si_chunkIds sec)]
              | None => []
              end)
           topSections.

Definition searchBookIndexes (bookIndexes : Obj.t BookIndex)
  (books : list BookScore) (query : ustring)
  (queryEmbedding : option (list Q)) (queryKeywords : list ustring)
  : list SectionCandidate :=
  let candidates :=
    flat_map (fun book =>
                match Obj.get bookIndexes (bk_bookId book) with
                | Some bookIndex =>
                    sectionCandidates bookIndex book queryEmbedding queryKeywords
                | None => []
                end)
             books in
  firstn 10 (Num.sortDesc sc_score candidates).

(** *** Level 3: the chunks *)

Definition setContent (chunk : Chunk) (hebrewText : ustring)
  (englishText frenchText : option ustring) (tokens : Z) : Chunk :=
  mkChunk (c_id chunk) (c_bookId chunk) (c_sectionId chunk)
          hebrewText englishText frenchText
          (c_reference chunk) (c_startIndex chunk) (c_endIndex chunk)
          tokens (c_themes chunk) (c_citations chunk)
          (c_before chunk) (c_after chunk) (c_embedding chunk).

(** [text.substring(0, n)] for the floor [n] of a double: NaN counts as 0,
    and the end is brought within the text. *)
Definition substringTo (text : ustring) (n : Num.double) : ustring :=
  match n with
  | S754_nan => []
  | S754_infinity negative => if negative then [] else text
  | _ =>
      match Num.dfloor n with
      | Some z => substring text 0 (Z.to_nat (Z.max 0 z))
      | None => []
      end
  end.

(** [truncateChunk].  The length kept is
    [Math.floor(hebrew.length * ratio)] for the double
    [ratio = maxTokens / tokenCount]. *)
Definition truncateChunk (chunk : Chunk) (budget : Z) : Chunk :=
  let ratio := Num.ddiv (Num.dOfZ budget) (Num.dOfZ (c_tokenCount chunk)) in
  let hebrewLength := Num.dmul (Num.dOfNat (length (c_hebrew chunk))) ratio in
  let cut (text : option ustring) : option ustring :=
    match text with
    | Some (c :: t) => Some (substringTo (c :: t) hebrewLength ++ lit "...")
    | _ => None
    end in
  setContent chunk
             (substringTo (c_hebrew chunk) hebrewLength ++ lit "...")
             (cut (c_english chunk)) (cut (c_french chunk))
             budget.

Section Retrieval.

(** The chunk store: the file of a chunk of a book, when it can be read
    and parsed. *)
Variable readChunk : ustring -> ustring -> option Chunk.

(** [loadChunksForSection], with the in-memory [chunksCache] as state: the
    chunks found, and the cache afterwards. *)
Fixpoint loadChunksForSection (chunksCache : Obj.t Chunk) (bookId : ustring)
  (chunkIds : list ustring) : list Chunk * Obj.t Chunk :=
  match chunkIds with
  | [] => ([], chunksCache)
  | chunkId :: rest =>
      match Obj.get chunksCache chunkId with
      | Some chunk =>
          let '(chunks, cache') := loadChunksForSection chunksCache bookId rest in
          (chunk :: chunks, cache')
      | None =>
          match readChunk bookId chunkId with
          | Some chunk =>
              let '(chunks, cache') :=
                loadChunksForSection (Obj.set chunksCache chunkId chunk)
                                     bookId rest in
              (chunk :: chunks, cache')
          | None => loadChunksForSection chunksCache bookId rest
          end
      end
  end.

Definition partialFloor : Z := 10000.

(** The inner loop of [retrieveChunks] over the chunks of one candidate.
    The flag of the result is set when the loop ends in [return].
    [maxTokens] is [None] when it is [undefined]: the comparison
    [totalTokens + chunkTokens > maxTokens] is then false for every
    chunk. *)
Fixpoint addChunks (candidateChunks : list Chunk) (maxTokens : option Z)
  (chunks : list Chunk) (totalTokens : Z) : list Chunk * Z * bool :=
  match candidateChunks with
  | [] => (chunks, totalTokens, false)
  | chunk :: rest =>
      let chunkTokens := c_tokenCount chunk in
      match maxTokens with
      | Some limit =>
          if totalTokens + chunkTokens >? limit then
            if limit - totalTokens >? partialFloor then
              let partialChunk :=
                truncateChunk chunk (limit - totalTokens) in
              (chunks ++ [partialChunk],
               totalTokens + c_tokenCount partialChunk, true)
            else (chunks, totalTokens, true)
          else addChunks rest maxTokens (chunks ++ [chunk])
                         (totalTokens + chunkTokens)
      | None =>
          addChunks rest maxTokens (chunks ++ [chunk])
                    (totalTokens + chunkTokens)
      end
  end.

(** [totalTokens > maxTokens * 0.8]: false when [maxTokens] is
    [undefined]. *)
Definition enoughContext (totalTokens : Z) (maxTokens : option Z) : bool :=
  match maxTokens with
  | Some m => Num.Qltb (inject_Z m * (8 # 10))%Q (inject_Z totalTokens)
  | None => false
  end.

Fixpoint retrieveLoop (candidates : list SectionCandidate)
  (maxTokens : option Z)
  (chunksCache : Obj.t Chunk) (chunks : list Chunk) (totalTokens : Z)
  : list Chunk * Obj.t Chunk :=
  match candidates with
  | [] => (chunks, chunksCache)
  | candidate :: rest =>
      let '(candidateChunks, cache') :=
        loadChunksForSection chunksCache (sc_bookId candidate)
                             (sc_chunkIds candidate) in
      let '(chunks', total', returned) :=
        addChunks candidateChunks maxTokens chunks totalTokens in
      if returned then (chunks', cache')
      else if enoughContext total' maxTokens then (chunks', cache')
      else retrieveLoop rest maxTokens cache' chunks' total'
  end.

Definition retrieveChunks (chunksCache : Obj.t Chunk)
  (candidates : list SectionCandidate) (maxTokens : option Z)
  : list Chunk * Obj.t Chunk :=
  retrieveLoop candidates maxTokens chunksCache [] 0.

End Retrieval.

(** *** Confidence *)

Definition countIn (queryKeywords l : list ustring) : nat :=
  length (filter (fun kw => mem kw l) queryKeywords).

Definition calculateConfidence (chunks : list Chunk) (query : ustring)
  (queryKeywords : list ustring) : Num.num :=
  match chunks with
  | [] => Num.Fin 0
  | _ =>
      let confidence0 := Num.Fin 0 in
      let confidence1 :=
        Num.add confidence0
                (Num.mul (Num.min (Num.div (Num.ofNat (length chunks))
                                           (Num.Fin 10))
                                  (Num.Fin 1))
                         (Num.Fin (3 # 10))) in
      let allChunkKeywords :=
        flat_map (fun c => extractQueryKeywords (c_hebrew c)) chunks in
      let keywordCoverage :=
        Num.div (Num.ofNat (countIn queryKeywords allChunkKeywords))
                (Num.ofNat (length queryKeywords)) in
      let confidence2 :=
        Num.add confidence1 (Num.mul keywordCoverage (Num.Fin (4 # 10))) in
      let allThemes := flat_map c_themes chunks in
      let themeAlignment :=
        Num.div (Num.ofNat (countIn queryKeywords allThemes))
                (Num.ofNat (Nat.max (length queryKeywords) 1)) in
      let confidence3 :=
        Num.add confidence2 (Num.mul themeAlignment (Num.Fin (3 # 10))) in
      Num.min confidence3 (Num.Fin 1)
  end.

Definition createEmptyResult (query : ustring) : RouteResult :=
  mkRouteResult query [] [] [] 0 (Num.Fin 0) false (lit "NoResults").

(** *** The router and [route] *)

(** The fields of the router.  [rs_redis] is [None] without a connection;
    otherwise it holds, under each key now in the store, the result whose
    JSON text was written there.  Entries expire outside the router,
    between calls. *)
Record RouterState := mkRouterState {
  rs_masterIndex : option MasterIndex;
  rs_bookIndexes : Obj.t BookIndex;
  rs_chunksCache : Obj.t Chunk;
  rs_redis : option (Obj.t RouteResult)
}.

Section Route.

Variable readChunk : ustring -> ustring -> option Chunk.

(** The embedding of a text by the provider; [None] without a client or
    when the call fails. *)
Variable generateEmbedding : ustring -> option (list Q).

(** The MD5 digest of a query, in hexadecimal. *)
Variable hashQuery : ustring -> ustring.

Definition cacheKey (query : ustring) : ustring :=
  lit "route:" ++ hashQuery query.

(** [JSON.parse(JSON.stringify(result))]: a confidence that is NaN or
    infinite is written as [null]; a property that is [undefined] is left
    out and read back as [undefined]; strings, booleans, arrays and finite
    numbers come back as they were. *)
Definition throughJson (r : RouteResult) : RouteResult :=
  mkRouteResult (rr_query r) (rr_books r) (rr_sections r) (rr_chunks r)
                (rr_totalTokens r)
                (match rr_confidence r with
                 | Number (Num.Fin q) => Number (Num.Fin q)
                 | _ => Null
                 end)
                (rr_fromCache r) (rr_strategy r).

(** The store keeps the text of [JSON.stringify(result)], which stands
    here as the result that was written; a read parses the text. *)
Definition getCachedResult (st : RouterState) (query : ustring)
  : option RouteResult :=
  match rs_redis st with
  | Some store =>
      match Obj.get store (cacheKey query) with
      | Some written => Some (throughJson written)
      | None => None
      end
  | None => None
  end.

Definition cacheResult (st : RouterState) (query : ustring)
  (result : RouteResult) : RouterState :=
  match rs_redis st with
  | Some store =>
      mkRouterState (rs_masterIndex st) (rs_bookIndexes st) (rs_chunksCache st)
                    (Some (Obj.set store (cacheKey query) result))
  | None => st
  end.

Definition setFromCache (r : RouteResult) : RouteResult :=
  mkRouteResult (rr_query r) (rr_books r) (rr_sections r) (rr_chunks r)
                (rr_totalTokens r) (rr_confidence r) true (rr_strategy r).

(** [opts.useCache], as a condition: [undefined] is falsy. *)
Definition useCacheOf (options : SearchOptions) : bool :=
  match spread true (so_useCache options) with
  | Some b => b
  | None => false
  end.

(** [opts.maxTokens]: a number, or [undefined]. *)
Definition maxTokensOf (options : SearchOptions) : option Z :=
  spread MAX_CONTEXT_TOKENS (so_maxTokens options).

(** The cache check at the head of [route]. *)
Definition cacheCheck (st : RouterState) (query : ustring)
  (options : SearchOptions) : option RouteResult :=
  if useCacheOf options then getCachedResult st query else None.

(** [route] after a cache miss. *)
Definition routeFresh (st : RouterState) (query : ustring)
  (options : SearchOptions) : result RouteResult * RouterState :=
  let queryEmbedding := generateEmbedding query in
  let queryKeywords := extractQueryKeywords query in
  match searchMasterIndex (rs_masterIndex st) query queryEmbedding
                          queryKeywords with
  | Throw e => (Throw e, st)
  | Ok [] => (Ok (createEmptyResult query), st)
  | Ok relevantBooks =>
      match searchBookIndexes (rs_bookIndexes st) relevantBooks query
                              queryEmbedding queryKeywords with
      | [] => (Ok (createEmptyResult query), st)
      | sectionCandidates =>
          let '(chunks, cache') :=
            retrieveChunks readChunk (rs_chunksCache st) sectionCandidates
                           (maxTokensOf options) in
          let confidence := calculateConfidence chunks query queryKeywords in
          let totalTokens :=
            fold_left (fun sum chunk => sum + c_tokenCount chunk) chunks 0 in
          let result :=
            mkRouteResult query relevantBooks sectionCandidates chunks
                          totalTokens confidence false
                          (lit "HierarchicalRouting") in
          let st1 := mkRouterState (rs_masterIndex st) (rs_bookIndexes st)
                                   cache' (rs_redis st) in
          let st2 := if useCacheOf options then cacheResult st1 query result
                     else st1 in
          (Ok result, st2)
      end
  end.

Definition route (st : RouterState) (query : ustring)
  (options : SearchOptions) : result RouteResult * RouterState :=
  match cacheCheck st query options with
  | Some cached => (Ok (setFromCache cached), st)
  | None => routeFresh st query options
  end.

End Route.

End Router.

(* ================================================================= *)
(** ** The response generator ([GeminiGenerator]) *)

(** The parts of [GeminiGenerator] around the call of the language model:
    the context handed to it, the citations read off its answer and the
    text prepared for speech. *)
Module Generator.
Import JS Chunker Router.

(** [Citation] of a generated response. *)
Record Citation := mkCitation {
  gc_text : ustring;
  gc_source : ustring;
  gc_bookId : ustring;
  gc_reference : ustring
}.

(** A string that is defined and not empty. *)
Definition truthy (x : option ustring) : option ustring :=
  match x with
  | Some (c :: t) => Some (c :: t)
  | _ => None
  end.

(** The literals of the source, with the code units that the file has for
    its accented letters. *)
Definition noTextFound : ustring :=
  lit "Aucun texte pertinent trouv" ++ [8730; 169]%N
  ++ lit " dans les enseignements de Rabbi Nachman.".

Definition hebrewLabel : ustring := lit "[H" ++ [8730; 169]%N ++ lit "breu - ".
Definition frenchLabel : ustring := lit "[Fran" ++ [8730; 223]%N ++ lit "ais - ".
Definition englishLabel : ustring := lit "[English - ".

(** [`${label}${reference}]\n${text}\n\n`] *)
Definition block (label reference text : ustring) : ustring :=
  label ++ reference ++ lit "]" ++ [10%N] ++ text ++ [10; 10]%N.

(** The body of the loop of [buildContext]: the part of one chunk. *)
Definition contextPart (language : Language) (includeHebrew : bool)
  (chunk : Chunk) : ustring :=
  let reference := c_reference chunk in
  let content0 : ustring := [] in
  let content1 :=
    match c_hebrew chunk with
    | _ :: _ =>
        if includeHebrew
        then content0 ++ block hebrewLabel reference (c_hebrew chunk)
        else content0
    | [] => content0
    end in
  match language, truthy (c_french chunk), truthy (c_english chunk) with
  | french, Some text, _ => content1 ++ block frenchLabel reference text
  | english, _, Some text => content1 ++ block englishLabel reference text
  | _, _, _ =>
      match c_hebrew chunk with
      | _ :: _ =>
          if negb includeHebrew
          then content1 ++ block (lit "[") reference (c_hebrew chunk)
          else content1
      | [] => content1
      end
  end.

Definition separator : ustring := [10%N] ++ lit "---" ++ [10%N].

Definition buildContext (chunks : list Chunk) (language : Language)
  (includeHebrew : bool) : ustring :=
  match chunks with
  | [] => noTextFound
  | _ => join separator (List.map (contextPart language includeHebrew) chunks)
  end.

Definition bookNames : Obj.t ustring :=
  [ (lit "likutey_moharan_1", lit "Likoutey Moharan I");
    (lit "likutey_moharan_2", lit "Likoutey Moharan II");
    (lit "chayei_moharan", lit "Chayei Moharan");
    (lit "likutey_tefilot", lit "Likoutey Tefilot");
    (lit "sippurei_maasiyot", lit "Sippourei Maasiyot");
    (lit "shivchey_haran", lit "Shivchey HaRan");
    (lit "sichot_haran", lit "Sichot HaRan");
    (lit "sefer_hamidot", lit "Sefer HaMidot");
    (lit "likutey_etzot", lit "Likoutey Etzot") ].

(** [bookNames[bookId] || 'Rabbi Nachman'] *)
Definition identifySource (bookId : ustring) : ustring :=
  match Obj.get bookNames bookId with
  | Some name => name
  | None => lit "Rabbi Nachman"
  end.

(** The first groups of the matches of [/\[([^\]]+)\]/g], from left to
    right.  [open] is the text since the bracket that may open a match: the
    group may hold opening brackets, so that a match starts at the first
    bracket that a closing one follows at a distance. *)
Fixpoint bracketed (s : ustring) (open : option ustring) : list ustring :=
  match s with
  | [] => []
  | c :: rest =>
      match open with
      | None =>
          if (c =? 91)%N then bracketed rest (Some [])
          else bracketed rest None
      | Some run =>
          if (c =? 93)%N then
            match run with
            | [] => bracketed rest None
            | _ => rev run :: bracketed rest None
            end
          else bracketed rest (Some (c :: run))
      end
  end.

(** The citation of one bracketed text. *)
Definition citationOf (chunks : list Chunk) (citationText : ustring)
  : Citation :=
  match find (fun chunk => includes (c_reference chunk) citationText
                           || includes citationText (c_reference chunk))
             chunks with
  | Some matchingChunk =>
      mkCitation citationText (identifySource (c_bookId matchingChunk))
                 (c_bookId matchingChunk) (c_reference matchingChunk)
  | None => mkCitation citationText (lit "Rabbi Nachman") [] citationText
  end.

Definition extractCitations (text : ustring) (chunks : list Chunk)
  : list Citation :=
  List.map (citationOf chunks) (bracketed text None).

(** [text.replace(/\[[^\]]+\]/g, '')]: the text outside the matches. *)
Fixpoint stripBracketed (s : ustring) (open : option ustring) : ustring :=
  match s with
  | [] =>
      match open with
      | None => []
      | Some run => 91%N :: rev run
      end
  | c :: rest =>
      match open with
      | None =>
          if (c =? 91)%N then stripBracketed rest (Some [])
          else c :: stripBracketed rest None
      | Some run =>
          if (c =? 93)%N then
            match run with
            | [] => 91%N :: 93%N :: stripBracketed rest None
            | _ => stripBracketed rest None
            end
          else stripBracketed rest (Some (c :: run))
      end
  end.

(** [text.replace(/\s+/g, ' ')] *)
Fixpoint collapseBlanks (s : ustring) (inBlank : bool) : ustring :=
  match s with
  | [] => []
  | c :: rest =>
      if isSpace c then
        if inBlank then collapseBlanks rest true
        else 32%N :: collapseBlanks rest true
      else c :: collapseBlanks rest false
  end.

(** [text.replace(/\.\.\./g, '.')] *)
Fixpoint collapseEllipses (s : ustring) : ustring :=
  match s with
  | [] => []
  | c1 :: rest1 =>
      match rest1 with
      | c2 :: c3 :: rest3 =>
          if ((c1 =? 46) && (c2 =? 46) && (c3 =? 46))%N
          then 46%N :: collapseEllipses rest3
          else c1 :: collapseEllipses rest1
      | _ => c1 :: collapseEllipses rest1
      end
  end.

(** [text.replace(/\n\n+/g, '\n')] *)
Fixpoint collapseNewlines (s : ustring) (inRun : bool) : ustring :=
  match s with
  | [] => []
  | c :: rest =>
      if (c =? 10)%N then
        if inRun then collapseNewlines rest true
        else 10%N :: collapseNewlines rest true
      else c :: collapseNewlines rest false
  end.

(** [text.replace(/c/g, 'c ')] for a punctuation mark [c]. *)
Definition pauseAfter (mark : N) (s : ustring) : ustring :=
  flat_map (fun c => if (c =? mark)%N then [c; 32%N] else [c]) s.

(** [text.trim()] *)
Definition trim (s : ustring) : ustring :=
  rev (dropWhile isSpace (rev (dropWhile isSpace s))).

Definition optimizeForAudio (text : ustring) (language : Language) : ustring :=
  let optimized1 := stripBracketed text None in
  let optimized2 :=
    match language with
    | hebrew => optimized1
    | _ => filter (fun c => negb (isHebrew c)) optimized1
    end in
  let optimized3 := collapseBlanks optimized2 false in
  let optimized4 := collapseEllipses optimized3 in
  let optimized5 := collapseNewlines optimized4 false in
  let optimized6 := pauseAfter 46 optimized5 in
  let optimized7 := pauseAfter 44 optimized6 in
  let optimized8 := pauseAfter 58 optimized7 in
  trim optimized8.

End Generator.

(* ================================================================= *)
(** ** Properties of the chunker *)

Module ChunkerProps.
Import JS Chunker.

(** *** Lists and folds *)

Lemma fold_left_add_shift {A} (f : A -> Z) (l : list A) (a : Z) :
  fold_left (fun sum x => sum + f x) l a
  = a + fold_left (fun sum x => sum + f x) l 0.
Proof.
  revert a. induction l as [|x l IH]; intros a; cbn [fold_left].
  - lia.
  - rewrite (IH (a + f x)), (IH (0 + f x)). lia.
Qed.

Lemma groupTokens_app g h : groupTokens (g ++ h) = groupTokens g + groupTokens h.
Proof.
  unfold groupTokens. rewrite fold_left_app.
  now rewrite fold_left_add_shift.
Qed.

Lemma groupTokens_one u : groupTokens [u] = u_tokenCount u.
Proof. reflexivity. Qed.

Lemma sumSectionTokens_app a b :
  sumSectionTokens (a ++ b) = sumSectionTokens a + sumSectionTokens b.
Proof.
  unfold sumSectionTokens. rewrite fold_left_app.
  now rewrite fold_left_add_shift.
Qed.

Lemma sumSectionTokens_one s :
  sumSectionTokens [s] = estimateTokens (s_hebrewText s).
Proof. reflexivity. Qed.

Lemma estimateTokens_nonneg text : 0 <= estimateTokens text.
Proof.
  unfold estimateTokens. apply Z.div_pos; lia.
Qed.

Lemma sumSectionTokens_nonneg secs : 0 <= sumSectionTokens secs.
Proof.
  induction secs as [|s secs IH] using rev_ind.
  - reflexivity.
  - rewrite sumSectionTokens_app, sumSectionTokens_one.
    pose proof (estimateTokens_nonneg (s_hebrewText s)). lia.
Qed.

Lemma length_pos_iff {A} (l : list A) :
  (0 <? length l)%nat = true <-> l <> [].
Proof.
  destruct l; simpl; split; intros H; try congruence; try discriminate.
  reflexivity.
Qed.

Lemma length_zero_iff {A} (l : list A) :
  (0 <? length l)%nat = false <-> l = [].
Proof.
  destruct l; simpl; split; intros H; try congruence; try discriminate.
  reflexivity.
Qed.

(** With [max * 0.8] floored, a non-negative count below the target is
    below the maximum. *)
Lemma target_le_max options t :
  0 <= t -> t <= targetSize options -> t <= maxTokens options.
Proof.
  unfold targetSize. intros H0 H.
  pose proof (Z.div_mod (maxTokens options * 8) 10 ltac:(lia)) as E.
  pose proof (Z.mod_pos_bound (maxTokens options * 8) 10 ltac:(lia)) as B.
  lia.
Qed.

(** A count above the maximum is above the target. *)
Lemma above_max_above_target options t :
  0 <= t -> maxTokens options < t -> targetSize options < t.
Proof.
  intros H0 H.
  destruct (Z_lt_le_dec (targetSize options) t) as [L|L]; [exact L|].
  pose proof (target_le_max options H0 L). lia.
Qed.

(** *** Splitting a large unit *)

(** What [splitLargeUnit] emits: a non-empty run of sections with its token
    sum, which either fits the target or is one section alone. *)
Definition Part (options : ChunkingOptions) (secs : list BookSection)
  (tokens : Z) : Prop :=
  secs <> [] /\ tokens = sumSectionTokens secs /\
  (tokens <= targetSize options \/ exists s, secs = [s]).

Definition SplitInv (options : ChunkingOptions) (st : SplitState) : Prop :=
  Forall (fun p => Part options (u_sections p) (u_tokenCount p)) (sp_chunks st)
  /\ ((sp_currentSections st = [] /\ sp_currentTokens st = 0)
      \/ Part options (sp_currentSections st) (sp_currentTokens st)).

Definition splitSections (st : SplitState) : list BookSection :=
  flat_map u_sections (sp_chunks st) ++ sp_currentSections st.

Lemma flat_map_snoc {A B} (f : A -> list B) l x :
  flat_map f (l ++ [x]) = flat_map f l ++ f x.
Proof. rewrite flat_map_app. simpl. now rewrite app_nil_r. Qed.

Lemma splitStep_sections unit options st s :
  splitSections (splitStep unit options st s) = splitSections st ++ [s].
Proof.
  unfold splitStep, splitSections.
  destruct (_ && _); simpl.
  - rewrite flat_map_snoc. simpl. now rewrite <- app_assoc.
  - now rewrite app_assoc.
Qed.

Lemma splitStep_inv unit options st s :
  SplitInv options st -> SplitInv options (splitStep unit options st s).
Proof.
  intros [Hc Hcur]. unfold splitStep.
  destruct (_ && _) eqn:E; unfold SplitInv;
    cbn [sp_chunks sp_currentSections sp_currentTokens].
  - apply andb_true_iff in E as [_ Hne]. apply length_pos_iff in Hne.
    split.
    + apply Forall_app. split; [exact Hc|].
      constructor; [|constructor]. cbn [u_sections u_tokenCount partOf].
      destruct Hcur as [[Hnil _]|HP]; [contradiction|exact HP].
    + right. split; [discriminate|].
      split; [now rewrite sumSectionTokens_one|right; eauto].
  - split; [exact Hc|]. right.
    destruct Hcur as [[Hnil Hz]|(Hne & Hsum & Hfit)].
    + rewrite Hnil, Hz. rewrite app_nil_l.
      split; [discriminate|].
      split; [rewrite sumSectionTokens_one; lia|right; eauto].
    + split; [|split].
      * intros H. now apply app_eq_nil in H as [_ H].
      * rewrite sumSectionTokens_app, sumSectionTokens_one. lia.
      * left. apply andb_false_iff in E as [E|E].
        -- rewrite Z.gtb_ltb in E. apply Z.ltb_ge in E. exact E.
        -- apply length_zero_iff in E. contradiction.
Qed.

Lemma splitLoop_sections unit options secs st :
  splitSections (fold_left (splitStep unit options) secs st)
  = splitSections st ++ secs.
Proof.
  revert st. induction secs as [|s secs IH]; intros st; simpl.
  - now rewrite app_nil_r.
  - rewrite IH, splitStep_sections. now rewrite <- app_assoc.
Qed.

Lemma splitLoop_inv unit options secs st :
  SplitInv options st ->
  SplitInv options (fold_left (splitStep unit options) secs st).
Proof.
  revert st. induction secs as [|s secs IH]; intros st H; simpl.
  - exact H.
  - apply IH. now apply splitStep_inv.
Qed.

Lemma splitLargeUnit_sections unit options :
  flat_map u_sections (splitLargeUnit unit options) = u_sections unit.
Proof.
  unfold splitLargeUnit.
  pose proof (splitLoop_sections unit options (u_sections unit) (mkSplit [] [] 0)) as H.
  unfold splitSections in H. simpl in H.
  destruct (0 <? length _)%nat eqn:E.
  - rewrite flat_map_snoc. simpl. exact H.
  - apply length_zero_iff in E. rewrite E in H.
    now rewrite app_nil_r in H.
Qed.

Lemma splitLargeUnit_parts unit options :
  Forall (fun p => Part options (u_sections p) (u_tokenCount p))
         (splitLargeUnit unit options).
Proof.
  unfold splitLargeUnit.
  assert (SplitInv options (mkSplit [] [] 0)) as H0.
  { split; [constructor|]. left. now split. }
  pose proof (splitLoop_inv unit (u_sections unit) H0) as [Hc Hcur].
  destruct (0 <? length _)%nat eqn:E.
  - apply Forall_app. split; [exact Hc|].
    constructor; [|constructor]. simpl.
    apply length_pos_iff in E.
    destruct Hcur as [[Hnil _]|HP]; [contradiction|exact HP].
  - exact Hc.
Qed.

(** *** Grouping *)

(** A group that is one unit made of one section. *)
Definition singleSection (g : list SemanticUnit) : Prop :=
  exists u s, g = [u] /\ u_sections u = [s]
              /\ u_tokenCount u = estimateTokens (s_hebrewText s).

Definition withinBudget (options : ChunkingOptions) (g : list SemanticUnit)
  : Prop :=
  groupTokens g <= maxTokens options \/ singleSection g.

(** What [createChunk] needs of a group. *)
Definition GroupWf (g : list SemanticUnit) : Prop :=
  g <> [] /\ Forall (fun u => u_sections u <> []) g.

Definition GroupInv (options : ChunkingOptions) (st : GroupState) : Prop :=
  Forall (withinBudget options) (g_groups st)
  /\ Forall GroupWf (g_groups st)
  /\ Forall (fun u => u_sections u <> []) (g_currentGroup st)
  /\ g_currentTokens st = groupTokens (g_currentGroup st)
  /\ (g_currentGroup st = [] \/ g_currentTokens st <= maxTokens options).

Definition groupSections (st : GroupState) : list BookSection :=
  flat_map (flat_map u_sections) (g_groups st)
  ++ flat_map u_sections (g_currentGroup st).

Lemma flushCurrent_current st : g_currentGroup (flushCurrent st) = [] .
Proof.
  unfold flushCurrent. destruct (0 <? length _)%nat eqn:E; [reflexivity|].
  now apply length_zero_iff in E.
Qed.

Lemma flushCurrent_sections st :
  flat_map (flat_map u_sections) (g_groups (flushCurrent st))
  = groupSections st.
Proof.
  unfold flushCurrent, groupSections.
  destruct (0 <? length _)%nat eqn:E; cbn [g_groups].
  - now rewrite flat_map_snoc.
  - apply length_zero_iff in E. rewrite E. simpl. now rewrite app_nil_r.
Qed.

Lemma flat_map_singletons (parts : list SemanticUnit) :
  flat_map (flat_map u_sections) (List.map (fun u => [u]) parts)
  = flat_map u_sections parts.
Proof.
  induction parts as [|p parts IH]; simpl; [reflexivity|].
  now rewrite IH, app_nil_r.
Qed.

Lemma groupStep_sections options st unit :
  groupSections (groupStep options st unit) = groupSections st ++ u_sections unit.
Proof.
  unfold groupStep.
  destruct (u_tokenCount unit >? maxTokens options).
  - unfold groupSections at 1. cbn [g_groups g_currentGroup].
    rewrite flushCurrent_current, flat_map_app, flushCurrent_sections.
    rewrite flat_map_singletons, splitLargeUnit_sections. simpl.
    now rewrite app_nil_r.
  - destruct (_ >? _).
    + unfold groupSections. cbn [g_groups g_currentGroup].
      destruct (0 <? length _)%nat eqn:E.
      * rewrite flat_map_snoc. simpl. now rewrite app_nil_r.
      * apply length_zero_iff in E. rewrite E. simpl.
        now rewrite !app_nil_r.
    + unfold groupSections. cbn [g_groups g_currentGroup].
      now rewrite flat_map_snoc, app_assoc.
Qed.

Lemma groupLoop_sections options units st :
  groupSections (fold_left (groupStep options) units st)
  = groupSections st ++ flat_map u_sections units.
Proof.
  revert st. induction units as [|u units IH]; intros st; simpl.
  - now rewrite app_nil_r.
  - rewrite IH, groupStep_sections. now rewrite <- app_assoc.
Qed.

Lemma flushCurrent_inv options st :
  GroupInv options st -> GroupInv options (flushCurrent st).
Proof.
  intros (Hb & Hw & Hcw & Htok & Hcur). unfold flushCurrent.
  destruct (0 <? length _)%nat eqn:E.
  - apply length_pos_iff in E.
    unfold GroupInv. cbn [g_groups g_currentGroup g_currentTokens].
    split; [|split; [|split; [|split]]].
    + apply Forall_app. split; [exact Hb|].
      constructor; [|constructor]. left.
      destruct Hcur as [Hnil|Hle]; [contradiction|]. lia.
    + apply Forall_app. split; [exact Hw|].
      constructor; [|constructor]. now split.
    + constructor.
    + reflexivity.
    + now left.
  - repeat split; assumption.
Qed.

Lemma part_withinBudget options p :
  Part options (u_sections p) (u_tokenCount p) -> withinBudget options [p].
Proof.
  intros (Hne & Hsum & [Hfit|[s Hs]]).
  - left. rewrite groupTokens_one.
    apply target_le_max; [|exact Hfit].
    rewrite Hsum. apply sumSectionTokens_nonneg.
  - right. exists p, s. repeat split; [exact Hs|].
    now rewrite Hsum, Hs, sumSectionTokens_one.
Qed.

Lemma groupStep_inv options st unit :
  u_sections unit <> [] ->
  GroupInv options st -> GroupInv options (groupStep options st unit).
Proof.
  intros Hu H. unfold groupStep.
  destruct (u_tokenCount unit >? maxTokens options) eqn:E1.
  - apply flushCurrent_inv in H.
    pose proof (flushCurrent_current st) as Hc.
    destruct H as (Hb & Hw & Hcw & Htok & Hcur).
    pose proof (splitLargeUnit_parts unit options) as HP.
    unfold GroupInv. cbn [g_groups g_currentGroup g_currentTokens].
    split; [|split; [|split; [|split]]]; try assumption.
    + apply Forall_app. split; [exact Hb|].
      apply Forall_map. eapply Forall_impl; [|exact HP].
      intros p Hp. now apply part_withinBudget.
    + apply Forall_app. split; [exact Hw|].
      apply Forall_map. eapply Forall_impl; [|exact HP].
      intros p (Hne & _). split; [discriminate|].
      constructor; [exact Hne|constructor].
  - rewrite Z.gtb_ltb in E1. apply Z.ltb_ge in E1.
    destruct H as (Hb & Hw & Hcw & Htok & Hcur).
    destruct (_ >? _) eqn:E2.
    + unfold GroupInv. cbn [g_groups g_currentGroup g_currentTokens].
      split; [|split; [|split; [|split]]].
      * destruct (0 <? length _)%nat eqn:E; [|exact Hb].
        apply length_pos_iff in E.
        apply Forall_app. split; [exact Hb|].
        constructor; [|constructor]. left.
        destruct Hcur as [Hnil|Hle]; [contradiction|]. lia.
      * destruct (0 <? length _)%nat eqn:E; [|exact Hw].
        apply length_pos_iff in E.
        apply Forall_app. split; [exact Hw|].
        constructor; [|constructor]. now split.
      * constructor; [exact Hu|constructor].
      * now rewrite groupTokens_one.
      * now right.
    + rewrite Z.gtb_ltb in E2. apply Z.ltb_ge in E2.
      unfold GroupInv. cbn [g_groups g_currentGroup g_currentTokens].
      split; [|split; [|split; [|split]]]; try assumption.
      * apply Forall_app. split; [exact Hcw|].
        constructor; [exact Hu|constructor].
      * rewrite groupTokens_app, groupTokens_one. lia.
      * now right.
Qed.

Lemma groupLoop_inv options units st :
  Forall (fun u => u_sections u <> []) units ->
  GroupInv options st ->
  GroupInv options (fold_left (groupStep options) units st).
Proof.
  revert st. induction units as [|u units IH]; intros st Hu H; simpl.
  - exact H.
  - inversion Hu; subst. apply IH; [assumption|].
    now apply groupStep_inv.
Qed.

Lemma GroupInv_init options : GroupInv options (mkGroup [] [] 0).
Proof.
  unfold GroupInv. cbn [g_groups g_currentGroup g_currentTokens].
  split; [constructor|]. split; [constructor|]. split; [constructor|].
  split; [reflexivity|now left].
Qed.

Lemma removelast_last {A} (l : list A) d :
  l <> [] -> l = removelast l ++ [last l d].
Proof. apply app_removelast_last. Qed.

Lemma Forall_removelast {A} (P : A -> Prop) l :
  Forall P l -> Forall P (removelast l).
Proof.
  induction 1 as [|x l Hx Hl IH]; [constructor|].
  simpl. destruct l; [constructor|]. constructor; assumption.
Qed.

Lemma Forall_last {A} (P : A -> Prop) l d :
  l <> [] -> Forall P l -> P (last l d).
Proof.
  intros Hne H. rewrite (removelast_last d Hne) in H.
  apply Forall_app in H as [_ H]. now inversion H.
Qed.

(** The groups: every group is within budget or is one section alone, and
    every group is fit for [createChunk]. *)
Lemma groupUnitsIntoChunks_groups options units :
  Forall (fun u => u_sections u <> []) units ->
  Forall (withinBudget options) (groupUnitsIntoChunks units options)
  /\ Forall GroupWf (groupUnitsIntoChunks units options).
Proof.
  intros Hu. unfold groupUnitsIntoChunks.
  pose proof (groupLoop_inv Hu (GroupInv_init options))
    as (Hb & Hw & Hcw & Htok & Hcur).
  set (st := fold_left (groupStep options) units (mkGroup [] [] 0)) in *.
  assert (g_currentGroup st <> [] ->
          Forall (withinBudget options) (g_groups st ++ [g_currentGroup st])
          /\ Forall GroupWf (g_groups st ++ [g_currentGroup st])) as Hpush.
  { intros Hne. split; apply Forall_app; split; try assumption;
      (constructor; [|constructor]).
    - left. destruct Hcur as [Hnil|Hle]; [contradiction|]. lia.
    - now split. }
  destruct (0 <? length (g_currentGroup st))%nat eqn:E; [|now split].
  apply length_pos_iff in E.
  destruct (_ && _) eqn:E2; [|now apply Hpush].
  apply andb_true_iff in E2 as [_ Hg]. apply length_pos_iff in Hg.
  destruct (_ <=? _) eqn:E3; [|now apply Hpush].
  apply Z.leb_le in E3.
  split; apply Forall_app; split;
    try (now apply Forall_removelast); (constructor; [|constructor]).
  - left. rewrite groupTokens_app. lia.
  - pose proof (Forall_last [] Hg Hw) as [Hl1 Hl2]. split.
    + intros H. apply app_eq_nil in H as [H _]. contradiction.
    + apply Forall_app. now split.
Qed.

Lemma groupUnitsIntoChunks_sections options units :
  flat_map (flat_map u_sections) (groupUnitsIntoChunks units options)
  = flat_map u_sections units.
Proof.
  unfold groupUnitsIntoChunks.
  pose proof (groupLoop_sections options units (mkGroup [] [] 0)) as H.
  set (st := fold_left (groupStep options) units (mkGroup [] [] 0)) in *.
  unfold groupSections in H. cbn in H.
  assert (flat_map (flat_map u_sections) (g_groups st ++ [g_currentGroup st])
          = flat_map u_sections units) as Hpush.
  { now rewrite flat_map_snoc. }
  destruct (0 <? length (g_currentGroup st))%nat eqn:E.
  - destruct (_ && _) eqn:E2; [|exact Hpush].
    apply andb_true_iff in E2 as [_ Hg]. apply length_pos_iff in Hg.
    destruct (_ <=? _); [|exact Hpush].
    rewrite flat_map_snoc, flat_map_app, app_assoc.
    rewrite <- (flat_map_snoc (flat_map u_sections)).
    rewrite <- (removelast_last [] Hg). exact H.
  - apply length_zero_iff in E. rewrite E in H. simpl in H.
    now rewrite app_nil_r in H.
Qed.

(** *** Unit identification *)

(** The sections from the first one that satisfies [p] on. *)
Fixpoint dropUntil {A} (p : A -> bool) (l : list A) : list A :=
  match l with
  | [] => []
  | x :: rest => if p x then x :: rest else dropUntil p rest
  end.

Definition loopSections (st : list SemanticUnit * option SemanticUnit)
  : list BookSection :=
  flat_map u_sections (fst st)
  ++ match snd st with
     | Some c => u_sections c
     | None => []
     end.

Definition LoopInv (st : list SemanticUnit * option SemanticUnit) : Prop :=
  Forall (fun u => u_sections u <> []) (fst st)
  /\ match snd st with
     | Some c => u_sections c <> []
     | None => fst st = []
     end.

Lemma unitsStep_started h units c s :
  LoopInv (units, Some c) ->
  exists units' c',
    unitsStep h (units, Some c) s = (units', Some c')
    /\ LoopInv (units', Some c')
    /\ loopSections (units', Some c') = loopSections (units, Some c) ++ [s].
Proof.
  intros [Hu Hc]. cbn [fst snd] in Hu, Hc. unfold unitsStep.
  destruct (h_isStart h s).
  - eexists _, _. split; [reflexivity|]. split.
    + split; cbn [fst snd u_sections]; [|discriminate].
      apply Forall_app. split; [exact Hu|]. constructor; [exact Hc|constructor].
    + unfold loopSections. cbn [fst snd u_sections].
      now rewrite flat_map_snoc.
  - eexists _, _. split; [reflexivity|]. split.
    + split; cbn [fst snd u_sections]; [exact Hu|].
      intros H. now apply app_eq_nil in H as [_ H].
    + unfold loopSections. cbn [fst snd u_sections].
      now rewrite app_assoc.
Qed.

Lemma unitsFold_started h secs units c :
  LoopInv (units, Some c) ->
  exists units' c',
    fold_left (unitsStep h) secs (units, Some c) = (units', Some c')
    /\ LoopInv (units', Some c')
    /\ loopSections (units', Some c') = loopSections (units, Some c) ++ secs.
Proof.
  revert units c. induction secs as [|s secs IH]; intros units c H.
  - exists units, c. split; [reflexivity|]. split; [exact H|].
    now rewrite app_nil_r.
  - destruct (unitsStep_started h s H) as (u1 & c1 & E1 & I1 & S1).
    destruct (IH u1 c1 I1) as (u2 & c2 & E2 & I2 & S2).
    exists u2, c2. cbn [fold_left]. rewrite E1. split; [exact E2|].
    split; [exact I2|]. rewrite S2, S1. now rewrite <- app_assoc.
Qed.

Lemma unitsStep_none_skip h s :
  h_isStart h s = false -> unitsStep h ([], None) s = ([], None).
Proof. intros E. unfold unitsStep. now rewrite E. Qed.

Lemma unitsStep_none_start h s :
  h_isStart h s = true ->
  exists c, unitsStep h ([], None) s = ([], Some c) /\ u_sections c = [s].
Proof.
  intros E. unfold unitsStep. rewrite E. eexists. split; reflexivity.
Qed.

Lemma unitsFold_sections h secs :
  LoopInv (fold_left (unitsStep h) secs ([], None))
  /\ loopSections (fold_left (unitsStep h) secs ([], None))
     = dropUntil (h_isStart h) secs.
Proof.
  induction secs as [|s secs IH].
  - split; [split; [constructor|reflexivity]|reflexivity].
  - cbn [fold_left dropUntil].
    destruct (h_isStart h s) eqn:E.
    + destruct (unitsStep_none_start h s E) as (c & Ec & Hc). rewrite Ec.
      destruct (@unitsFold_started h secs [] c) as (u2 & c2 & E2 & I2 & S2).
      { split; cbn [fst snd]; [constructor|]. rewrite Hc. discriminate. }
      rewrite E2. split; [exact I2|]. rewrite S2.
      unfold loopSections. cbn [fst snd flat_map]. now rewrite Hc.
    + rewrite (unitsStep_none_skip h s E). exact IH.
Qed.

Lemma unitsLoop_sections h secs :
  flat_map u_sections (unitsLoop h secs) = dropUntil (h_isStart h) secs
  /\ Forall (fun u => u_sections u <> []) (unitsLoop h secs).
Proof.
  unfold unitsLoop.
  destruct (unitsFold_sections h secs) as [[Hu Hc] Hs].
  destruct (fold_left (unitsStep h) secs ([], None)) as [units [c|]];
    unfold loopSections in Hs; cbn [fst snd] in *.
  - split; [now rewrite flat_map_snoc|].
    apply Forall_app. split; [exact Hu|]. constructor; [exact Hc|constructor].
  - split; [now rewrite app_nil_r in Hs|exact Hu].
Qed.

Lemma defaultLoop_sections fuel sections i units :
  (length sections - i <= fuel)%nat ->
  flat_map u_sections (defaultLoop fuel sections i units)
  = flat_map u_sections units ++ skipn i sections.
Proof.
  revert i units. induction fuel as [|fuel IH]; intros i units Hf; cbn [defaultLoop].
  - rewrite skipn_all2 by lia. now rewrite app_nil_r.
  - destruct (i <? length sections)%nat eqn:E.
    + apply Nat.ltb_lt in E. rewrite IH by (unfold sectionsPerUnit; lia).
      rewrite flat_map_snoc. cbn [u_sections]. unfold slice.
      replace (i + sectionsPerUnit - i)%nat with sectionsPerUnit by lia.
      rewrite <- app_assoc. f_equal.
      rewrite (Nat.add_comm i), <- skipn_skipn.
      apply firstn_skipn.
    + apply Nat.ltb_ge in E. rewrite skipn_all2 by lia. now rewrite app_nil_r.
Qed.

Lemma defaultLoop_nonempty fuel sections i units :
  Forall (fun u => u_sections u <> []) units ->
  Forall (fun u => u_sections u <> []) (defaultLoop fuel sections i units).
Proof.
  revert i units. induction fuel as [|fuel IH]; intros i units H; cbn [defaultLoop].
  - exact H.
  - destruct (i <? length sections)%nat eqn:E; [|exact H].
    apply Nat.ltb_lt in E. apply IH.
    apply Forall_app. split; [exact H|]. constructor; [|constructor].
    cbn [u_sections]. unfold slice, sectionsPerUnit.
    replace (i + 10 - i)%nat with 10%nat by lia.
    intros Hnil. apply (f_equal (@length _)) in Hnil.
    rewrite length_firstn, length_skipn in Hnil. cbn [length] in Hnil. lia.
Qed.

Lemma identifyDefaultUnits_sections book :
  flat_map u_sections (identifyDefaultUnits book) = b_sections book
  /\ Forall (fun u => u_sections u <> []) (identifyDefaultUnits book).
Proof.
  unfold identifyDefaultUnits. split.
  - rewrite defaultLoop_sections by lia. reflexivity.
  - apply defaultLoop_nonempty. constructor.
Qed.

(** The heuristic that the book id selects, if any. *)
Definition heuristicOf (book : Book) : option Heuristic :=
  if includes (b_id book) (lit "likutey_moharan") then Some torahHeuristic
  else if includes (b_id book) (lit "sippurei_maasiyot") then Some storyHeuristic
  else if includes (b_id book) (lit "tefilot") then Some prayerHeuristic
  else None.

(** The sections that reach a semantic unit. *)
Definition coveredSections (book : Book) : list BookSection :=
  match heuristicOf book with
  | Some h => dropUntil (h_isStart h) (b_sections book)
  | None => b_sections book
  end.

Lemma identifySemanticUnits_sections book :
  flat_map u_sections (identifySemanticUnits book) = coveredSections book
  /\ Forall (fun u => u_sections u <> []) (identifySemanticUnits book).
Proof.
  unfold identifySemanticUnits, coveredSections, heuristicOf.
  destruct (includes (b_id book) (lit "likutey_moharan"));
    [apply (unitsLoop_sections torahHeuristic)|].
  destruct (includes (b_id book) (lit "sippurei_maasiyot"));
    [apply (unitsLoop_sections storyHeuristic)|].
  destruct (includes (b_id book) (lit "tefilot"));
    [apply (unitsLoop_sections prayerHeuristic)|].
  apply identifyDefaultUnits_sections.
Qed.

(** *** From groups to chunks *)

Lemma hd_error_rev {A} (l : list A) :
  l <> [] -> exists x, hd_error (rev l) = Some x /\ In x l.
Proof.
  induction l as [|x l IH] using rev_ind; [congruence|]. intros _.
  exists x. rewrite rev_app_distr. split; [reflexivity|].
  apply in_or_app. right. now left.
Qed.

(** A chunk built from a group: its Hebrew content is the texts of the
    sections of the group, and its token count the sum over the units. *)
Definition chunkOf (bookId : ustring) (c : Chunk) (g : list SemanticUnit)
  : Prop :=
  c_bookId c = bookId
  /\ c_hebrew c
     = join paragraphBreak (List.map s_hebrewText (flat_map u_sections g))
  /\ c_tokenCount c = groupTokens g.

(** A scan for citations that returns on every text.  The scan of the
    code does not ([extractCitations_raises] below): what follows under
    this hypothesis describes the groups as they would reach the chunks. *)
Definition Scans (extractCitations : ustring -> option (list Citation)) : Prop :=
  forall text, exists citations, extractCitations text = Some citations.

Lemma createChunk_ok md5hex8 extractCitations bookId g i prev next options :
  Scans extractCitations ->
  GroupWf g ->
  exists c,
    createChunk md5hex8 extractCitations bookId g i prev next options = Some c
    /\ chunkOf bookId c g.
Proof.
  intros Hscan [Hne Hsec].
  destruct g as [|u0 rest]; [congruence|].
  assert (u_sections u0 <> []) as H0 by now inversion Hsec.
  destruct (hd_error_rev Hne) as (ul & El & Hin).
  assert (u_sections ul <> []) as Hl.
  { rewrite Forall_forall in Hsec. now apply Hsec. }
  destruct (hd_error_rev Hl) as (sl & Esl & _).
  assert (flat_map u_sections (u0 :: rest) <> []) as Hall.
  { cbn [flat_map]. intros H. now apply app_eq_nil in H as [H _]. }
  destruct (hd_error_rev Hall) as (sa & Esa & _).
  unfold createChunk, generateReference.
  destruct (Hscan (join paragraphBreak
                     (List.map s_hebrewText (flat_map u_sections (u0 :: rest)))))
    as (citations & Ecit).
  rewrite Ecit, El, Esa. cbn [hd_error obind].
  destruct (hd_error (u_sections u0)) as [s0|] eqn:E0;
    [|destruct (u_sections u0); [congruence|discriminate]].
  rewrite Esl. cbn [obind].
  destruct (hd_error (flat_map u_sections (u0 :: rest))) as [sf|] eqn:Ef;
    [|destruct (flat_map u_sections (u0 :: rest)); [congruence|discriminate]].
  destruct (ueqb _ _); cbn [obind]; eexists;
    (split; [reflexivity|]); repeat split.
Qed.

(** [mapM] over the indexes of a list. *)
Lemma mapM_seq {A B} (R : B -> A -> Prop) (l : list A) :
  forall (start : nat) (f : nat -> option B),
  (forall i a, nth_error l i = Some a ->
               exists b, f (start + i)%nat = Some b /\ R b a) ->
  exists bs, mapM f (seq start (length l)) = Some bs /\ Forall2 R bs l.
Proof.
  induction l as [|a l IH]; intros start f H.
  - exists []. split; [reflexivity|constructor].
  - destruct (H 0%nat a eq_refl) as (b & Eb & Rb).
    rewrite Nat.add_0_r in Eb.
    destruct (IH (S start) f) as (bs & Ebs & Rbs).
    { intros i x Hx. destruct (H (S i) x Hx) as (y & Ey & Ry).
      exists y. split; [|exact Ry]. now rewrite Nat.add_succ_comm. }
    exists (b :: bs). cbn [length seq mapM]. rewrite Eb. cbn [obind].
    rewrite Ebs. split; [reflexivity|]. now constructor.
Qed.

Lemma chunksOfGroups_ok md5hex8 extractCitations bookId groups options :
  Scans extractCitations ->
  Forall GroupWf groups ->
  exists chunks,
    chunksOfGroups md5hex8 extractCitations bookId groups options = Some chunks
    /\ Forall2 (chunkOf bookId) chunks groups.
Proof.
  intros Hscan Hw. unfold chunksOfGroups. apply mapM_seq.
  intros i g Hg. cbn [Nat.add]. rewrite Hg. cbn [obind].
  apply createChunk_ok; [exact Hscan|].
  rewrite Forall_forall in Hw. apply Hw. eapply nth_error_In; eassumption.
Qed.

Lemma dropUntil_incl {A} (p : A -> bool) l x :
  In x (dropUntil p l) -> In x l.
Proof.
  induction l as [|y l IH]; cbn [dropUntil]; [tauto|].
  destruct (p y); [tauto|]. intros H. right. now apply IH.
Qed.

Lemma coveredSections_incl book s :
  In s (coveredSections book) -> In s (b_sections book).
Proof.
  unfold coveredSections. destruct (heuristicOf book); [|tauto].
  apply dropUntil_incl.
Qed.

Lemma Forall2_Forall_l {A B} (R : A -> B -> Prop) (P : A -> Prop) la lb :
  Forall2 R la lb ->
  (forall a b, In b lb -> R a b -> P a) ->
  Forall P la.
Proof.
  induction 1 as [|a b la lb Hab _ IH]; intros H; constructor.
  - apply (H a b); [now left|exact Hab].
  - apply IH. intros a' b' Hin. apply H. now right.
Qed.

(** What [chunkBook] returns, for every book, when the scan for citations
    returns: it does return; the chunks are built from groups of units, one
    chunk per group in order; the sections of the groups are, in order, the
    sections that reach a unit; every group is within budget or is one
    section alone. *)
Theorem chunkBook_spec md5hex8 extractCitations book options :
  Scans extractCitations ->
  exists chunks groups,
    chunkBook md5hex8 extractCitations book options = Some chunks
    /\ Forall2 (chunkOf (b_id book)) chunks groups
    /\ flat_map (flat_map u_sections) groups = coveredSections book
    /\ Forall (withinBudget (mergeOptions options)) groups
    /\ Forall GroupWf groups.
Proof.
  intros Hscan. unfold chunkBook.
  destruct (identifySemanticUnits_sections book) as [Hs Hne].
  destruct (groupUnitsIntoChunks_groups (mergeOptions options) Hne) as [Hb Hw].
  destruct (chunksOfGroups_ok md5hex8 (b_id book)
              (mergeOptions options) Hscan Hw) as (chunks & E & H2).
  exists chunks, (groupUnitsIntoChunks (identifySemanticUnits book)
                                       (mergeOptions options)).
  repeat split; try assumption.
  now rewrite groupUnitsIntoChunks_sections.
Qed.

(** For a book without a book-type heuristic, the primary contents of the
    chunks are consecutive, non-empty runs of the sections of the book that
    together make up all of them, each exactly once. *)
Theorem chunkBook_covers_default md5hex8 extractCitations book options :
  Scans extractCitations ->
  heuristicOf book = None ->
  exists chunks runs,
    chunkBook md5hex8 extractCitations book options = Some chunks
    /\ concat runs = b_sections book
    /\ Forall2 (fun c run =>
                  run <> [] /\
                  c_hebrew c
                  = join paragraphBreak (List.map s_hebrewText run))
               chunks runs.
Proof.
  intros Hscan Hh.
  destruct (chunkBook_spec md5hex8 book options Hscan)
    as (chunks & groups & E & H2 & Hs & _ & Hw).
  exists chunks, (List.map (flat_map u_sections) groups).
  split; [exact E|]. split.
  - rewrite <- flat_map_concat_map, Hs. unfold coveredSections. now rewrite Hh.
  - clear E Hs. induction H2 as [|c g cs gs Hcg _ IH]; [constructor|].
    inversion Hw as [|? ? [Hne Hsec] Hw']; subst.
    cbn [List.map]. constructor; [|now apply IH].
    split; [|apply Hcg].
    destruct g as [|u g]; [congruence|]. cbn [flat_map].
    intros H. apply app_eq_nil in H as [H _].
    now inversion Hsec.
Qed.

(** A book whose sections reach a unit yields at least one chunk. *)
Theorem chunkBook_nonempty md5hex8 extractCitations book options :
  Scans extractCitations ->
  coveredSections book <> [] ->
  exists c chunks,
    chunkBook md5hex8 extractCitations book options = Some (c :: chunks).
Proof.
  intros Hscan Hne.
  destruct (chunkBook_spec md5hex8 book options Hscan)
    as (chunks & groups & E & H2 & Hs & _ & _).
  destruct H2 as [|c g cs gs _ _].
  - cbn in Hs. congruence.
  - now exists c, cs.
Qed.

(** When the scan for citations raises, so does [chunkBook] as soon as one
    section reaches a unit. *)
Lemma chunkBook_scan_raises md5hex8 extractCitations book options :
  (forall text, extractCitations text = None) ->
  coveredSections book <> [] ->
  chunkBook md5hex8 extractCitations book options = None.
Proof.
  intros Hscan Hne. unfold chunkBook, chunksOfGroups.
  pose proof (groupUnitsIntoChunks_sections (mergeOptions options)
                (identifySemanticUnits book)) as Hs.
  destruct (identifySemanticUnits_sections book) as [Hu _].
  rewrite Hu in Hs.
  destruct (groupUnitsIntoChunks (identifySemanticUnits book)
                                 (mergeOptions options)) as [|g groups].
  - cbn in Hs. congruence.
  - cbn [length seq mapM nth_error obind]. unfold createChunk.
    now rewrite Hscan.
Qed.

(** *** The scan of the code *)

(** The scan raises on every text: its second pattern has no [g] flag. *)
Lemma extractCitations_raises text : extractCitations text = None.
Proof. reflexivity. Qed.

(** So [chunkBook] raises as soon as one section reaches a unit, and
    returns the empty list otherwise: it never returns a chunk. *)
Lemma chunkBook_raises md5hex8 book options :
  coveredSections book <> [] ->
  chunkBook md5hex8 extractCitations book options = None.
Proof.
  apply chunkBook_scan_raises. exact extractCitations_raises.
Qed.

Lemma chunkBook_without_units md5hex8 scan book options :
  coveredSections book = [] ->
  chunkBook md5hex8 scan book options = Some [].
Proof.
  intros Hc. unfold chunkBook, chunksOfGroups.
  pose proof (groupUnitsIntoChunks_sections (mergeOptions options)
                (identifySemanticUnits book)) as Hs.
  destruct (identifySemanticUnits_sections book) as [Hu _].
  rewrite Hu, Hc in Hs.
  destruct (identifySemanticUnits_sections book) as [_ Hne].
  destruct (groupUnitsIntoChunks_groups (mergeOptions options) Hne)
    as [_ Hw].
  destruct (groupUnitsIntoChunks (identifySemanticUnits book)
                                 (mergeOptions options)) as [|g groups];
    [reflexivity|].
  exfalso. inversion Hw as [|? ? [Hg Hsec] _]; subst.
  destruct g as [|u g]; [congruence|].
  inversion Hsec as [|? ? Hu0 _]; subst.
  cbn [flat_map] in Hs. apply app_eq_nil in Hs as [Hs _].
  apply app_eq_nil in Hs as [Hs _]. contradiction.
Qed.


End ChunkerProps.

(* ================================================================= *)
(** ** The chunker against its specification *)

Module ChunkerClaims.
Import JS Chunker ChunkerProps.

(** Sample inputs.  A section that carries nothing but its text. *)
Definition plain (text : string) : BookSection :=
  mkSection None (lit text) None None (lit "ref") 0.

(** A Likutey Moharan book whose first section precedes the first
    numbered teaching. *)
Definition prefaceBook : Book :=
  mkBook (lit "likutey_moharan") None None
         [plain "Preface"; plain "Torah 1 on joy"].

(** A Likutey Moharan book without any numbered teaching. *)
Definition unmarkedBook : Book :=
  mkBook (lit "likutey_moharan") None None [plain "hello"].



(** A unit of one section of 40 characters, 10 tokens. *)
Definition oneSectionUnit : SemanticUnit :=
  mkUnit (lit "unit_1") section
         [plain "0123456789012345678901234567890123456789"] 10 [].

Definition tightOptions : ChunkingOptions := mkOptions 5 2 (1 # 10) true.

(** C2, at the failing input: in [prefaceBook] the section "Preface" comes
    before the first section that opens a teaching and reaches no unit, so
    that it is in none of the groups from which the chunks are made; and
    [chunkBook] returns no chunk at all: the scan for citations of the
    first group raises a [TypeError]. *)
Theorem chunkBook_drops_leading_sections md5hex8 :
  b_sections prefaceBook = [plain "Preface"; plain "Torah 1 on joy"]
  /\ flat_map u_sections (identifySemanticUnits prefaceBook)
     = [plain "Torah 1 on joy"]
  /\ flat_map (flat_map u_sections)
              (groupUnitsIntoChunks (identifySemanticUnits prefaceBook)
                                    (mergeOptions noOptions))
     = [plain "Torah 1 on joy"]
  /\ chunkBook md5hex8 extractCitations prefaceBook noOptions = None.
Proof.
  split; [reflexivity|]. split; [reflexivity|]. split; [reflexivity|].
  apply chunkBook_raises. discriminate.
Qed.


(** C4, at the failing input: a unit of one section of 10 tokens exceeds
    [maxTokens = 5]; [splitLargeUnit] returns it as one part of 10 tokens,
    above the target of 4 and above [maxTokens]. *)
Theorem splitLargeUnit_single_section :
  maxTokens tightOptions = 5
  /\ maxTokens tightOptions < u_tokenCount oneSectionUnit
  /\ u_tokenCount oneSectionUnit = sumSectionTokens (u_sections oneSectionUnit)
  /\ exists p, splitLargeUnit oneSectionUnit tightOptions = [p]
               /\ u_sections p = u_sections oneSectionUnit
               /\ u_tokenCount p = 10
               /\ targetSize tightOptions = 4.
Proof.
  split; [reflexivity|]. split; [reflexivity|]. split; [reflexivity|].
  eexists. split; [vm_compute; reflexivity|]. repeat split.
Qed.

(** What [splitLargeUnit] does for every unit whose token count is the sum
    over its sections and exceeds [maxTokens]: the sections of the parts,
    in order, are the sections of the unit; every part carries the token
    sum of its sections and either stays within 80% of [maxTokens] or is
    one section alone; a unit of two sections or more yields two parts or
    more. *)
Theorem splitLargeUnit_spec unit options :
  u_tokenCount unit = sumSectionTokens (u_sections unit) ->
  maxTokens options < u_tokenCount unit ->
  flat_map u_sections (splitLargeUnit unit options) = u_sections unit
  /\ Forall (fun p =>
               u_tokenCount p = sumSectionTokens (u_sections p)
               /\ (u_tokenCount p <= targetSize options
                   \/ exists s, u_sections p = [s]))
            (splitLargeUnit unit options)
  /\ ((2 <= length (u_sections unit))%nat ->
      (2 <= length (splitLargeUnit unit options))%nat).
Proof.
  intros Hsum Hbig.
  pose proof (splitLargeUnit_sections unit options) as Hs.
  pose proof (splitLargeUnit_parts unit options) as Hp.
  split; [exact Hs|]. split.
  - eapply Forall_impl; [|exact Hp]. intros p (_ & H1 & H2). now split.
  - intros Hlen.
    destruct (splitLargeUnit unit options) as [|p [|q parts]].
    + cbn in Hs. rewrite <- Hs in Hlen. cbn in Hlen. lia.
    + cbn [flat_map] in Hs. rewrite app_nil_r in Hs.
      inversion Hp as [|? ? (_ & Htok & Hfit) _]; subst.
      rewrite Hs in Htok, Hfit.
      destruct Hfit as [Hle|[s Hone]].
      * assert (targetSize options < u_tokenCount unit) as Hgt.
        { apply above_max_above_target; [|exact Hbig].
          rewrite Hsum. apply sumSectionTokens_nonneg. }
        lia.
      * rewrite Hone in Hlen. cbn in Hlen. lia.
    + cbn [length]. lia.
Qed.

(** C5, at the failing input: no section of [unmarkedBook] opens a
    teaching; the Torah heuristic finds no unit and [chunkBook] returns the
    empty list, without any fixed-size grouping. *)
Theorem chunkBook_empty_without_marker md5hex8 extractCitations :
  b_sections unmarkedBook <> []
  /\ identifySemanticUnits unmarkedBook = []
  /\ chunkBook md5hex8 extractCitations unmarkedBook noOptions = Some [].
Proof.
  split; [discriminate|]. split; reflexivity.
Qed.

End ChunkerClaims.

(* ================================================================= *)
(** ** Properties of strings and objects *)

Module JSProps.
Import JS.

Lemma ueqb_eq a b : ueqb a b = true <-> a = b.
Proof.
  unfold ueqb. destruct (list_eq_dec N.eq_dec a b); split; congruence.
Qed.

Lemma ueqb_refl a : ueqb a a = true.
Proof. now apply ueqb_eq. Qed.

Lemma ueqb_neq a b : ueqb a b = false <-> a <> b.
Proof.
  unfold ueqb. destruct (list_eq_dec N.eq_dec a b); split; congruence.
Qed.

Lemma mem_In x l : mem x l = true <-> In x l.
Proof.
  unfold mem. rewrite existsb_exists. split.
  - intros (y & Hy & E). apply ueqb_eq in E. now subst.
  - intros H. exists x. split; [exact H|apply ueqb_refl].
Qed.

(** Setting a key commutes with a map over the values. *)
Lemma set_map {V W} (f : V -> W) (o : Obj.t V) k v :
  List.map (fun e => (fst e, f (snd e))) (Obj.set o k v)
  = Obj.set (List.map (fun e => (fst e, f (snd e))) o) k (f v).
Proof.
  induction o as [|[k' v'] o IH]; cbn [Obj.set List.map fst snd].
  - reflexivity.
  - destruct (ueqb k k'); cbn [List.map fst snd]; [reflexivity|].
    now rewrite IH.
Qed.

Lemma get_map {V W} (f : V -> W) (o : Obj.t V) k :
  Obj.get (List.map (fun e => (fst e, f (snd e))) o) k
  = option_map f (Obj.get o k).
Proof.
  induction o as [|[k' v'] o IH]; cbn [Obj.get List.map fst snd].
  - reflexivity.
  - destruct (ueqb k k'); [reflexivity|exact IH].
Qed.

End JSProps.

(* ================================================================= *)
(** ** Properties of numbers, sorting and objects *)

Module NumProps.
Import Num.

Lemma In_firstn {A} (n : nat) (l : list A) x : In x (firstn n l) -> In x l.
Proof.
  revert l. induction n as [|n IH]; intros [|y l]; cbn; try tauto.
  intros [H|H]; [now left|right; now apply IH].
Qed.

Lemma Qltb_lt a b : Qltb a b = true <-> (a < b)%Q.
Proof.
  unfold Qltb. rewrite Qlt_alt. destruct (a ?= b)%Q; split; congruence.
Qed.

Lemma Qltb_ge a b : Qltb a b = false <-> (b <= a)%Q.
Proof.
  split; intros H.
  - apply Qnot_lt_le. intros L. apply Qltb_lt in L. congruence.
  - destruct (Qltb a b) eqn:E; [|reflexivity].
    apply Qltb_lt in E. exfalso. now apply (Qlt_not_le _ _ E).
Qed.

Lemma insertDesc_perm {A} (score : A -> Q) x l :
  Permutation (insertDesc score x l) (x :: l).
Proof.
  induction l as [|y l IH]; cbn [insertDesc]; [reflexivity|].
  destruct (Qltb (score x) (score y)); [|reflexivity].
  rewrite IH. apply perm_swap.
Qed.

Lemma sortDesc_perm {A} (score : A -> Q) l :
  Permutation (sortDesc score l) l.
Proof.
  induction l as [|x l IH]; cbn; [reflexivity|].
  unfold sortDesc in IH. rewrite insertDesc_perm. now constructor.
Qed.

Lemma sortDesc_In {A} (score : A -> Q) l x :
  In x (sortDesc score l) <-> In x l.
Proof.
  split; apply Permutation_in;
    [|symmetry]; apply sortDesc_perm.
Qed.

(** Descending order of the scores. *)
Definition Descending {A} (score : A -> Q) (l : list A) : Prop :=
  StronglySorted (fun a b => (score b <= score a)%Q) l.

Lemma insertDesc_sorted {A} (score : A -> Q) x l :
  Descending score l -> Descending score (insertDesc score x l).
Proof.
  unfold Descending. induction 1 as [|y l Hl IH Hy]; cbn [insertDesc].
  - repeat constructor.
  - destruct (Qltb (score x) (score y)) eqn:E.
    + constructor; [exact IH|].
      apply Qltb_lt in E.
      rewrite Forall_forall. intros z Hz.
      apply (Permutation_in _ (insertDesc_perm score x l)) in Hz.
      destruct Hz as [<-|Hz]; [now apply Qlt_le_weak|].
      rewrite Forall_forall in Hy. now apply Hy.
    + apply Qltb_ge in E.
      constructor; [now constructor|].
      constructor; [exact E|].
      rewrite Forall_forall in *. intros z Hz.
      apply Qle_trans with (score y); [now apply Hy|exact E].
Qed.

Lemma sortDesc_sorted {A} (score : A -> Q) l : Descending score (sortDesc score l).
Proof.
  induction l as [|x l IH]; cbn.
  - constructor.
  - now apply insertDesc_sorted.
Qed.

Lemma Descending_firstn {A} (score : A -> Q) n l :
  Descending score l -> Descending score (firstn n l).
Proof.
  unfold Descending. intros H. revert n.
  induction H as [|x l Hl IH Hx]; intros [|n]; cbn; try constructor.
  - apply IH.
  - rewrite Forall_forall in *. intros z Hz. apply Hx.
    eapply In_firstn; eassumption.
Qed.

Lemma length_firstn_le {A} (n : nat) (l : list A) : (length (firstn n l) <= n)%nat.
Proof. rewrite length_firstn. apply Nat.le_min_l. Qed.

Lemma In_firstn_sortDesc {A} (score : A -> Q) n l x :
  In x (firstn n (sortDesc score l)) -> In x l.
Proof.
  intros H. apply (sortDesc_In score). eapply In_firstn; eassumption.
Qed.

End NumProps.

(* ================================================================= *)
(** ** Properties of the router *)

Module RouterProps.
Import JS Chunker Index Router JSProps NumProps.

(** *** Level 3 stays within the budget *)

(** [chunks.reduce((sum, chunk) => sum + chunk.metadata.tokenCount, 0)] *)
Definition tokenSum (chunks : list Chunk) : Z :=
  fold_left (fun sum chunk => sum + c_tokenCount chunk) chunks 0.

Lemma tokenSum_snoc chunks chunk :
  tokenSum (chunks ++ [chunk]) = tokenSum chunks + c_tokenCount chunk.
Proof. unfold tokenSum. now rewrite fold_left_app. Qed.

Lemma truncateChunk_tokens chunk budget :
  c_tokenCount (truncateChunk chunk budget) = budget.
Proof. reflexivity. Qed.

Lemma addChunks_bound candidateChunks maxTokens :
  forall chunks totalTokens chunks' total' returned,
  tokenSum chunks = totalTokens -> totalTokens <= maxTokens ->
  addChunks candidateChunks (Some maxTokens) chunks totalTokens
  = (chunks', total', returned) ->
  tokenSum chunks' = total' /\ total' <= maxTokens.
Proof.
  induction candidateChunks as [|chunk rest IH];
    intros chunks totalTokens chunks' total' returned Hsum Hle E;
    cbn [addChunks] in E.
  - inversion E; subst. now split.
  - destruct (totalTokens + c_tokenCount chunk >? maxTokens) eqn:E1.
    + destruct (maxTokens - totalTokens >? partialFloor) eqn:E2;
        inversion E; subst; clear E.
      * rewrite tokenSum_snoc, truncateChunk_tokens. split; lia.
      * now split.
    + rewrite Z.gtb_ltb in E1. apply Z.ltb_ge in E1.
      apply (IH (chunks ++ [chunk]) (totalTokens + c_tokenCount chunk)
                chunks' total' returned); [|lia|exact E].
      rewrite tokenSum_snoc, Hsum. reflexivity.
Qed.

Lemma retrieveLoop_bound readChunk candidates maxTokens :
  forall chunksCache chunks totalTokens,
  tokenSum chunks = totalTokens -> totalTokens <= maxTokens ->
  tokenSum (fst (retrieveLoop readChunk candidates (Some maxTokens)
                              chunksCache chunks totalTokens)) <= maxTokens.
Proof.
  induction candidates as [|candidate rest IH];
    intros chunksCache chunks totalTokens Hsum Hle; cbn [retrieveLoop].
  - cbn [fst]. lia.
  - destruct (loadChunksForSection readChunk chunksCache (sc_bookId candidate)
                                   (sc_chunkIds candidate))
      as [candidateChunks cache'].
    destruct (addChunks candidateChunks (Some maxTokens) chunks totalTokens)
      as [[chunks' total'] returned] eqn:E.
    destruct (@addChunks_bound _ _ _ _ _ _ _ Hsum Hle E) as [Hsum' Hle'].
    destruct returned; [cbn [fst]; lia|].
    destruct (enoughContext total' (Some maxTokens)); [cbn [fst]; lia|].
    now apply IH.
Qed.

(** The chunks that Level 3 returns fit a non-negative budget. *)
Lemma retrieveChunks_bound readChunk chunksCache candidates maxTokens :
  0 <= maxTokens ->
  tokenSum (fst (retrieveChunks readChunk chunksCache candidates
                                (Some maxTokens)))
  <= maxTokens.
Proof.
  intros H. unfold retrieveChunks. now apply retrieveLoop_bound.
Qed.

(** *** NaN in the arithmetic of the confidence *)

Lemma add_NaN_r a : Num.add a Num.NaN = Num.NaN.
Proof. now destruct a. Qed.

Lemma mul_NaN_l a : Num.mul Num.NaN a = Num.NaN.
Proof. reflexivity. Qed.

Lemma add_NaN_l a : Num.add Num.NaN a = Num.NaN.
Proof. reflexivity. Qed.

Lemma min_NaN_l a : Num.min Num.NaN a = Num.NaN.
Proof. reflexivity. Qed.

Lemma div_zero_zero : Num.div (Num.ofNat 0) (Num.ofNat 0) = Num.NaN.
Proof. reflexivity. Qed.

(** Without query keywords the keyword coverage is 0/0, and the
    confidence of a non-empty chunk list is NaN. *)
Lemma calculateConfidence_no_keywords chunk chunks query :
  calculateConfidence (chunk :: chunks) query [] = Num.NaN.
Proof.
  unfold calculateConfidence. cbn [length countIn filter].
  rewrite div_zero_zero, mul_NaN_l, add_NaN_r, add_NaN_l.
  reflexivity.
Qed.

(** *** The confidence with query keywords *)

(** [Math.min(x, 1)] on a rational. *)
Definition clamp1 (x : Q) : Q := if Num.Qltb 1 x then 1%Q else x.

Definition fraction (a b : nat) : Q :=
  (inject_Z (Z.of_nat a) / inject_Z (Z.of_nat b))%Q.

(** The formula of the specification. *)
Definition confidenceFormula (chunkCount covered aligned keywords : nat) : Q :=
  clamp1 (0 + clamp1 (inject_Z (Z.of_nat chunkCount) / 10) * (3 # 10)
            + fraction covered keywords * (4 # 10)
            + fraction aligned (Nat.max keywords 1) * (3 # 10))%Q.

Lemma inject_nat_nonneg n : (0 <= inject_Z (Z.of_nat n))%Q.
Proof. unfold Qle. cbn. lia. Qed.

Lemma inject_nat_nonzero n :
  n <> O -> Qeq_bool (inject_Z (Z.of_nat n)) 0 = false.
Proof.
  intros H. destruct (Qeq_bool _ _) eqn:E; [|reflexivity].
  apply Qeq_bool_eq in E. unfold Qeq in E. cbn in E. lia.
Qed.

Lemma fraction_nonneg a b : (0 <= fraction a b)%Q.
Proof.
  unfold fraction, Qdiv. apply Qmult_le_0_compat.
  - apply inject_nat_nonneg.
  - apply Qinv_le_0_compat, inject_nat_nonneg.
Qed.

Lemma clamp1_le x : (clamp1 x <= 1)%Q.
Proof.
  unfold clamp1. destruct (Num.Qltb 1 x) eqn:E.
  - apply Qle_refl.
  - now apply Qltb_ge in E.
Qed.

Lemma clamp1_nonneg x : (0 <= x)%Q -> (0 <= clamp1 x)%Q.
Proof.
  unfold clamp1. destruct (Num.Qltb 1 x); [discriminate|tauto].
Qed.

Lemma Qplus_nonneg a b : (0 <= a)%Q -> (0 <= b)%Q -> (0 <= a + b)%Q.
Proof.
  intros Ha Hb. apply Qle_trans with (0 + 0)%Q; [discriminate|].
  now apply Qplus_le_compat.
Qed.

Lemma confidenceFormula_range n k a len :
  (0 <= confidenceFormula n k a len <= 1)%Q.
Proof.
  unfold confidenceFormula. split; [|apply clamp1_le].
  apply clamp1_nonneg.
  repeat apply Qplus_nonneg; try apply Qle_refl.
  - apply Qmult_le_0_compat; [|discriminate].
    apply clamp1_nonneg. unfold Qdiv. apply Qmult_le_0_compat.
    + apply inject_nat_nonneg.
    + discriminate.
  - apply Qmult_le_0_compat; [apply fraction_nonneg|discriminate].
  - apply Qmult_le_0_compat; [apply fraction_nonneg|discriminate].
Qed.

(** With at least one chunk and one query keyword, the confidence is the
    formula of the specification, a rational between 0 and 1. *)
Lemma calculateConfidence_formula chunks query queryKeywords :
  chunks <> [] -> queryKeywords <> [] ->
  calculateConfidence chunks query queryKeywords
  = Num.Fin (confidenceFormula
               (length chunks)
               (countIn queryKeywords
                        (flat_map (fun c => extractQueryKeywords (c_hebrew c))
                                  chunks))
               (countIn queryKeywords (flat_map c_themes chunks))
               (length queryKeywords)).
Proof.
  intros Hc Hk. destruct chunks as [|c cs]; [congruence|].
  unfold calculateConfidence, confidenceFormula, fraction, Num.ofNat.
  cbn [Num.div].
  rewrite !inject_nat_nonzero.
  - change (Qeq_bool 10 0) with false. cbn iota.
    cbn [Num.add Num.mul Num.min Num.gt]. unfold clamp1.
    destruct (Num.Qltb 1 (inject_Z (Z.of_nat (length (c :: cs))) / 10));
      cbn [Num.add Num.mul Num.min Num.gt];
      destruct (Num.Qltb 1 _); reflexivity.
  - destruct queryKeywords; cbn; congruence.
  - destruct queryKeywords; [congruence|]. cbn [length]. lia.
Qed.

(** *** Level 1 and the semantic gate *)

Lemma scoreIn_empty bookId : scoreIn [] bookId = Num.Fin 0.
Proof. reflexivity. Qed.

Lemma semanticMatches_closed index queryEmbedding :
  semanticGate index queryEmbedding = None ->
  semanticMatches index queryEmbedding = [].
Proof. intros H. unfold semanticMatches. now rewrite H. Qed.

(** The gate is open exactly when there is a query embedding and the first
    book summary has a [keywordEmbeddings] array. *)
Lemma semanticGate_open index queryEmbedding q :
  semanticGate index queryEmbedding = Some q <->
  queryEmbedding = Some q
  /\ exists first rest e,
       mi_books index = first :: rest
       /\ bs_keywordEmbeddings first = Some e.
Proof.
  unfold semanticGate. split.
  - destruct queryEmbedding as [q'|]; [|discriminate].
    destruct (mi_books index) as [|first rest]; [discriminate|].
    destruct (bs_keywordEmbeddings first) as [e|] eqn:E; [|discriminate].
    intros H. inversion H; subst. split; [reflexivity|].
    now exists first, rest, e.
  - intros (-> & first & rest & e & -> & ->). reflexivity.
Qed.

(** A total that is a rational is made of rationals. *)
Lemma totalScore_Fin l t s total :
  totalScore l t s = Num.Fin total ->
  exists lq tq sq,
    l = Num.Fin lq /\ t = Num.Fin tq /\ s = Num.Fin sq
    /\ total = (lq * (3 # 10) + tq * (3 # 10) + sq * (4 # 10))%Q.
Proof.
  unfold totalScore.
  destruct l as [lq| | |], t as [tq| | |], s as [sq| | |];
    cbn; try discriminate.
  intros H. inversion H. now exists lq, tq, sq.
Qed.

Lemma scoreBook_score index lexical thematic semantic bookId b :
  In b (scoreBook index lexical thematic semantic bookId) ->
  bk_bookId b = bookId
  /\ totalScore (scoreIn lexical bookId) (scoreIn thematic bookId)
                (scoreIn semantic bookId)
     = Num.Fin (bk_score b).
Proof.
  unfold scoreBook.
  destruct (totalScore _ _ _) as [total| | |]; cbn [In]; try tauto.
  destruct (Num.Qltb bookFloor total); cbn [In]; try tauto.
  destruct (find _ _) as [book|] eqn:F; cbn [In]; try tauto.
  intros [<-|[]]. cbn [bk_bookId bk_score]. split; [|reflexivity].
  apply find_some in F as [_ F]. now apply ueqb_eq in F.
Qed.

(** The keywords under which the search index and the thematic map of a
    master index can be read: each is an own property of the object, or
    names no member of [Object.prototype]. *)
Definition Readable (index : MasterIndex) (queryKeywords : list ustring)
  : Prop :=
  Forall (fun keyword =>
            notIterable (mi_searchIndex index) keyword = false
            /\ notIterable (mi_thematicMap index) keyword = false)
         queryKeywords.

Lemma Readable_iff index queryKeywords :
  Readable index queryKeywords <->
  existsb (notIterable (mi_searchIndex index)) queryKeywords
  || existsb (notIterable (mi_thematicMap index)) queryKeywords = false.
Proof.
  unfold Readable. rewrite orb_false_iff.
  induction queryKeywords as [|k ks IH]; cbn [existsb].
  - split; [now split|constructor].
  - rewrite !orb_false_iff. split.
    + intros H. inversion H as [|? ? [H1 H2] Hks]; subst.
      apply IH in Hks as [H3 H4]. now repeat split.
    + intros [[H1 H3] [H2 H4]]. constructor; [now split|].
      apply IH. now split.
Qed.

(** A keyword that names no member of [Object.prototype] can be read. *)
Lemma Readable_plain index queryKeywords :
  Forall (fun keyword => Obj.inherited keyword = false) queryKeywords ->
  Readable index queryKeywords.
Proof.
  unfold Readable. apply Forall_impl. intros k Hk.
  unfold notIterable, Obj.read. rewrite Hk.
  now destruct (Obj.get (mi_searchIndex index) k),
               (Obj.get (mi_thematicMap index) k).
Qed.

(** Level 1 with a master index loaded: it raises exactly when a keyword
    cannot be read. *)
Lemma searchMasterIndex_raises index query queryEmbedding queryKeywords :
  ~ Readable index queryKeywords ->
  searchMasterIndex (Some index) query queryEmbedding queryKeywords
  = Throw notIterableError.
Proof.
  intros H. unfold searchMasterIndex.
  destruct (existsb _ _ || existsb _ _) eqn:E; [reflexivity|].
  now apply Readable_iff in E.
Qed.

Lemma searchMasterIndex_returns index query queryEmbedding queryKeywords :
  Readable index queryKeywords ->
  searchMasterIndex (Some index) query queryEmbedding queryKeywords
  = Ok (firstn 3
          (Num.sortDesc bk_score
             (flat_map (scoreBook index
                          (lexicalMatches index queryKeywords)
                          (thematicMatches index queryKeywords)
                          (semanticMatches index queryEmbedding))
                       (dedup (List.map fst (lexicalMatches index queryKeywords)
                               ++ List.map fst
                                    (thematicMatches index queryKeywords)
                               ++ List.map fst
                                    (semanticMatches index queryEmbedding)))))).
Proof.
  intros H. apply Readable_iff in H. unfold searchMasterIndex.
  now rewrite H.
Qed.

Lemma searchMasterIndex_Ok index query queryEmbedding queryKeywords books :
  searchMasterIndex (Some index) query queryEmbedding queryKeywords = Ok books ->
  Readable index queryKeywords.
Proof.
  intros E. apply Readable_iff. unfold searchMasterIndex in E.
  now destruct (existsb _ _ || existsb _ _).
Qed.

(** Every book that Level 1 returns carries the weighted sum of its three
    signals as score. *)
Lemma searchMasterIndex_scores index query queryEmbedding queryKeywords :
  Readable index queryKeywords ->
  exists books,
    searchMasterIndex (Some index) query queryEmbedding queryKeywords = Ok books
    /\ (length books <= 3)%nat
    /\ Forall (fun b =>
                 totalScore
                   (scoreIn (lexicalMatches index queryKeywords) (bk_bookId b))
                   (scoreIn (thematicMatches index queryKeywords) (bk_bookId b))
                   (scoreIn (semanticMatches index queryEmbedding) (bk_bookId b))
                 = Num.Fin (bk_score b))
              books.
Proof.
  intros Hr.
  eexists. split; [now apply searchMasterIndex_returns|].
  split; [apply length_firstn_le|].
  rewrite Forall_forall. intros b Hb.
  apply In_firstn_sortDesc in Hb. apply in_flat_map in Hb as (bookId & _ & Hb).
  apply scoreBook_score in Hb as [<- Hb]. exact Hb.
Qed.

(** *** [route] *)

Section RouteProps.

Variable readChunk : ustring -> ustring -> option Chunk.
Variable generateEmbedding : ustring -> option (list Q).
Variable hashQuery : ustring -> ustring.

(** A result that [route] computed, as opposed to one it found in the
    cache, totals the token counts of its chunks and fits the budget. *)
Lemma routeFresh_within_budget st query options maxTokens r st' :
  routeFresh readChunk generateEmbedding hashQuery st query options
  = (Ok r, st') ->
  maxTokensOf options = Some maxTokens ->
  0 <= maxTokens ->
  rr_fromCache r = false
  /\ rr_totalTokens r = tokenSum (rr_chunks r)
  /\ rr_totalTokens r <= maxTokens.
Proof.
  intros E Hopt Hmax. unfold Router.routeFresh in E.
  destruct (searchMasterIndex _ _ _ _) as [[|b bs]|e]; try discriminate.
  - inversion E; subst. cbn. repeat split; lia.
  - destruct (searchBookIndexes _ _ _ _ _) as [|c cs].
    + inversion E; subst. cbn. repeat split; lia.
    + rewrite Hopt in E.
      destruct (retrieveChunks _ _ _ _) as [chunks cache'] eqn:ER.
      inversion E; subst. cbn [rr_fromCache rr_totalTokens rr_chunks].
      split; [reflexivity|]. split; [reflexivity|].
      pose proof (retrieveChunks_bound readChunk (rs_chunksCache st)
                    (c :: cs) Hmax) as Hb.
      rewrite ER in Hb. exact Hb.
Qed.

(** A cache hit is returned as read from the store, marked [fromCache]. *)
Lemma route_cache_hit st query options cached :
  cacheCheck hashQuery st query options = Some cached ->
  route readChunk generateEmbedding hashQuery st query options
  = (Ok (setFromCache cached), st).
Proof. intros E. unfold Router.route. now rewrite E. Qed.

Lemma route_cache_miss st query options :
  cacheCheck hashQuery st query options = None ->
  route readChunk generateEmbedding hashQuery st query options
  = routeFresh readChunk generateEmbedding hashQuery st query options.
Proof. intros E. unfold Router.route. now rewrite E. Qed.

End RouteProps.

End RouterProps.

(* ================================================================= *)
(** ** The router against its specification *)

Module RouterClaims.
Import JS Chunker Index Router JSProps NumProps RouterProps.

(** *** Sample corpus: two books of one chunk of 50000 tokens each *)

Definition sampleChunk (id bookId : string) : Chunk :=
  mkChunk (lit id) (lit bookId) (lit "s1") (lit "joy faith hope") None None
          (lit "ref") 0 0 50000 [lit "joy"] [] None None None.

Definition sampleChunks : Obj.t (list Chunk) :=
  [ (lit "bookA", [sampleChunk "a1" "bookA"]);
    (lit "bookB", [sampleChunk "b1" "bookB"]) ].

Definition sampleBooks : list Book :=
  [ mkBook (lit "bookA") (Some (lit "A")) None [];
    mkBook (lit "bookB") (Some (lit "B")) None [] ].

(** The indexes that the builder derives from the sample corpus. *)
Definition sampleIndexes : IndexBuilder.AllIndexes :=
  fst (IndexBuilder.buildAllIndexes (fun _ => 3) (fun _ => 0)
                                    sampleBooks sampleChunks 0%nat).

(** A router that has loaded them, with an empty result cache. *)
Definition sampleState : RouterState :=
  mkRouterState (Some (IndexBuilder.masterIndex sampleIndexes))
                (IndexBuilder.bookIndexes sampleIndexes) [] (Some []).

Definition readSample (bookId chunkId : ustring) : option Chunk :=
  match Obj.get sampleChunks bookId with
  | Some chunks => find (fun c => ueqb (c_id c) chunkId) chunks
  | None => None
  end.

(** No embedding provider; the query itself as its digest. *)
Definition noEmbedding : ustring -> option (list Q) := fun _ => None.
Definition plainKey : ustring -> ustring := fun query => query.

Definition budget (n : Z) : SearchOptions :=
  mkSearchOptions (Given n) Absent Absent Absent.

(** The query "joy" with a budget of 70000 tokens: the chunk of the first
    book whole, and the chunk of the second book cut to the 20000 tokens
    that are left. *)
Definition firstRun : result RouteResult * RouterState :=
  route readSample noEmbedding plainKey sampleState (lit "joy") (budget 70000).

Definition resultOf (out : result RouteResult * RouterState) : RouteResult :=
  match fst out with
  | Ok r => r
  | Throw _ => createEmptyResult []
  end.

(** C1, counterexample: the query "joy" is routed with a budget of 70000
    tokens and returns two chunks of 50000 and 20000 tokens, which are
    cached under the query; routed again with a budget of 10000 tokens, the
    same query is answered from the cache with the same 70000 tokens. *)
Lemma route_cached_result_exceeds_budget :
  exists r1 st1 r2 st2,
    route readSample noEmbedding plainKey sampleState (lit "joy") (budget 70000)
    = (Ok r1, st1)
    /\ rr_fromCache r1 = false
    /\ List.map c_tokenCount (rr_chunks r1) = [50000; 20000]
    /\ route readSample noEmbedding plainKey st1 (lit "joy") (budget 10000)
       = (Ok r2, st2)
    /\ rr_fromCache r2 = true
    /\ tokenSum (rr_chunks r2) = 70000
    /\ maxTokensOf (budget 10000) = Some 10000.
Proof.
  eexists _, _, _, _.
  split; [vm_compute; reflexivity|].
  split; [reflexivity|]. split; [reflexivity|].
  split; [vm_compute; reflexivity|].
  repeat split.
Qed.

(** C1, as amended: for a budget that is a number and not negative, be it
    given or the default, a result that [route] computes, that is one not
    served from the cache, has as total the sum of the token counts of its
    chunks, at most the budget; and when the cache is in use and the store
    holds a result under the query, [route] returns that result as it is
    read back from its JSON text, marked [fromCache], and leaves the router
    as it was. *)
Theorem route_total_within_budget readChunk generateEmbedding hashQuery
  st query options maxTokens r st' :
  route readChunk generateEmbedding hashQuery st query options = (Ok r, st') ->
  maxTokensOf options = Some maxTokens ->
  0 <= maxTokens ->
  (rr_fromCache r = false ->
   rr_totalTokens r = tokenSum (rr_chunks r)
   /\ tokenSum (rr_chunks r) <= maxTokens)
  /\ (forall store written,
        useCacheOf options = true ->
        rs_redis st = Some store ->
        Obj.get store (cacheKey hashQuery query) = Some written ->
        r = setFromCache (throughJson written) /\ st' = st).
Proof.
  intros E Hopt Hmax. split.
  - intros Hfresh.
    destruct (cacheCheck hashQuery st query options) as [cached|] eqn:C.
    + rewrite (route_cache_hit readChunk generateEmbedding _ _ _ _ C) in E.
      inversion E; subst. discriminate.
    + rewrite (route_cache_miss readChunk generateEmbedding _ _ _ _ C) in E.
      destruct (routeFresh_within_budget _ _ _ _ _ _ E Hopt Hmax)
        as (_ & H1 & H2).
      split; [exact H1|]. now rewrite <- H1.
  - intros store written Huse Hstore Hget.
    assert (cacheCheck hashQuery st query options
            = Some (throughJson written)) as C.
    { unfold cacheCheck, getCachedResult. now rewrite Huse, Hstore, Hget. }
    rewrite (route_cache_hit readChunk generateEmbedding _ _ _ _ C) in E.
    now inversion E.
Qed.

Lemma route_total_within_budget_witness :
  firstRun = (Ok (resultOf firstRun), snd firstRun)
  /\ maxTokensOf (budget 70000) = Some 70000
  /\ 0 <= 70000
  /\ (rr_fromCache (resultOf firstRun) = false ->
      rr_totalTokens (resultOf firstRun)
      = tokenSum (rr_chunks (resultOf firstRun))
      /\ tokenSum (rr_chunks (resultOf firstRun)) <= 70000)
  /\ (forall store written,
        useCacheOf (budget 70000) = true ->
        rs_redis sampleState = Some store ->
        Obj.get store (cacheKey plainKey (lit "joy")) = Some written ->
        resultOf firstRun = setFromCache (throughJson written)
        /\ snd firstRun = sampleState).
Proof.
  assert (firstRun = (Ok (resultOf firstRun), snd firstRun)) as E
    by (vm_compute; reflexivity).
  split; [exact E|]. split; [reflexivity|]. split; [discriminate|].
  apply (@route_total_within_budget readSample noEmbedding plainKey sampleState
           (lit "joy") (budget 70000) 70000 (resultOf firstRun) (snd firstRun)
           E); [reflexivity|discriminate].
Defined.

(** C6: after a cache miss, when Level 1 returns no book, or Level 2 no
    section for the books of Level 1, [route] returns, without throwing and
    leaving the router as it was, the empty result: no books, no sections,
    no chunks, 0 tokens, confidence 0, strategy [NoResults]. *)
Theorem route_no_match readChunk generateEmbedding hashQuery st query options :
  cacheCheck hashQuery st query options = None ->
  (searchMasterIndex (rs_masterIndex st) query (generateEmbedding query)
                     (extractQueryKeywords query) = Ok []
   \/ exists books,
        searchMasterIndex (rs_masterIndex st) query (generateEmbedding query)
                          (extractQueryKeywords query) = Ok books
        /\ searchBookIndexes (rs_bookIndexes st) books query
                             (generateEmbedding query)
                             (extractQueryKeywords query) = []) ->
  exists r,
    route readChunk generateEmbedding hashQuery st query options = (Ok r, st)
    /\ rr_books r = [] /\ rr_sections r = [] /\ rr_chunks r = []
    /\ rr_totalTokens r = 0
    /\ rr_confidence r = Num.Fin 0
    /\ rr_strategy r = lit "NoResults".
Proof.
  intros C H. exists (createEmptyResult query).
  split; [|repeat split].
  rewrite (route_cache_miss readChunk generateEmbedding _ _ _ _ C).
  unfold routeFresh.
  destruct H as [E|(books & E & E2)]; rewrite E.
  - reflexivity.
  - destruct books as [|b bs]; [reflexivity|]. now rewrite E2.
Qed.

Lemma route_no_match_witness :
  cacheCheck plainKey sampleState (lit "nothing here") defaultSearch = None
  /\ searchMasterIndex (rs_masterIndex sampleState) (lit "nothing here")
                       (noEmbedding (lit "nothing here"))
                       (extractQueryKeywords (lit "nothing here")) = Ok []
  /\ exists r,
       route readSample noEmbedding plainKey sampleState (lit "nothing here")
             defaultSearch = (Ok r, sampleState)
       /\ rr_books r = [] /\ rr_sections r = [] /\ rr_chunks r = []
       /\ rr_totalTokens r = 0
       /\ rr_confidence r = Num.Fin 0
       /\ rr_strategy r = lit "NoResults".
Proof.
  assert (searchMasterIndex (rs_masterIndex sampleState) (lit "nothing here")
            (noEmbedding (lit "nothing here"))
            (extractQueryKeywords (lit "nothing here")) = Ok []) as E
    by (vm_compute; reflexivity).
  split; [reflexivity|]. split; [exact E|].
  apply (route_no_match readSample noEmbedding plainKey sampleState
           (lit "nothing here") defaultSearch); [reflexivity|].
  left. exact E.
Defined.

(** *** The sample corpus with embeddings *)

Definition embedSummary (b : BookSummary) : BookSummary :=
  mkBookSummary (bs_id b) (bs_title b) (bs_hebrewTitle b) (bs_sections b)
                (bs_chunks b) (bs_totalTokens b) (bs_themes b) (bs_summary b)
                (Some [[1%Q]]).

Definition embedSection (sec : SectionInfo) : SectionInfo :=
  mkSectionInfo (si_id sec) (si_title sec) (si_themes sec) (si_summary sec)
                (si_chunkIds sec) (si_tokenCount sec) (si_keywords sec)
                (Some [1%Q]).

Definition embedMaster (index : MasterIndex) : MasterIndex :=
  mkMasterIndex (mi_version index) (mi_created index) (mi_totalBooks index)
                (mi_totalTokens index) (List.map embedSummary (mi_books index))
                (mi_searchIndex index) (mi_thematicMap index).

Definition embedBook (index : BookIndex) : BookIndex :=
  mkBookIndex (bi_bookId index) (bi_title index) (bi_hebrewTitle index)
              (bi_created index) (List.map embedSection (bi_sections index))
              (bi_hierarchy index) (bi_chunks index) (bi_thematicMap index)
              (bi_crossReferences index) (bi_totalTokens index).

(** The sample indexes once an embedding service has filled in one
    embedding per book summary and per section. *)
Definition embeddedState : RouterState :=
  mkRouterState
    (Some (embedMaster (IndexBuilder.masterIndex sampleIndexes)))
    (List.map (fun e => (fst e, embedBook (snd e)))
              (IndexBuilder.bookIndexes sampleIndexes))
    [] (Some []).

Definition unitEmbedding : ustring -> option (list Q) := fun _ => Some [1%Q].

(** C7, at the failing input: the query "hi" has no keyword (no word of
    more than two characters, no Hebrew, no theme); the embeddings alone
    select both books and their sections, two chunks are retrieved, and the
    confidence of the result is NaN, not a number of [0, 1]. *)
Theorem route_confidence_not_a_number :
  extractQueryKeywords (lit "hi") = []
  /\ exists r st',
       route readSample unitEmbedding plainKey embeddedState (lit "hi")
             defaultSearch = (Ok r, st')
       /\ length (rr_chunks r) = 2%nat
       /\ rr_confidence r = Num.NaN
       /\ rr_confidence r
          = calculateConfidence (rr_chunks r) (lit "hi")
                                (extractQueryKeywords (lit "hi")).
Proof.
  split; [reflexivity|].
  eexists _, _. split; [vm_compute; reflexivity|].
  repeat split.
Qed.

(** *** The gate of the semantic signal *)

Definition summaryWith (id : string) (embeddings : option (list (list Q)))
  : BookSummary :=
  mkBookSummary (lit id) None None 1 1 50 [] (lit "summary") embeddings.

(** A master index whose first summary has an empty [keywordEmbeddings]
    array and whose second summary has one embedding. *)
Definition gateIndex : MasterIndex :=
  mkMasterIndex (lit "1.0.0") 0 2 100
                [summaryWith "bookA" (Some []); summaryWith "bookB" (Some [[1%Q]])]
                [] [].

(** The same with a first summary that has no [keywordEmbeddings], and
    with the theme "joy" of the second book. *)
Definition closedIndex : MasterIndex :=
  mkMasterIndex (lit "1.0.0") 0 2 100
                [summaryWith "bookA" None; summaryWith "bookB" (Some [[1%Q]])]
                [] [(lit "joy", [mkBookReference (lit "bookB") 1])].

(** C10, counterexample: the first book summary of [gateIndex] has an
    empty [keywordEmbeddings] list; the semantic signal is computed all the
    same, and "bookB" is returned on its semantic score alone, 0.4 times a
    cosine of 1. *)
Lemma semantic_signal_with_empty_first_list :
  (exists rest, mi_books gateIndex = summaryWith "bookA" (Some []) :: rest)
  /\ exists b s,
       searchMasterIndex (Some gateIndex) (lit "hi") (Some [1%Q]) [] = Ok [b]
       /\ bk_bookId b = lit "bookB"
       /\ scoreIn (semanticMatches gateIndex (Some [1%Q])) (lit "bookB")
          = Num.Fin s
       /\ (s == 1)%Q
       /\ (bk_score b == 4 # 10)%Q.
Proof.
  split; [eexists; reflexivity|].
  eexists _, _. split; [vm_compute; reflexivity|].
  split; [reflexivity|]. split; [vm_compute; reflexivity|].
  split; reflexivity.
Qed.

(** C10, as amended: when the first book summary of the master index has
    no [keywordEmbeddings], no semantic score is computed, whatever the
    query embedding and the other summaries: the map of semantic scores is
    empty, and every book that Level 1 returns has
    [0.3 * lexical + 0.3 * thematic] as score.  Level 1 does return, for
    keywords under which the search index and the thematic map have a list
    or nothing. *)
Theorem level1_without_first_embeddings index first rest query
  queryEmbedding queryKeywords :
  mi_books index = first :: rest ->
  bs_keywordEmbeddings first = None ->
  Readable index queryKeywords ->
  semanticMatches index queryEmbedding = []
  /\ exists books,
       searchMasterIndex (Some index) query queryEmbedding queryKeywords
       = Ok books
       /\ Forall (fun b =>
                    exists l t,
                      scoreIn (lexicalMatches index queryKeywords) (bk_bookId b)
                      = Num.Fin l
                      /\ scoreIn (thematicMatches index queryKeywords)
                                 (bk_bookId b) = Num.Fin t
                      /\ (bk_score b == l * (3 # 10) + t * (3 # 10))%Q)
                 books.
Proof.
  intros Hb Hn Hr.
  assert (semanticGate index queryEmbedding = None) as G.
  { unfold semanticGate. rewrite Hb, Hn. now destruct queryEmbedding. }
  pose proof (semanticMatches_closed index queryEmbedding G) as S.
  split; [exact S|].
  destruct (searchMasterIndex_scores query queryEmbedding Hr)
    as (books & E & _ & H).
  exists books. split; [exact E|].
  eapply Forall_impl; [|exact H]. cbv beta. intros b Hscore.
  rewrite S, scoreIn_empty in Hscore.
  apply totalScore_Fin in Hscore as (l & t & s & -> & -> & Hs & ->).
  exists l, t. split; [reflexivity|]. split; [reflexivity|].
  inversion Hs; subst. ring.
Qed.

Lemma level1_without_first_embeddings_witness :
  mi_books closedIndex
  = summaryWith "bookA" None :: [summaryWith "bookB" (Some [[1%Q]])]
  /\ bs_keywordEmbeddings (summaryWith "bookA" None) = None
  /\ Readable closedIndex [lit "joy"]
  /\ semanticMatches closedIndex (Some [1%Q]) = []
  /\ exists books,
       searchMasterIndex (Some closedIndex) (lit "joy") (Some [1%Q])
                         [lit "joy"] = Ok books
       /\ Forall (fun b =>
                    exists l t,
                      scoreIn (lexicalMatches closedIndex [lit "joy"])
                              (bk_bookId b) = Num.Fin l
                      /\ scoreIn (thematicMatches closedIndex [lit "joy"])
                                 (bk_bookId b) = Num.Fin t
                      /\ (bk_score b == l * (3 # 10) + t * (3 # 10))%Q)
                 books.
Proof.
  assert (Readable closedIndex [lit "joy"]) as Hr
    by (apply Readable_plain; now repeat constructor).
  split; [reflexivity|]. split; [reflexivity|]. split; [exact Hr|].
  apply (@level1_without_first_embeddings closedIndex
           (summaryWith "bookA" None) [summaryWith "bookB" (Some [[1%Q]])]
           (lit "joy") (Some [1%Q]) [lit "joy"]);
    [reflexivity|reflexivity|exact Hr].
Defined.

End RouterClaims.

(* ================================================================= *)
(** ** Properties of the index builder *)

Module IndexProps.
Import JS Chunker Index IndexBuilder JSProps NumProps.

(** *** Related chunks *)

(** The candidates of a chunk are the other chunk indexes, of whatever
    book, whose similarity is a number above the threshold. *)
Lemma relatedCandidates_spec chunks chunk id q :
  In (id, q) (relatedCandidates chunks chunk) <->
  exists other,
    In other chunks
    /\ ci_chunkId other = id
    /\ id <> ci_chunkId chunk
    /\ similarity chunk other = Num.Fin q
    /\ (relatedThreshold < q)%Q.
Proof.
  unfold relatedCandidates. rewrite in_flat_map. split.
  - intros (other & Hin & H). exists other.
    destruct (ueqb (ci_chunkId other) (ci_chunkId chunk)) eqn:E; [destruct H|].
    apply ueqb_neq in E.
    destruct (similarity chunk other) as [s| | |]; try destruct H.
    destruct (Num.Qltb relatedThreshold s) eqn:L; [|destruct H].
    destruct H as [H|[]]. inversion H; subst.
    apply Qltb_lt in L. repeat split; assumption.
  - intros (other & Hin & <- & Hne & Hs & Hq). exists other.
    split; [exact Hin|].
    apply ueqb_neq in Hne. rewrite Hne, Hs.
    apply Qltb_lt in Hq. rewrite Hq. now left.
Qed.

Lemma findRelatedChunks_In chunkIndexes key ci :
  In (key, ci) (findRelatedChunks chunkIndexes) ->
  exists ci0,
    In (key, ci0) chunkIndexes
    /\ ci = setRelated ci0 (relatedOf (List.map snd chunkIndexes) ci0).
Proof.
  unfold findRelatedChunks. intros H.
  apply in_map_iff in H as ([k c] & E & Hin). cbn [fst snd] in E.
  inversion E; subst. now exists c.
Qed.

(** *** Erasing the build time *)

Definition eraseC (ci : ChunkIndex) : ChunkIndex :=
  mkChunkIndex (ci_chunkId ci) (ci_bookId ci) 0 (ci_reference ci)
               (ci_tokenCount ci) (ci_themes ci) (ci_keywords ci)
               (ci_citations ci) (ci_relatedChunks ci) (ci_embedding ci)
               (ci_bm25Vector ci).

Definition eraseB (bi : BookIndex) : BookIndex :=
  mkBookIndex (bi_bookId bi) (bi_title bi) (bi_hebrewTitle bi) 0
              (bi_sections bi) (bi_hierarchy bi) (bi_chunks bi)
              (bi_thematicMap bi) (bi_crossReferences bi) (bi_totalTokens bi).

Definition eraseM (mi : MasterIndex) : MasterIndex :=
  mkMasterIndex (mi_version mi) 0 (mi_totalBooks mi) (mi_totalTokens mi)
                (mi_books mi) (mi_searchIndex mi) (mi_thematicMap mi).

Definition eraseMap {V} (erase : V -> V) (o : Obj.t V) : Obj.t V :=
  List.map (fun e => (fst e, erase (snd e))) o.

(** Two runs of a loop over the same list, on two clocks, keep related
    states related. *)
Lemma foldT_related {A S} (R : S -> S -> Prop) (f1 f2 : S -> A -> Timed S) l :
  (forall s1 s2 a n1 n2,
      R s1 s2 -> R (fst (f1 s1 a n1)) (fst (f2 s2 a n2))) ->
  forall s1 s2 n1 n2,
    R s1 s2 -> R (fst (foldT f1 l s1 n1)) (fst (foldT f2 l s2 n2)).
Proof.
  intros Hf. induction l as [|a l IH]; intros s1 s2 n1 n2 Hs.
  - exact Hs.
  - cbn [foldT]. unfold bind.
    pose proof (Hf s1 s2 a n1 n2 Hs) as H.
    destruct (f1 s1 a n1) as [s1' n1'], (f2 s2 a n2) as [s2' n2'].
    now apply IH.
Qed.

Lemma relatedCandidates_erase chunks chunk :
  relatedCandidates (List.map eraseC chunks) (eraseC chunk)
  = relatedCandidates chunks chunk.
Proof.
  unfold relatedCandidates. rewrite flat_map_concat_map, map_map.
  now rewrite <- flat_map_concat_map.
Qed.

Lemma findRelatedChunks_erase chunkIndexes :
  eraseMap eraseC (findRelatedChunks chunkIndexes)
  = findRelatedChunks (eraseMap eraseC chunkIndexes).
Proof.
  unfold findRelatedChunks, eraseMap. rewrite !map_map. cbn [fst snd].
  apply map_ext. intros [k c]. cbn [fst snd]. f_equal.
  unfold relatedOf. rewrite <- (map_map snd eraseC).
  now rewrite relatedCandidates_erase.
Qed.


Definition SameChunkIndexes (m1 m2 : Obj.t ChunkIndex) : Prop :=
  eraseMap eraseC m1 = eraseMap eraseC m2.

Definition SameBookIndexes (m1 m2 : Obj.t BookIndex) : Prop :=
  eraseMap eraseB m1 = eraseMap eraseB m2.

Lemma addChunkIndex_related clock1 clock2 m1 m2 chunk n1 n2 :
  SameChunkIndexes m1 m2 ->
  SameChunkIndexes (fst (addChunkIndex clock1 m1 chunk n1))
                   (fst (addChunkIndex clock2 m2 chunk n2)).
Proof.
  unfold SameChunkIndexes, addChunkIndex, bind, newDate, ret, eraseMap.
  cbn [fst]. intros H. rewrite !set_map. now rewrite H.
Qed.

Lemma addBookChunks_related clock1 clock2 m1 m2 entry n1 n2 :
  SameChunkIndexes m1 m2 ->
  SameChunkIndexes (fst (addBookChunks clock1 m1 entry n1))
                   (fst (addBookChunks clock2 m2 entry n2)).
Proof.
  unfold addBookChunks. apply foldT_related.
  intros. now apply addChunkIndex_related.
Qed.

(** The chunk indexes of two builds differ in their build times only. *)
Lemma buildChunkIndexes_related clock1 clock2 chunksMap n1 n2 :
  SameChunkIndexes (fst (buildChunkIndexes clock1 chunksMap n1))
                   (fst (buildChunkIndexes clock2 chunksMap n2)).
Proof.
  unfold buildChunkIndexes, bind.
  pose proof (@foldT_related _ _ SameChunkIndexes
                (addBookChunks clock1) (addBookChunks clock2) chunksMap
                (fun s1 s2 a k1 k2 =>
                   @addBookChunks_related clock1 clock2 s1 s2 a k1 k2)
                [] [] n1 n2 eq_refl) as H.
  destruct (foldT (addBookChunks clock1) chunksMap [] n1) as [m1 k1].
  destruct (foldT (addBookChunks clock2) chunksMap [] n2) as [m2 k2].
  cbn [ret fst] in *. unfold SameChunkIndexes in *.
  rewrite !findRelatedChunks_erase. now rewrite H.
Qed.

(** *** The serialised size does not depend on the build time *)

Lemma jsonBookIndex_size floatLength bi :
  Json.length floatLength (jsonBookIndex bi)
  = Json.length floatLength (jsonBookIndex (eraseB bi)).
Proof.
  unfold jsonBookIndex, eraseB.
  cbn [bi_bookId bi_title bi_hebrewTitle bi_created bi_sections bi_hierarchy
       bi_chunks bi_thematicMap bi_crossReferences bi_totalTokens].
  destruct (bi_title bi), (bi_hebrewTitle bi); reflexivity.
Qed.

Lemma jsonMasterIndex_size floatLength mi :
  Json.length floatLength (jsonMasterIndex mi)
  = Json.length floatLength (jsonMasterIndex (eraseM mi)).
Proof. reflexivity. Qed.

Lemma buildBookIndex_erase now1 now2 book chunks cis1 cis2 :
  eraseB (buildBookIndex now1 book chunks cis1)
  = eraseB (buildBookIndex now2 book chunks cis2).
Proof.
  unfold buildBookIndex.
  destruct (buildHierarchy book (buildSectionInfo book chunks)).
  reflexivity.
Qed.

Lemma compressBookIndex_erase bi :
  eraseB (compressBookIndex bi) = compressBookIndex (eraseB bi).
Proof. reflexivity. Qed.

Lemma addBookIndex_related floatLength clock1 clock2 chunksMap cis1 cis2
  m1 m2 book n1 n2 :
  SameBookIndexes m1 m2 ->
  SameBookIndexes
    (fst (addBookIndex floatLength clock1 chunksMap cis1 m1 book n1))
    (fst (addBookIndex floatLength clock2 chunksMap cis2 m2 book n2)).
Proof.
  unfold SameBookIndexes, addBookIndex, bind, newDate, eraseMap.
  intros H. unfold estimateIndexSize.
  set (chunks := match Obj.get chunksMap (b_id book) with
                 | Some l => l
                 | None => []
                 end).
  set (b1 := buildBookIndex (clock1 n1) book chunks (chunkIndexesOf cis1 chunks)).
  set (b2 := buildBookIndex (clock2 n2) book chunks (chunkIndexesOf cis2 chunks)).
  assert (eraseB b1 = eraseB b2) as Hb by apply buildBookIndex_erase.
  rewrite (jsonBookIndex_size floatLength b1).
  rewrite (jsonBookIndex_size floatLength b2).
  rewrite Hb.
  destruct (_ >? 200000); cbn [ret fst]; rewrite !set_map, H.
  - now rewrite !compressBookIndex_erase, Hb.
  - now rewrite Hb.
Qed.

(** The book indexes of two builds differ in their build times only. *)
Lemma buildBookIndexes_related floatLength clock1 clock2 books chunksMap
  cis1 cis2 n1 n2 :
  SameBookIndexes
    (fst (buildBookIndexes floatLength clock1 books chunksMap cis1 n1))
    (fst (buildBookIndexes floatLength clock2 books chunksMap cis2 n2)).
Proof.
  unfold buildBookIndexes. apply foldT_related; [|reflexivity].
  intros. now apply addBookIndex_related.
Qed.

(** *** The master index *)

Lemma masterStep_erase bookIndexes st book :
  masterStep (eraseMap eraseB bookIndexes) st book
  = masterStep bookIndexes st book.
Proof.
  unfold masterStep, eraseMap. rewrite get_map.
  destruct (Obj.get bookIndexes (b_id book)); reflexivity.
Qed.

Lemma fold_left_ext {A B} (f g : A -> B -> A) l a :
  (forall x y, f x y = g x y) -> fold_left f l a = fold_left g l a.
Proof.
  intros H. revert a. induction l as [|y l IH]; intros a; cbn.
  - reflexivity.
  - now rewrite H, IH.
Qed.

Lemma masterLoop_related bis1 bis2 books st :
  SameBookIndexes bis1 bis2 ->
  fold_left (masterStep bis1) books st = fold_left (masterStep bis2) books st.
Proof.
  intros H.
  rewrite <- (fold_left_ext _ _ books st (masterStep_erase bis1)).
  rewrite <- (fold_left_ext _ _ books st (masterStep_erase bis2)).
  unfold SameBookIndexes in H. now rewrite H.
Qed.

Lemma finishMasterIndex_erase floatLength now1 now2 totalBooks st :
  eraseM (finishMasterIndex floatLength now1 totalBooks st)
  = eraseM (finishMasterIndex floatLength now2 totalBooks st).
Proof.
  unfold finishMasterIndex. cbv zeta. unfold estimateIndexSize.
  rewrite (jsonMasterIndex_size floatLength (mkMasterIndex _ now1 _ _ _ _ _)).
  rewrite (jsonMasterIndex_size floatLength (mkMasterIndex _ now2 _ _ _ _ _)).
  cbn [eraseM mi_version mi_totalBooks mi_totalTokens mi_books mi_searchIndex
       mi_thematicMap].
  destruct (_ >? 100000); reflexivity.
Qed.

(** The master indexes of two builds over book indexes that differ in
    their build times only differ in their build time only. *)
Lemma buildMasterIndex_related floatLength clock1 clock2 books bis1 bis2 n1 n2 :
  SameBookIndexes bis1 bis2 ->
  eraseM (fst (buildMasterIndex floatLength clock1 books bis1 n1))
  = eraseM (fst (buildMasterIndex floatLength clock2 books bis2 n2)).
Proof.
  intros H. unfold buildMasterIndex, bind, newDate, ret. cbn [fst].
  rewrite (masterLoop_related books _ H).
  apply finishMasterIndex_erase.
Qed.

End IndexProps.

(* ================================================================= *)
(** ** The index builder against its specification *)

Module IndexClaims.
Import JS Chunker Index IndexBuilder JSProps NumProps IndexProps.

(** C8: two runs of [buildAllIndexes] on the same books and chunks, on
    whatever clocks, return the same master index, the same book indexes
    and the same chunk indexes once the [created] fields are set aside. *)
Theorem buildAllIndexes_deterministic floatLength clock1 clock2 books
  chunksMap n1 n2 :
  eraseM (masterIndex (fst (buildAllIndexes floatLength clock1 books chunksMap n1)))
  = eraseM (masterIndex (fst (buildAllIndexes floatLength clock2 books chunksMap n2)))
  /\ eraseMap eraseB
       (bookIndexes (fst (buildAllIndexes floatLength clock1 books chunksMap n1)))
     = eraseMap eraseB
         (bookIndexes (fst (buildAllIndexes floatLength clock2 books chunksMap n2)))
  /\ eraseMap eraseC
       (chunkIndexes (fst (buildAllIndexes floatLength clock1 books chunksMap n1)))
     = eraseMap eraseC
         (chunkIndexes (fst (buildAllIndexes floatLength clock2 books chunksMap n2))).
Proof.
  unfold buildAllIndexes, bind.
  pose proof (buildChunkIndexes_related clock1 clock2 chunksMap n1 n2) as HC.
  destruct (buildChunkIndexes clock1 chunksMap n1) as [cis1 k1].
  destruct (buildChunkIndexes clock2 chunksMap n2) as [cis2 k2].
  cbn [fst] in HC.
  pose proof (buildBookIndexes_related floatLength clock1 clock2 books
                chunksMap cis1 cis2 k1 k2) as HB.
  destruct (buildBookIndexes floatLength clock1 books chunksMap cis1 k1)
    as [bis1 j1].
  destruct (buildBookIndexes floatLength clock2 books chunksMap cis2 k2)
    as [bis2 j2].
  cbn [fst] in HB.
  pose proof (buildMasterIndex_related floatLength clock1 clock2 books
                j1 j2 HB) as HM.
  destruct (buildMasterIndex floatLength clock1 books bis1 j1) as [mi1 i1].
  destruct (buildMasterIndex floatLength clock2 books bis2 j2) as [mi2 i2].
  cbn [fst ret masterIndex bookIndexes chunkIndexes] in *.
  repeat split; assumption.
Qed.

(** *** Related chunks *)





Lemma buildChunkIndexes_findRelated clock chunksMap n :
  fst (buildChunkIndexes clock chunksMap n)
  = findRelatedChunks (fst (foldT (addBookChunks clock) chunksMap [] n)).
Proof.
  unfold buildChunkIndexes, bind.
  now destruct (foldT (addBookChunks clock) chunksMap [] n).
Qed.

(** The score is the double that the code computes: with no common theme
    and three keywords of four in common it is [0 * 0.6 + 0.75 * 0.4], which
    rounds above the double [0.3], and the chunk is related. *)
Definition keyed (id : string) (themes keywords : list ustring) : ChunkIndex :=
  mkChunkIndex (lit id) (lit "book") 0 (lit "ref") 10 themes keywords
               [] [] None [].

Lemma related_at_rounded_threshold :
  exists ci,
    Obj.get (findRelatedChunks
               [ (lit "a", keyed "a" [lit "joy"]
                                 [lit "k1"; lit "k2"; lit "k3"; lit "k4"]);
                 (lit "b", keyed "b" [lit "faith"]
                                 [lit "k1"; lit "k2"; lit "k3"]) ])
            (lit "a") = Some ci
    /\ ci_relatedChunks ci = [lit "b"].
Proof. eexists. split; vm_compute; reflexivity. Qed.




End IndexClaims.

(* ================================================================= *)
(** ** Objects, sets of strings and decimal numerals *)

Module ObjProps.
Import JS JSProps NumProps.

(** *** Reading after writing *)

Lemma get_set_same {V} (o : Obj.t V) k v : Obj.get (Obj.set o k v) k = Some v.
Proof.
  induction o as [|[k' v'] o IH]; cbn [Obj.set Obj.get].
  - now rewrite ueqb_refl.
  - destruct (ueqb k k') eqn:E; cbn [Obj.get]; rewrite E; [reflexivity|exact IH].
Qed.

Lemma get_set_other {V} (o : Obj.t V) k k' v :
  k <> k' -> Obj.get (Obj.set o k v) k' = Obj.get o k'.
Proof.
  intros Hne. induction o as [|[k0 v0] o IH]; cbn [Obj.set Obj.get].
  - assert (ueqb k' k = false) as E by (apply ueqb_neq; congruence).
    now rewrite E.
  - destruct (ueqb k k0) eqn:E; cbn [Obj.get].
    + apply ueqb_eq in E. subst k0.
      assert (ueqb k' k = false) as E' by (apply ueqb_neq; congruence).
      now rewrite E'.
    + destruct (ueqb k' k0); [reflexivity|exact IH].
Qed.

Lemma get_In {V} (o : Obj.t V) k v : Obj.get o k = Some v -> In (k, v) o.
Proof.
  induction o as [|[k' v'] o IH]; cbn [Obj.get]; [discriminate|].
  destruct (ueqb k k') eqn:E.
  - apply ueqb_eq in E. intros H. inversion H; subst. now left.
  - intros H. right. now apply IH.
Qed.

Lemma get_None {V} (o : Obj.t V) k :
  Obj.get o k = None <-> ~ In k (List.map fst o).
Proof.
  induction o as [|[k' v'] o IH]; cbn [Obj.get List.map fst In]; [tauto|].
  destruct (ueqb k k') eqn:E.
  - apply ueqb_eq in E. subst. split; [discriminate|tauto].
  - apply ueqb_neq in E. rewrite IH. split; [|tauto].
    intros H [H'|H']; [congruence|tauto].
Qed.

Lemma get_Some_key {V} (o : Obj.t V) k v :
  Obj.get o k = Some v -> In k (List.map fst o).
Proof.
  intros H. apply get_In in H. apply in_map_iff. now exists (k, v).
Qed.

Lemma In_get {V} (o : Obj.t V) k v :
  NoDup (List.map fst o) -> In (k, v) o -> Obj.get o k = Some v.
Proof.
  induction o as [|[k' v'] o IH]; cbn [Obj.get List.map fst In]; [tauto|].
  intros Hnd [H|H].
  - inversion H; subst. now rewrite ueqb_refl.
  - inversion Hnd as [|? ? Hk Hnd']; subst.
    destruct (ueqb k k') eqn:E.
    + apply ueqb_eq in E. subst. exfalso. apply Hk.
      apply in_map_iff. now exists (k', v).
    + now apply IH.
Qed.

(** A key that is set keeps its place; a new key goes last. *)
Lemma keys_set {V} (o : Obj.t V) k v :
  List.map fst (Obj.set o k v)
  = if mem k (List.map fst o) then List.map fst o else List.map fst o ++ [k].
Proof.
  induction o as [|[k' v'] o IH]; cbn [Obj.set List.map fst mem existsb].
  - reflexivity.
  - unfold mem in *. cbn [existsb].
    destruct (ueqb k k') eqn:E; cbn [List.map fst orb].
    + reflexivity.
    + rewrite IH. now destruct (existsb (ueqb k) (List.map fst o)).
Qed.

Lemma NoDup_keys_set {V} (o : Obj.t V) k v :
  NoDup (List.map fst o) -> NoDup (List.map fst (Obj.set o k v)).
Proof.
  intros H. rewrite keys_set.
  destruct (mem k (List.map fst o)) eqn:E; [exact H|].
  assert (~ In k (List.map fst o)) as Hk.
  { intros Hin. apply mem_In in Hin. congruence. }
  apply NoDup_rev in H. rewrite <- rev_involutive. apply NoDup_rev.
  rewrite rev_app_distr. cbn. constructor; [|exact H].
  now rewrite <- in_rev.
Qed.

Lemma In_set {V} (o : Obj.t V) k v k' v' :
  In (k', v') (Obj.set o k v) -> In (k', v') o \/ (k' = k /\ v' = v).
Proof.
  induction o as [|[k0 v0] o IH]; cbn [Obj.set In].
  - intros [H|[]]. inversion H. now right.
  - destruct (ueqb k k0) eqn:E; cbn [In].
    + apply ueqb_eq in E. subst k0.
      intros [H|H]; [inversion H; now right|left; now right].
    + intros [H|H]; [left; now left|].
      destruct (IH H) as [H'|H']; [left; now right|now right].
Qed.

Lemma has_get {V} (o : Obj.t V) k :
  Obj.has o k = mem k (List.map fst o).
Proof.
  unfold Obj.has. destruct (Obj.get o k) as [v|] eqn:E.
  - symmetry. apply mem_In. eapply get_Some_key; eassumption.
  - apply get_None in E. destruct (mem k (List.map fst o)) eqn:M; [|reflexivity].
    apply mem_In in M. contradiction.
Qed.

(** *** [Object.entries] lists every property once *)

Lemma insertIndex_perm {V} (x : N * (ustring * V)) l :
  Permutation (Obj.insertIndex x l) (x :: l).
Proof.
  induction l as [|y l IH]; cbn [Obj.insertIndex]; [reflexivity|].
  destruct (fst y <? fst x)%N; [|reflexivity].
  rewrite IH. apply perm_swap.
Qed.

Lemma indexEntries_filter {V} (o : Obj.t V) :
  List.map snd (Obj.indexEntries o)
  = filter (fun e => match Obj.arrayIndex (fst e) with
                     | Some _ => true
                     | None => false
                     end) o.
Proof.
  unfold Obj.indexEntries.
  induction o as [|e o IH]; cbn [flat_map filter List.map]; [reflexivity|].
  destruct (Obj.arrayIndex (fst e)); cbn [List.map app snd]; now rewrite IH.
Qed.

Lemma filter_split_perm {A} (p : A -> bool) (l : list A) :
  Permutation (filter p l ++ filter (fun x => negb (p x)) l) l.
Proof.
  induction l as [|x l IH]; cbn [filter]; [reflexivity|].
  destruct (p x); cbn [negb app].
  - now constructor.
  - rewrite <- Permutation_middle. now constructor.
Qed.

Lemma entries_perm {V} (o : Obj.t V) : Permutation (Obj.entries o) o.
Proof.
  unfold Obj.entries.
  assert (Permutation
            (List.map snd (fold_right Obj.insertIndex [] (Obj.indexEntries o)))
            (List.map snd (Obj.indexEntries o))) as H.
  { apply Permutation_map.
    induction (Obj.indexEntries o) as [|x l IH]; cbn [fold_right]; [reflexivity|].
    rewrite insertIndex_perm. now constructor. }
  rewrite H, indexEntries_filter.
  set (p := fun e : ustring * V => match Obj.arrayIndex (fst e) with
                                   | Some _ => true
                                   | None => false
                                   end).
  rewrite (filter_ext (fun e => match Obj.arrayIndex (fst e) with
                                | Some _ => false
                                | None => true
                                end)
                      (fun e => negb (p e))).
  - apply filter_split_perm.
  - intros e. unfold p. now destruct (Obj.arrayIndex (fst e)).
Qed.

Lemma entries_In {V} (o : Obj.t V) e : In e (Obj.entries o) <-> In e o.
Proof.
  split; apply Permutation_in; [|symmetry]; apply entries_perm.
Qed.

Lemma entries_keys_NoDup {V} (o : Obj.t V) :
  NoDup (List.map fst o) -> NoDup (List.map fst (Obj.entries o)).
Proof.
  apply Permutation_NoDup. apply Permutation_map. symmetry. apply entries_perm.
Qed.

(** *** [[...new Set(l)]] *)

Lemma dedupAcc_In seen l x :
  In x (dedupAcc seen l) <-> In x l /\ ~ In x seen.
Proof.
  revert seen. induction l as [|y l IH]; intros seen; cbn [dedupAcc In].
  - tauto.
  - destruct (mem y seen) eqn:E.
    + apply mem_In in E. rewrite IH. split; [tauto|].
      intros [[H|H] Hn]; [subst; contradiction|tauto].
    + assert (~ In y seen) as Hy.
      { intros H. apply mem_In in H. congruence. }
      cbn [In]. rewrite IH. cbn [In]. split.
      * intros [H|[H Hn]]; [subst; tauto|tauto].
      * intros [[H|H] Hn]; [now left|].
        destruct (list_eq_dec N.eq_dec y x) as [->|Hne]; [now left|].
        right. split; [exact H|]. intros [H'|H']; [congruence|tauto].
Qed.

Lemma dedupAcc_NoDup seen l : NoDup (dedupAcc seen l).
Proof.
  revert seen. induction l as [|y l IH]; intros seen; cbn [dedupAcc].
  - constructor.
  - destruct (mem y seen); [apply IH|].
    constructor; [|apply IH].
    rewrite dedupAcc_In. cbn [In]. tauto.
Qed.

Lemma dedup_In l x : In x (dedup l) <-> In x l.
Proof. unfold dedup. rewrite dedupAcc_In. cbn [In]. tauto. Qed.

Lemma dedup_NoDup l : NoDup (dedup l).
Proof. apply dedupAcc_NoDup. Qed.

Lemma dedupAcc_snoc seen l x :
  dedupAcc seen (l ++ [x])
  = if mem x (seen ++ l) then dedupAcc seen l else dedupAcc seen l ++ [x].
Proof.
  revert seen. induction l as [|y l IH]; intros seen; cbn [dedupAcc app].
  - rewrite app_nil_r. now destruct (mem x seen).
  - destruct (mem y seen) eqn:E.
    + rewrite IH.
      assert (mem x (seen ++ y :: l) = mem x (seen ++ l)) as ->; [|reflexivity].
      apply mem_In in E.
      destruct (mem x (seen ++ l)) eqn:M.
      * apply mem_In. apply mem_In in M. apply in_app_iff in M.
        apply in_app_iff. cbn [In]. tauto.
      * destruct (mem x (seen ++ y :: l)) eqn:M'; [|reflexivity].
        apply mem_In in M'. apply in_app_iff in M'. cbn [In] in M'.
        assert (In x (seen ++ l)) as Hin.
        { apply in_app_iff. destruct M' as [H|[H|H]]; [tauto|subst; tauto|tauto]. }
        apply mem_In in Hin. congruence.
    + rewrite IH.
      assert (mem x ((y :: seen) ++ l) = mem x (seen ++ y :: l)) as ->.
      { destruct (mem x (seen ++ y :: l)) eqn:M.
        - apply mem_In. apply mem_In in M. apply in_app_iff in M.
          cbn [app In] in *. rewrite in_app_iff. tauto.
        - destruct (mem x ((y :: seen) ++ l)) eqn:M'; [|reflexivity].
          apply mem_In in M'. cbn [app In] in M'. rewrite in_app_iff in M'.
          assert (In x (seen ++ y :: l)) as Hin.
          { apply in_app_iff. cbn [In]. tauto. }
          apply mem_In in Hin. congruence. }
      now destruct (mem x (seen ++ y :: l)).
Qed.

Lemma dedup_snoc l x :
  dedup (l ++ [x]) = if mem x l then dedup l else dedup l ++ [x].
Proof. unfold dedup. now rewrite dedupAcc_snoc. Qed.

(** *** Sub-lists *)

Lemma NoDup_firstn {A} (n : nat) (l : list A) : NoDup l -> NoDup (firstn n l).
Proof.
  intros H. rewrite <- (firstn_skipn n l) in H.
  now apply NoDup_app_remove_r in H.
Qed.

Lemma NoDup_filter {A} (p : A -> bool) (l : list A) :
  NoDup l -> NoDup (filter p l).
Proof.
  induction 1 as [|x l Hx Hl IH]; cbn [filter]; [constructor|].
  destruct (p x); [|exact IH].
  constructor; [|exact IH]. rewrite filter_In. tauto.
Qed.

Lemma NoDup_map_filter {A B} (f : A -> B) (p : A -> bool) (l : list A) :
  NoDup (List.map f l) -> NoDup (List.map f (filter p l)).
Proof.
  induction l as [|x l IH]; cbn [filter List.map]; [constructor|].
  intros H. inversion H as [|? ? Hx Hl]; subst.
  destruct (p x); [|now apply IH].
  cbn [List.map]. constructor; [|now apply IH].
  intros Hin. apply Hx. apply in_map_iff in Hin as (y & E & Hy).
  apply in_map_iff. exists y. split; [exact E|].
  now apply filter_In in Hy.
Qed.

Lemma NoDup_map_firstn {A B} (f : A -> B) (n : nat) (l : list A) :
  NoDup (List.map f l) -> NoDup (List.map f (firstn n l)).
Proof. rewrite <- firstn_map. apply NoDup_firstn. Qed.

Lemma NoDup_map_sortDesc {A B} (f : A -> B) (score : A -> Q) (l : list A) :
  NoDup (List.map f l) -> NoDup (List.map f (Num.sortDesc score l)).
Proof.
  apply Permutation_NoDup. apply Permutation_map. symmetry.
  apply sortDesc_perm.
Qed.

(** *** Decimal numerals *)

Lemma lit_digits d :
  Forall (fun c => isDigit c = true) (lit (NilEmpty.string_of_uint d)).
Proof.
  unfold lit.
  induction d; cbn [NilEmpty.string_of_uint list_ascii_of_string List.map];
    constructor; try assumption; reflexivity.
Qed.

Lemma ofNat_digits n : Forall (fun c => isDigit c = true) (ofNat n).
Proof. apply lit_digits. Qed.

Lemma N_of_ascii_inj a b : N_of_ascii a = N_of_ascii b -> a = b.
Proof.
  intros H. rewrite <- (ascii_N_embedding a), <- (ascii_N_embedding b).
  now rewrite H.
Qed.

Lemma lit_inj s t : lit s = lit t -> s = t.
Proof.
  unfold lit. intros H.
  rewrite <- (string_of_list_ascii_of_string s),
          <- (string_of_list_ascii_of_string t).
  f_equal. revert H.
  generalize (list_ascii_of_string s) (list_ascii_of_string t).
  induction l as [|a l IH]; intros [|b l']; cbn [List.map]; try discriminate.
  - reflexivity.
  - intros H. inversion H as [[Ha Hl]].
    apply N_of_ascii_inj in Ha. subst. f_equal. now apply IH.
Qed.

Lemma ofNat_inj n m : ofNat n = ofNat m -> n = m.
Proof.
  unfold ofNat. intros H. apply lit_inj in H.
  apply DecimalNat.Unsigned.to_uint_inj.
  assert (NilEmpty.uint_of_string (NilEmpty.string_of_uint (Nat.to_uint n))
          = NilEmpty.uint_of_string (NilEmpty.string_of_uint (Nat.to_uint m)))
    as E by now rewrite H.
  rewrite !NilEmpty.usu in E. now inversion E.
Qed.

(** Two numerals followed by a character that is not a digit: when the
    texts agree, so do the numerals. *)
Lemma digits_prefix_inj (a b x y : ustring) (sep : N) :
  Forall (fun c => isDigit c = true) a ->
  Forall (fun c => isDigit c = true) b ->
  isDigit sep = false ->
  a ++ sep :: x = b ++ sep :: y -> a = b.
Proof.
  intros Ha. revert b. induction Ha as [|c a Hc Ha IH]; intros b Hb Hs E.
  - destruct b as [|d b]; [reflexivity|].
    cbn [app] in E. inversion E; subst.
    inversion Hb; subst. congruence.
  - destruct b as [|d b]; cbn [app] in E.
    + inversion E; subst. congruence.
    + inversion E; subst. inversion Hb; subst.
      f_equal. now apply IH.
Qed.

(** A text without a character of the pattern does not include it. *)
Lemma startsWith_In pat s c :
  startsWith pat s = true -> In c pat -> In c s.
Proof.
  revert s. induction pat as [|p pat IH]; intros s; cbn [startsWith In]; [tauto|].
  destruct s as [|d s]; [discriminate|].
  intros H [E|Hin]; apply andb_true_iff in H as [H1 H2].
  - apply N.eqb_eq in H1. subst. now left.
  - right. now apply IH.
Qed.

Lemma includes_In s pat c :
  includes s pat = true -> In c pat -> In c s.
Proof.
  induction s as [|d s IH]; cbn [includes]; intros H Hin.
  - rewrite orb_false_r in H. eapply startsWith_In; eassumption.
  - apply orb_true_iff in H as [H|H].
    + eapply startsWith_In; eassumption.
    + right. now apply IH.
Qed.

Lemma includes_absent s pat c :
  In c pat -> ~ In c s -> includes s pat = false.
Proof.
  intros Hin Hn. destruct (includes s pat) eqn:E; [|reflexivity].
  exfalso. apply Hn. eapply includes_In; eassumption.
Qed.

End ObjProps.

(* ================================================================= *)
(** ** The chunker: units, overlap contexts and chunk ids *)

Module ChunkerUnits.
Import JS Chunker ChunkerProps JSProps ObjProps.

(** *** The units of a book-type heuristic *)

(** The unit of index [k] that a heuristic builds: it is numbered [k + 1],
    opens with a section that passes the start test, holds no other such
    section, has the themes of its first section and the token sum of its
    sections. *)
Definition MarkedUnit (h : Heuristic) (k : nat) (u : SemanticUnit) : Prop :=
  u_id u = h_prefix h ++ ofNat (k + 1)
  /\ u_type u = h_type h
  /\ u_tokenCount u = sumSectionTokens (u_sections u)
  /\ exists s rest,
       u_sections u = s :: rest
       /\ h_isStart h s = true
       /\ forallb (fun x => negb (h_isStart h x)) rest = true
       /\ u_themes u = h_themes h (s_hebrewText s).

Definition MarkedState (h : Heuristic)
  (st : list SemanticUnit * option SemanticUnit) : Prop :=
  (forall k u, nth_error (fst st) k = Some u -> MarkedUnit h k u)
  /\ match snd st with
     | Some c => MarkedUnit h (length (fst st)) c
     | None => fst st = []
     end.

Definition unitCount (st : list SemanticUnit * option SemanticUnit) : nat :=
  length (fst st) + match snd st with Some _ => 1 | None => 0 end.

Lemma nth_error_snoc {A} (l : list A) (x : A) k y :
  nth_error (l ++ [x]) k = Some y ->
  nth_error l k = Some y \/ (k = length l /\ y = x).
Proof.
  intros H. destruct (Nat.lt_ge_cases k (length l)) as [L|L].
  - left. now rewrite nth_error_app1 in H.
  - right. rewrite nth_error_app2 in H by exact L.
    destruct (k - length l)%nat as [|j] eqn:E.
    + cbn in H. inversion H. split; [lia|reflexivity].
    + cbn in H. destruct j; discriminate.
Qed.

Lemma unitsStep_marked h st s :
  MarkedState h st ->
  MarkedState h (unitsStep h st s)
  /\ unitCount (unitsStep h st s)
     = (unitCount st + if h_isStart h s then 1 else 0)%nat.
Proof.
  destruct st as [units current]. intros [Hu Hc]. cbn [fst snd] in Hu, Hc.
  unfold unitsStep. destruct (h_isStart h s) eqn:E.
  - assert (forall k u,
              nth_error (match current with
                         | Some c => units ++ [c]
                         | None => units
                         end) k = Some u -> MarkedUnit h k u) as Hu'.
    { destruct current as [c|]; [|exact Hu].
      intros k u H. apply nth_error_snoc in H as [H|[-> ->]]; [now apply Hu|].
      exact Hc. }
    split.
    + split; cbn [fst snd]; [exact Hu'|].
      unfold MarkedUnit. cbn [u_id u_type u_sections u_tokenCount u_themes].
      split; [reflexivity|]. split; [reflexivity|].
      split; [now rewrite sumSectionTokens_one|].
      exists s, []. now repeat split.
    + unfold unitCount. cbn [fst snd].
      destruct current; [rewrite length_app; cbn [length]|]; lia.
  - destruct current as [c|].
    + split.
      * split; cbn [fst snd]; [exact Hu|].
        destruct Hc as (Hid & Hty & Htok & s0 & rest & Hs & H0 & Hrest & Hth).
        split; [exact Hid|]. split; [exact Hty|]. cbn [u_sections u_tokenCount u_themes].
        split; [rewrite sumSectionTokens_app, sumSectionTokens_one; lia|].
        exists s0, (rest ++ [s]). rewrite Hs. split; [reflexivity|].
        split; [exact H0|]. split; [|exact Hth].
        rewrite forallb_app, Hrest. cbn. now rewrite E.
      * unfold unitCount. cbn [fst snd]. lia.
    + split; [now split|]. unfold unitCount. cbn [fst snd]. lia.
Qed.

Lemma unitsFold_marked h secs st :
  MarkedState h st ->
  MarkedState h (fold_left (unitsStep h) secs st)
  /\ unitCount (fold_left (unitsStep h) secs st)
     = (unitCount st + length (filter (h_isStart h) secs))%nat.
Proof.
  revert st. induction secs as [|s secs IH]; intros st H; cbn [fold_left filter].
  - split; [exact H|]. cbn [length]. lia.
  - destruct (unitsStep_marked s H) as [H1 C1].
    destruct (IH _ H1) as [H2 C2]. split; [exact H2|].
    rewrite C2, C1. destruct (h_isStart h s); cbn [length]; lia.
Qed.

(** The units of a heuristic: one per section that passes the start test,
    each as [MarkedUnit] says. *)
Lemma unitsLoop_marked h secs :
  length (unitsLoop h secs) = length (filter (h_isStart h) secs)
  /\ forall k u, nth_error (unitsLoop h secs) k = Some u -> MarkedUnit h k u.
Proof.
  unfold unitsLoop.
  assert (MarkedState h ([], None)) as H0.
  { split; cbn [fst snd]; [|reflexivity]. intros [|k] u H; discriminate. }
  destruct (unitsFold_marked secs H0) as [[Hu Hc] C].
  destruct (fold_left (unitsStep h) secs ([], None)) as [units [c|]];
    unfold unitCount in C; cbn [fst snd length] in *.
  - split; [rewrite length_app; cbn [length]; lia|].
    intros k u H. apply nth_error_snoc in H as [H|[-> ->]]; [now apply Hu|].
    exact Hc.
  - split; [lia|exact Hu].
Qed.

(** *** The units of the default grouping *)

(** The unit of index [k] of the default grouping: the sections [10 k] to
    [10 k + 9] of the book. *)
Definition TenthUnit (sections : list BookSection) (k : nat) (u : SemanticUnit)
  : Prop :=
  u_id u = lit "unit_" ++ ofNat (k + 1)
  /\ u_type u = section
  /\ u_sections u = firstn 10 (skipn (10 * k) sections)
  /\ u_tokenCount u = sumSectionTokens (u_sections u)
  /\ u_themes u
     = extractThemes (join (lit " ") (List.map s_hebrewText (u_sections u))).

Lemma tenths_step (n i : nat) :
  (i < n)%nat -> ((n - i + 9) / 10 = 1 + (n - (i + 10) + 9) / 10)%nat.
Proof.
  intros H.
  destruct (Nat.le_gt_cases (i + 10) n) as [L|L].
  - replace (n - i + 9)%nat with (1 * 10 + (n - (i + 10) + 9))%nat by lia.
    rewrite Nat.div_add_l by lia. reflexivity.
  - replace (n - (i + 10))%nat with 0%nat by lia.
    assert (n - i + 9 < 20)%nat by lia. assert (10 <= n - i + 9)%nat by lia.
    cbn [Nat.add].
    generalize dependent (n - i + 9)%nat. intros m H1 H2.
    change (9 / 10)%nat with 0%nat.
    replace m with (1 * 10 + (m - 10))%nat by lia.
    rewrite Nat.div_add_l by lia. rewrite Nat.div_small by lia. reflexivity.
Qed.

Lemma tenths_done (n i : nat) : (n <= i)%nat -> ((n - i + 9) / 10 = 0)%nat.
Proof.
  intros H. replace (n - i)%nat with 0%nat by lia. reflexivity.
Qed.

Lemma defaultLoop_tenths fuel sections i units :
  (length sections - i <= fuel)%nat ->
  i = (10 * length units)%nat ->
  (forall k u, nth_error units k = Some u -> TenthUnit sections k u) ->
  length (defaultLoop fuel sections i units)
  = (length units + (length sections - i + 9) / 10)%nat
  /\ forall k u,
       nth_error (defaultLoop fuel sections i units) k = Some u ->
       TenthUnit sections k u.
Proof.
  revert i units. induction fuel as [|fuel IH]; intros i units Hf Hi Hu;
    cbn [defaultLoop].
  - split; [|exact Hu]. rewrite tenths_done by lia. lia.
  - destruct (i <? length sections)%nat eqn:E.
    + apply Nat.ltb_lt in E.
      edestruct (IH (i + sectionsPerUnit)%nat) as [Hlen Hall];
        [| |shelve|split; [|exact Hall]].
      * unfold sectionsPerUnit. lia.
      * rewrite length_app. cbn [length]. unfold sectionsPerUnit. lia.
      * rewrite Hlen, length_app. cbn [length]. unfold sectionsPerUnit.
        rewrite (tenths_step E). lia.
    + apply Nat.ltb_ge in E. split; [|exact Hu].
      rewrite tenths_done by lia. lia.
  Unshelve.
  intros k u H. apply nth_error_snoc in H as [H|[-> ->]]; [now apply Hu|].
  unfold slice, sectionsPerUnit.
  replace (i + 10 - i)%nat with 10%nat by lia. rewrite Hi.
  repeat split.
Qed.

Lemma identifyDefaultUnits_tenths book :
  length (identifyDefaultUnits book) = ((length (b_sections book) + 9) / 10)%nat
  /\ forall k u,
       nth_error (identifyDefaultUnits book) k = Some u ->
       TenthUnit (b_sections book) k u.
Proof.
  unfold identifyDefaultUnits.
  destruct (@defaultLoop_tenths (length (b_sections book)) (b_sections book)
              0%nat []) as [Hlen Hall].
  - lia.
  - reflexivity.
  - intros [|k] u H; discriminate.
  - split; [|exact Hall]. rewrite Hlen. cbn [length].
    now rewrite Nat.sub_0_r.
Qed.

(** *** The overlap context *)

Lemma estimateTokens_chars text :
  Z.of_nat (length text) <= 4 * estimateTokens text.
Proof.
  unfold estimateTokens.
  Z.to_euclidean_division_equations. lia.
Qed.

(** The characters kept of a text that does not fit are at most four per
    token that is left. *)
Lemma partialChars_le text budget tokens :
  tokens <= budget ->
  budget < tokens + estimateTokens text ->
  Z.of_nat (partialChars text budget tokens (estimateTokens text))
  <= 4 * (budget - tokens).
Proof.
  intros Hle Hgt. unfold partialChars.
  pose proof (estimateTokens_chars text) as Hc.
  set (len := Z.of_nat (length text)) in *.
  set (tt := estimateTokens text) in *.
  assert (0 < tt) as Hpos by lia.
  assert (len * (budget - tokens) / tt <= 4 * (budget - tokens)) as Hq.
  { apply Z.div_le_upper_bound; [exact Hpos|]. nia. }
  rewrite Z2Nat.id by lia. lia.
Qed.

Lemma length_substring_le (s : ustring) n : (length (substring s 0 n) <= n)%nat.
Proof.
  unfold substring. rewrite length_firstn. lia.
Qed.

Lemma contextStart_length texts budget context tokens :
  tokens <= budget ->
  Z.of_nat (length (contextStart texts budget context tokens))
  <= Z.of_nat (length context) + 4 * (budget - tokens)
     + Z.of_nat (length texts) + 3.
Proof.
  revert context tokens. induction texts as [|text rest IH];
    intros context tokens Hle; cbn [contextStart length].
  - lia.
  - pose proof (estimateTokens_chars text) as Hc.
    pose proof (estimateTokens_nonneg text) as Hn.
    destruct (tokens + estimateTokens text >? budget) eqn:E.
    + rewrite Z.gtb_ltb in E. apply Z.ltb_lt in E.
      pose proof (partialChars_le text Hle E) as Hp.
      pose proof (length_substring_le text
                    (partialChars text budget tokens (estimateTokens text))) as Hs.
      rewrite !length_app. cbn [lit length list_ascii_of_string List.map]. lia.
    + rewrite Z.gtb_ltb in E. apply Z.ltb_ge in E.
      specialize (IH (context ++ text ++ [10%N]) (tokens + estimateTokens text) E).
      rewrite !length_app in IH. cbn [length] in IH. lia.
Qed.

Lemma contextEnd_length revTexts budget context tokens :
  tokens <= budget ->
  Z.of_nat (length (contextEnd revTexts budget context tokens))
  <= Z.of_nat (length context) + 4 * (budget - tokens)
     + Z.of_nat (length revTexts) + 3.
Proof.
  revert context tokens. induction revTexts as [|text rest IH];
    intros context tokens Hle; cbn [contextEnd length].
  - lia.
  - pose proof (estimateTokens_chars text) as Hc.
    pose proof (estimateTokens_nonneg text) as Hn.
    destruct (tokens + estimateTokens text >? budget) eqn:E.
    + rewrite Z.gtb_ltb in E. apply Z.ltb_lt in E.
      pose proof (partialChars_le text Hle E) as Hp.
      rewrite !length_app, length_skipn.
      cbn [lit length list_ascii_of_string List.map]. lia.
    + rewrite Z.gtb_ltb in E. apply Z.ltb_ge in E.
      specialize (IH (text ++ [10%N] ++ context) (tokens + estimateTokens text) E).
      rewrite !length_app in IH. cbn [length] in IH. lia.
Qed.

(** The texts of a group, each followed by a line feed. *)
Definition wholeContext (texts : list ustring) : ustring :=
  concat (List.map (fun text => text ++ [10%N]) texts).

Definition textTokens (texts : list ustring) : Z :=
  fold_right (fun text sum => estimateTokens text + sum) 0 texts.

Lemma textTokens_cons t texts :
  textTokens (t :: texts) = estimateTokens t + textTokens texts.
Proof. reflexivity. Qed.

Lemma textTokens_nonneg texts : 0 <= textTokens texts.
Proof.
  induction texts as [|t texts IH]; [cbn; lia|].
  rewrite textTokens_cons. pose proof (estimateTokens_nonneg t). lia.
Qed.

Lemma textTokens_app a b : textTokens (a ++ b) = textTokens a + textTokens b.
Proof.
  induction a as [|t a IH]; [reflexivity|].
  cbn [app]. rewrite !textTokens_cons, IH. lia.
Qed.

Lemma contextStart_whole texts budget context tokens :
  tokens + textTokens texts <= budget ->
  contextStart texts budget context tokens = context ++ wholeContext texts.
Proof.
  revert context tokens. induction texts as [|text rest IH];
    intros context tokens H; cbn [contextStart].
  - unfold wholeContext. cbn. now rewrite app_nil_r.
  - rewrite textTokens_cons in H.
    pose proof (textTokens_nonneg rest) as Hn.
    destruct (tokens + estimateTokens text >? budget) eqn:E.
    + rewrite Z.gtb_ltb in E. apply Z.ltb_lt in E. lia.
    + rewrite IH by lia.
      unfold wholeContext. cbn [List.map concat]. now rewrite <- !app_assoc.
Qed.

Lemma contextEnd_whole revTexts budget context tokens :
  tokens + textTokens revTexts <= budget ->
  contextEnd revTexts budget context tokens
  = wholeContext (rev revTexts) ++ context.
Proof.
  revert context tokens. induction revTexts as [|text rest IH];
    intros context tokens H; cbn [contextEnd rev].
  - reflexivity.
  - rewrite textTokens_cons in H.
    pose proof (textTokens_nonneg rest) as Hn.
    destruct (tokens + estimateTokens text >? budget) eqn:E.
    + rewrite Z.gtb_ltb in E. apply Z.ltb_lt in E. lia.
    + rewrite IH by lia.
      unfold wholeContext. rewrite map_app, concat_app. cbn [List.map concat].
      now rewrite app_nil_r, <- !app_assoc.
Qed.

Lemma textTokens_rev texts : textTokens (rev texts) = textTokens texts.
Proof.
  induction texts as [|t texts IH]; cbn [rev]; [reflexivity|].
  rewrite textTokens_app, IH, !textTokens_cons. cbn. lia.
Qed.

End ChunkerUnits.

(* ================================================================= *)
(** ** The chunker: from the groups to the chunks *)

Module ChunkerChunks.
Import JS Chunker ChunkerProps JSProps ObjProps ChunkerUnits.

(** [mapM] over consecutive indexes gives one result per index. *)
Lemma mapM_seq_nth {B} (f : nat -> option B) n :
  forall start bs,
  mapM f (seq start n) = Some bs ->
  length bs = n
  /\ forall i b, nth_error bs i = Some b -> f (start + i)%nat = Some b.
Proof.
  induction n as [|n IH]; intros start bs H; cbn [seq mapM] in H.
  - inversion H; subst. split; [reflexivity|]. intros [|i] b Hb; discriminate.
  - destruct (f start) as [b0|] eqn:E0; cbn [obind] in H; [|discriminate].
    destruct (mapM f (seq (S start) n)) as [bs'|] eqn:E; cbn [obind] in H;
      [|discriminate].
    inversion H; subst. destruct (IH _ _ E) as [Hlen Hnth].
    split; [cbn [length]; now rewrite Hlen|].
    intros [|i] b Hb; cbn [nth_error] in Hb.
    + inversion Hb; subst. now rewrite Nat.add_0_r.
    + rewrite <- Nat.add_succ_comm. now apply Hnth.
Qed.

(** What a chunk owes to the call that built it. *)
Lemma createChunk_fields md5hex8 extractCitations bookId g i prev next options c :
  createChunk md5hex8 extractCitations bookId g i prev next options = Some c ->
  c_id c = generateChunkId md5hex8 bookId i (c_hebrew c)
  /\ c_bookId c = bookId
  /\ (exists u0, hd_error g = Some u0 /\ c_sectionId c = u_id u0)
  /\ c_themes c = extractUniqueThemes g
  /\ c_before c
     = match prev with
       | Some pu =>
           nonEmpty (getOverlapContext pu
                       (Qfloor (inject_Z (maxTokens options)
                                * overlapRatio options)) atEnd)
       | None => None
       end
  /\ c_after c
     = match next with
       | Some nu =>
           nonEmpty (getOverlapContext nu
                       (Qfloor (inject_Z (maxTokens options)
                                * overlapRatio options)) atStart)
       | None => None
       end.
Proof.
  unfold createChunk.
  destruct (extractCitations _) as [citations|]; cbn [obind]; [|discriminate].
  destruct (hd_error g) as [u0|] eqn:E0; cbn [obind]; [|discriminate].
  destruct (generateReference bookId g) as [ref|]; cbn [obind]; [|discriminate].
  destruct (hd_error (flat_map u_sections g)) as [sf|]; cbn [obind];
    [|discriminate].
  destruct (hd_error (rev (flat_map u_sections g))) as [sl|]; cbn [obind];
    [|discriminate].
  intros H. inversion H; subst; clear H.
  cbn [c_id c_bookId c_sectionId c_themes c_before c_after c_hebrew].
  split; [reflexivity|]. split; [reflexivity|].
  split; [now exists u0|]. split; [reflexivity|].
  split; [now destruct prev|now destruct next].
Qed.

(** The chunk of index [i] is built from the group of index [i], with the
    groups before and after it. *)
Lemma chunksOfGroups_nth md5hex8 extractCitations bookId groups options chunks :
  chunksOfGroups md5hex8 extractCitations bookId groups options = Some chunks ->
  length chunks = length groups
  /\ forall i c,
       nth_error chunks i = Some c ->
       exists g,
         nth_error groups i = Some g
         /\ createChunk md5hex8 extractCitations bookId g i (before groups i)
                        (nth_error groups (i + 1)) options = Some c.
Proof.
  unfold chunksOfGroups. intros H.
  apply mapM_seq_nth in H as [Hlen Hnth]. split; [exact Hlen|].
  intros i c Hc. specialize (Hnth i c Hc). cbn [Nat.add] in Hnth.
  destruct (nth_error groups i) as [g|]; cbn [obind] in Hnth; [|discriminate].
  now exists g.
Qed.

Lemma generateChunkId_inj md5hex8 bookId i j x y :
  generateChunkId md5hex8 bookId i x = generateChunkId md5hex8 bookId j y ->
  i = j.
Proof.
  unfold generateChunkId. intros H.
  apply app_inv_head in H. apply app_inv_head in H.
  apply ofNat_inj.
  apply (@digits_prefix_inj (ofNat i) (ofNat j)
           (md5hex8 (substring x 0 100)) (md5hex8 (substring y 0 100)) 95%N);
    try apply ofNat_digits; [reflexivity|].
  exact H.
Qed.

Lemma chunksOfGroups_ids md5hex8 extractCitations bookId groups options chunks :
  chunksOfGroups md5hex8 extractCitations bookId groups options = Some chunks ->
  NoDup (List.map c_id chunks).
Proof.
  intros H. destruct (chunksOfGroups_nth _ _ _ _ _ H) as [_ Hnth].
  apply NoDup_nth_error. intros i j Hi E.
  rewrite length_map in Hi.
  rewrite !nth_error_map in E.
  destruct (nth_error chunks i) as [ci|] eqn:Ei;
    [|apply nth_error_None in Ei; lia].
  destruct (nth_error chunks j) as [cj|] eqn:Ej; [|discriminate].
  cbn [option_map] in E. inversion E as [Eid].
  destruct (Hnth i ci Ei) as (gi & _ & Ci).
  destruct (Hnth j cj Ej) as (gj & _ & Cj).
  apply createChunk_fields in Ci as (Ii & _). apply createChunk_fields in Cj as (Ij & _).
  rewrite Ii, Ij in Eid. eapply generateChunkId_inj; eassumption.
Qed.

(** *** What grouping keeps of the units *)

Lemma splitStep_partOf unit options st s :
  Forall (fun p => exists n secs t, p = partOf unit n secs t) (sp_chunks st) ->
  Forall (fun p => exists n secs t, p = partOf unit n secs t)
         (sp_chunks (splitStep unit options st s)).
Proof.
  intros H. unfold splitStep. destruct (_ && _); cbn [sp_chunks]; [|exact H].
  apply Forall_app. split; [exact H|]. constructor; [|constructor]. eauto.
Qed.

Lemma splitLargeUnit_partOf unit options :
  Forall (fun p => exists n secs t, p = partOf unit n secs t)
         (splitLargeUnit unit options).
Proof.
  unfold splitLargeUnit.
  assert (forall secs st,
            Forall (fun p => exists n secs t, p = partOf unit n secs t)
                   (sp_chunks st) ->
            Forall (fun p => exists n secs t, p = partOf unit n secs t)
                   (sp_chunks (fold_left (splitStep unit options) secs st))) as Hf.
  { induction secs as [|s secs IH]; intros st H; cbn [fold_left]; [exact H|].
    apply IH. now apply splitStep_partOf. }
  specialize (Hf (u_sections unit) (mkSplit [] [] 0) (Forall_nil _)).
  destruct (0 <? length _)%nat; [|exact Hf].
  apply Forall_app. split; [exact Hf|]. constructor; [|constructor]. eauto.
Qed.

(** A property of units that the parts of a unit inherit holds of every
    unit of every group. *)
Lemma groupUnitsIntoChunks_Forall (P : SemanticUnit -> Prop) options units :
  (forall u n secs t, P u -> P (partOf u n secs t)) ->
  Forall P units ->
  Forall (Forall P) (groupUnitsIntoChunks units options).
Proof.
  intros Hpart Hu.
  assert (forall u, P u -> Forall (Forall P)
                             (List.map (fun p => [p]) (splitLargeUnit u options)))
    as Hsplit.
  { intros u Pu. apply Forall_map.
    eapply Forall_impl; [|apply splitLargeUnit_partOf].
    intros p (n & secs & t & ->). constructor; [|constructor].
    now apply Hpart. }
  assert (forall us st,
            Forall P us ->
            Forall (Forall P) (g_groups st) -> Forall P (g_currentGroup st) ->
            Forall (Forall P) (g_groups (fold_left (groupStep options) us st))
            /\ Forall P (g_currentGroup (fold_left (groupStep options) us st)))
    as Hloop.
  { induction us as [|u us IH]; intros st Hus Hg Hc; cbn [fold_left];
      [now split|].
    inversion Hus as [|? ? Pu Hus']; subst.
    apply IH; [exact Hus'| |]; unfold groupStep, flushCurrent;
      destruct (u_tokenCount u >? maxTokens options);
      try destruct (g_currentTokens st + u_tokenCount u >? maxTokens options);
      try destruct (0 <? length (g_currentGroup st))%nat;
      cbn [g_groups g_currentGroup];
      repeat (apply Forall_app; split);
      try assumption; try (now apply Hsplit);
      try (constructor; [assumption|constructor]); try constructor. }
  destruct (Hloop units (mkGroup [] [] 0) Hu (Forall_nil _) (Forall_nil _))
    as [Hg Hc].
  unfold groupUnitsIntoChunks.
  set (st := fold_left (groupStep options) units (mkGroup [] [] 0)) in *.
  destruct (0 <? length (g_currentGroup st))%nat; [|exact Hg].
  assert (Forall (Forall P) (g_groups st ++ [g_currentGroup st])) as Hpush.
  { apply Forall_app. split; [exact Hg|]. constructor; [exact Hc|constructor]. }
  destruct (_ && _) eqn:E2; [|exact Hpush].
  apply andb_true_iff in E2 as [_ Hne]. apply length_pos_iff in Hne.
  destruct (_ <=? _); [|exact Hpush].
  apply Forall_app. split; [now apply Forall_removelast|].
  constructor; [|constructor]. apply Forall_app. split; [|exact Hc].
  now apply Forall_last.
Qed.

(** *** Ids and themes of the units of a book *)

(** The characters of the ids that the chunker makes up: lower-case
    letters, digits and the underscore. *)
Definition isIdChar (c : N) : bool :=
  ((c =? 95) || isDigit c || ((97 <=? c) && (c <=? 122)))%N.

Definition PlainId (s : ustring) : Prop := Forall (fun c => isIdChar c = true) s.

(** The theme names of the two tables of the chunker. *)
Definition themeNames : list ustring :=
  List.map fst themeKeywords ++ List.map fst prayerThemes.

Definition KnownThemes (l : list ustring) : Prop :=
  Forall (fun t => In t themeNames) l.

Definition PlainUnit (u : SemanticUnit) : Prop :=
  PlainId (u_id u) /\ KnownThemes (u_themes u).

Lemma PlainId_app a b : PlainId a -> PlainId b -> PlainId (a ++ b).
Proof. intros Ha Hb. apply Forall_app. now split. Qed.

Lemma PlainId_ofNat n : PlainId (ofNat n).
Proof.
  eapply Forall_impl; [|apply ofNat_digits].
  intros c H. unfold isIdChar. rewrite H. now rewrite orb_true_r.
Qed.

Lemma PlainId_lit_check s :
  forallb isIdChar (lit s) = true -> PlainId (lit s).
Proof. intros H. apply Forall_forall. now apply forallb_forall. Qed.

Lemma matchThemes_known table text :
  incl (List.map fst table) themeNames ->
  KnownThemes (matchThemes table text).
Proof.
  intros Hincl. apply Forall_forall. intros t Ht. apply Hincl.
  unfold matchThemes in Ht. apply in_map_iff in Ht as (e & <- & He).
  apply in_map. now apply filter_In in He.
Qed.

Lemma extractThemes_known text : KnownThemes (extractThemes text).
Proof.
  apply matchThemes_known. unfold themeNames. apply incl_appl, incl_refl.
Qed.

Lemma extractPrayerThemes_known text : KnownThemes (extractPrayerThemes text).
Proof.
  unfold extractPrayerThemes. apply Forall_forall. intros t Ht.
  rewrite dedup_In in Ht. apply in_app_iff in Ht as [Ht|Ht].
  - pose proof (extractThemes_known text) as H. unfold KnownThemes in H.
    rewrite Forall_forall in H. now apply H.
  - assert (KnownThemes (matchThemes prayerThemes text)) as H.
    { apply matchThemes_known. unfold themeNames. apply incl_appr, incl_refl. }
    unfold KnownThemes in H. rewrite Forall_forall in H. now apply H.
Qed.

Lemma PlainUnit_partOf u n secs t : PlainUnit u -> PlainUnit (partOf u n secs t).
Proof.
  intros [Hid Hth]. split; cbn [partOf u_id u_themes]; [|exact Hth].
  apply PlainId_app; [exact Hid|]. apply PlainId_app; [|apply PlainId_ofNat].
  now apply PlainId_lit_check.
Qed.

Lemma unitsLoop_plain h secs :
  PlainId (h_prefix h) ->
  (forall text, KnownThemes (h_themes h text)) ->
  Forall PlainUnit (unitsLoop h secs).
Proof.
  intros Hp Ht. destruct (unitsLoop_marked h secs) as [_ H].
  apply Forall_forall. intros u Hu.
  apply In_nth_error in Hu as (k & Hk).
  destruct (H k u Hk) as (Hid & _ & _ & s & rest & _ & _ & _ & Hth).
  split.
  - rewrite Hid. apply PlainId_app; [exact Hp|apply PlainId_ofNat].
  - rewrite Hth. apply Ht.
Qed.

Lemma identifySemanticUnits_plain book :
  Forall PlainUnit (identifySemanticUnits book).
Proof.
  unfold identifySemanticUnits.
  destruct (includes (b_id book) (lit "likutey_moharan")).
  { apply unitsLoop_plain; [now apply PlainId_lit_check|apply extractThemes_known]. }
  destruct (includes (b_id book) (lit "sippurei_maasiyot")).
  { apply unitsLoop_plain; [now apply PlainId_lit_check|apply extractThemes_known]. }
  destruct (includes (b_id book) (lit "tefilot")).
  { apply unitsLoop_plain;
      [now apply PlainId_lit_check|apply extractPrayerThemes_known]. }
  destruct (identifyDefaultUnits_tenths book) as [_ H].
  apply Forall_forall. intros u Hu.
  apply In_nth_error in Hu as (k & Hk).
  destruct (H k u Hk) as (Hid & _ & _ & _ & Hth). split.
  - rewrite Hid. apply PlainId_app; [now apply PlainId_lit_check|apply PlainId_ofNat].
  - rewrite Hth. apply extractThemes_known.
Qed.

(** A chunk whose section id and themes are those of plain units. *)
Definition PlainChunk (c : Chunk) : Prop :=
  PlainId (c_sectionId c) /\ KnownThemes (c_themes c).

Lemma extractUniqueThemes_known g :
  Forall PlainUnit g -> KnownThemes (extractUniqueThemes g).
Proof.
  intros H. apply Forall_forall. intros t Ht.
  unfold extractUniqueThemes in Ht. rewrite dedup_In in Ht.
  apply in_flat_map in Ht as (u & Hu & Ht).
  rewrite Forall_forall in H. destruct (H u Hu) as [_ Hk].
  unfold KnownThemes in Hk. rewrite Forall_forall in Hk. now apply Hk.
Qed.

Lemma chunkBook_plain md5hex8 extractCitations book options chunks :
  chunkBook md5hex8 extractCitations book options = Some chunks ->
  Forall PlainChunk chunks.
Proof.
  unfold chunkBook. intros H.
  destruct (chunksOfGroups_nth _ _ _ _ _ H) as [_ Hnth].
  pose proof (groupUnitsIntoChunks_Forall (mergeOptions options)
                PlainUnit_partOf (identifySemanticUnits_plain book)) as Hg.
  apply Forall_forall. intros c Hc.
  apply In_nth_error in Hc as (i & Hi).
  destruct (Hnth i c Hi) as (g & Hgi & Hcreate).
  apply createChunk_fields in Hcreate as (_ & _ & (u0 & Hu0 & Hsid) & Hth & _).
  rewrite Forall_forall in Hg.
  pose proof (Hg g (nth_error_In _ _ Hgi)) as Pg.
  split.
  - rewrite Hsid. destruct g as [|u g]; [discriminate|].
    cbn in Hu0. inversion Hu0; subst. now inversion Pg as [|? ? [Hid _] _].
  - rewrite Hth. now apply extractUniqueThemes_known.
Qed.

End ChunkerChunks.

(* ================================================================= *)
(** ** The index builder: words, keywords and thematic maps *)

Module IndexWords.
Import JS Chunker Index IndexBuilder JSProps NumProps ObjProps.

(** The number of occurrences of a string in a list. *)
Definition occurrences (items : list ustring) (w : ustring) : nat :=
  count_occ (list_eq_dec N.eq_dec) items w.

Definition someIfPositive (n : nat) : option nat :=
  match n with
  | O => None
  | S _ => Some n
  end.

Lemma mem_dedup x l : mem x (dedup l) = mem x l.
Proof.
  destruct (mem x l) eqn:E.
  - apply mem_In. apply dedup_In. now apply mem_In.
  - destruct (mem x (dedup l)) eqn:E'; [|reflexivity].
    apply mem_In in E'. rewrite dedup_In in E'. apply mem_In in E'. congruence.
Qed.

Lemma occurrences_snoc_same items x :
  occurrences (items ++ [x]) x = S (occurrences items x).
Proof.
  unfold occurrences. rewrite count_occ_app. cbn [count_occ].
  destruct (list_eq_dec N.eq_dec x x); [|congruence].
  rewrite Nat.add_1_r. reflexivity.
Qed.

Lemma occurrences_snoc_other items x w :
  x <> w -> occurrences (items ++ [x]) w = occurrences items w.
Proof.
  intros H. unfold occurrences. rewrite count_occ_app. cbn [count_occ].
  destruct (list_eq_dec N.eq_dec x w); [congruence|].
  rewrite Nat.add_0_r. reflexivity.
Qed.

(** [countOccurrences]: the distinct items in the order of their first
    occurrence, each with the number of its occurrences. *)
Lemma countOccurrences_spec items :
  List.map fst (countOccurrences items) = dedup items
  /\ forall w,
       Obj.get (countOccurrences items) w = someIfPositive (occurrences items w).
Proof.
  unfold countOccurrences.
  induction items as [|x items [IHk IHg]] using rev_ind.
  - split; [reflexivity|]. intros w. reflexivity.
  - rewrite fold_left_app. cbn [fold_left].
    remember (fold_left
                (fun (counts : Obj.t nat) (item : ustring) =>
                   Obj.set counts item
                           (match Obj.get counts item with
                            | Some n => n
                            | None => O
                            end + 1)%nat)
                items []) as m eqn:Em.
    clear Em. split.
    + rewrite keys_set, IHk, dedup_snoc, mem_dedup. reflexivity.
    + intros w. destruct (list_eq_dec N.eq_dec x w) as [->|Hne].
      * rewrite get_set_same, occurrences_snoc_same, IHg.
        cbn [someIfPositive]. f_equal.
        destruct (occurrences items w); cbn [someIfPositive]; lia.
      * rewrite get_set_other by exact Hne.
        now rewrite occurrences_snoc_other, IHg.
Qed.

Lemma countOccurrences_keys_NoDup items :
  NoDup (List.map fst (countOccurrences items)).
Proof.
  destruct (countOccurrences_spec items) as [-> _]. apply dedup_NoDup.
Qed.

Lemma countOccurrences_In items w n :
  In (w, n) (countOccurrences items) ->
  n = occurrences items w /\ (0 < n)%nat /\ In w items.
Proof.
  intros H. apply In_get in H; [|apply countOccurrences_keys_NoDup].
  destruct (countOccurrences_spec items) as [_ Hg]. rewrite Hg in H.
  destruct (occurrences items w) as [|k] eqn:E; cbn [someIfPositive] in H;
    [discriminate|].
  inversion H; subst. split; [reflexivity|]. split; [lia|].
  apply (count_occ_In (list_eq_dec N.eq_dec)). unfold occurrences in E. lia.
Qed.

(** *** [extractKeywords] *)

(** The entries that [extractKeywords] ranks. *)
Definition keywordEntries (text : ustring) : list (ustring * nat) :=
  firstn 50
    (Num.sortDesc countScore
       (filter (fun e => negb (mem (fst e) stopWords)
                         && (2 <? length (fst e))%nat)
               (Obj.entries (countOccurrences (splitWords text))))).

Lemma extractKeywords_entries text :
  extractKeywords text = List.map fst (keywordEntries text).
Proof. reflexivity. Qed.

Lemma keywordEntries_In text e :
  In e (keywordEntries text) ->
  snd e = occurrences (splitWords text) (fst e)
  /\ In (fst e) (splitWords text)
  /\ (2 < length (fst e))%nat
  /\ ~ In (fst e) stopWords.
Proof.
  unfold keywordEntries. intros H.
  apply In_firstn_sortDesc in H. apply filter_In in H as [H Hp].
  rewrite entries_In in H. destruct e as [w n]. cbn [fst snd] in *.
  apply countOccurrences_In in H as (Hn & _ & Hin).
  apply andb_true_iff in Hp as [Hs Hl].
  split; [exact Hn|]. split; [exact Hin|]. split.
  - now apply Nat.ltb_lt in Hl.
  - intros Hstop. apply mem_In in Hstop. rewrite Hstop in Hs. discriminate.
Qed.

Lemma keywordEntries_NoDup text : NoDup (List.map fst (keywordEntries text)).
Proof.
  unfold keywordEntries.
  apply NoDup_map_firstn, NoDup_map_sortDesc, NoDup_map_filter.
  apply entries_keys_NoDup, countOccurrences_keys_NoDup.
Qed.

(** X8: the keywords of a text of which no word names a member of
    [Object.prototype] are at most 50 distinct words of the text, each
    longer than two characters and none a stop word, ranked by the number
    of their occurrences in the text, the largest first. *)
Theorem extractKeywords_ranked text :
  Forall (fun w => Obj.inherited w = false) (splitWords text) ->
  (length (extractKeywords text) <= 50)%nat
  /\ NoDup (extractKeywords text)
  /\ Forall (fun w => In w (splitWords text)
                      /\ (2 < length w)%nat
                      /\ ~ In w stopWords)
            (extractKeywords text)
  /\ exists ranked,
       extractKeywords text = List.map fst ranked
       /\ Descending countScore ranked
       /\ Forall (fun e => snd e = occurrences (splitWords text) (fst e)) ranked.
Proof.
  intros _.
  rewrite extractKeywords_entries. split; [|split; [|split]].
  - rewrite length_map. apply length_firstn_le.
  - apply keywordEntries_NoDup.
  - apply Forall_forall. intros w Hw. apply in_map_iff in Hw as (e & <- & He).
    now apply keywordEntries_In in He.
  - exists (keywordEntries text). split; [reflexivity|]. split.
    + apply Descending_firstn, sortDesc_sorted.
    + apply Forall_forall. intros e He. now apply keywordEntries_In in He.
Qed.

(** *** [buildBM25Vector] *)






(** The counts that [buildBM25Vector] normalises. *)
Definition wordCounts (text : ustring) : Obj.t nat :=
  countOccurrences (filter (fun word => (2 <? length word)%nat) (splitWords text)).




Lemma weight_range (n m : nat) :
  (1 <= n <= m)%nat ->
  (0 < inject_Z (Z.of_nat n) / inject_Z (Z.of_nat m)
   /\ inject_Z (Z.of_nat n) / inject_Z (Z.of_nat m) <= 1)%Q.
Proof.
  intros [H1 H2].
  assert (0 < inject_Z (Z.of_nat m))%Q as Hm.
  { unfold Qlt. cbn [inject_Z Qnum Qden]. lia. }
  split.
  - apply Qlt_shift_div_l; [exact Hm|].
    unfold Qlt. cbn [Qmult inject_Z Qnum Qden]. lia.
  - apply Qle_shift_div_r; [exact Hm|].
    unfold Qle. cbn [Qmult inject_Z Qnum Qden]. lia.
Qed.


(** *** [buildThematicMap] *)

Definition optOf {A} (l : list A) : option (list A) :=
  match l with
  | [] => None
  | _ => Some l
  end.

Lemma get_pushTo_same {V} (o : Obj.t (list V)) k v (l : list V) :
  Obj.get o k = optOf l -> Obj.get (pushTo o k v) k = optOf (l ++ [v]).
Proof.
  intros H. unfold pushTo. rewrite get_set_same, H.
  destruct l; reflexivity.
Qed.

Lemma get_pushTo_other {V} (o : Obj.t (list V)) k k' v :
  k <> k' -> Obj.get (pushTo o k v) k' = Obj.get o k'.
Proof. intros H. unfold pushTo. now apply get_set_other. Qed.

(** The ids that the chunks give a theme: the id of a chunk once per
    occurrence of the theme in its list of themes. *)
Definition idsOfTheme (theme : ustring) (chunks : list Chunk) : list ustring :=
  flat_map (fun chunk =>
              List.map (fun _ => c_id chunk)
                       (filter (ueqb theme) (c_themes chunk)))
           chunks.

Lemma pushThemes_get (m : Obj.t (list ustring)) (id : ustring)
  (themes : list ustring) (theme : ustring) (l : list ustring) :
  Obj.get m theme = optOf l ->
  Obj.get (fold_left (fun m' t => pushTo m' t id) themes m) theme
  = optOf (l ++ List.map (fun _ => id) (filter (ueqb theme) themes)).
Proof.
  revert m l. induction themes as [|t themes IH]; intros m l H;
    cbn [fold_left filter List.map].
  - now rewrite app_nil_r.
  - destruct (ueqb theme t) eqn:E.
    + apply ueqb_eq in E. subst t. cbn [List.map].
      rewrite (IH _ (l ++ [id])); [now rewrite <- app_assoc|].
      now apply get_pushTo_same.
    + apply ueqb_neq in E. apply IH.
      rewrite get_pushTo_other by congruence. exact H.
Qed.

(** X10: when no theme of the chunks names a member of
    [Object.prototype], the thematic map has as property of a theme the ids
    of the chunks that carry it, in the order of the chunks and once for
    each time that the chunk lists the theme, and no property for a theme
    of no chunk. *)
Theorem buildThematicMap_lookup chunks theme :
  Forall (fun chunk => Forall (fun t => Obj.inherited t = false)
                              (c_themes chunk))
         chunks ->
  Obj.get (buildThematicMap chunks) theme = optOf (idsOfTheme theme chunks).
Proof.
  intros _.
  unfold buildThematicMap.
  assert (forall (m : Obj.t (list ustring)) (l : list ustring),
            Obj.get m theme = optOf l ->
            Obj.get (fold_left
                       (fun m0 chunk =>
                          fold_left (fun m' t => pushTo m' t (c_id chunk))
                                    (c_themes chunk) m0)
                       chunks m) theme
            = optOf (l ++ idsOfTheme theme chunks)) as H.
  { induction chunks as [|c chunks IH]; intros m l Hm; cbn [fold_left].
    - unfold idsOfTheme. cbn. now rewrite app_nil_r.
    - unfold idsOfTheme. cbn [flat_map]. rewrite app_assoc.
      apply IH. now apply pushThemes_get. }
  apply (H [] []). reflexivity.
Qed.

End IndexWords.

(* ================================================================= *)
(** ** The index builder: sections, hierarchy and cross references *)

Module IndexSections.
Import JS Chunker Index IndexBuilder JSProps NumProps ObjProps IndexWords
       ChunkerChunks.

(** *** Objects whose values are a function of the key *)

Lemma get_keyed {V} (f : ustring -> V) keys k :
  Obj.get (List.map (fun id => (id, f id)) keys) k
  = if mem k keys then Some (f k) else None.
Proof.
  unfold mem. induction keys as [|id keys IH]; cbn [List.map Obj.get existsb].
  - reflexivity.
  - destruct (ueqb k id) eqn:E; cbn [orb].
    + apply ueqb_eq in E. now subst.
    + exact IH.
Qed.

Lemma set_absent {V} (o : Obj.t V) k v :
  ~ In k (List.map fst o) -> Obj.set o k v = o ++ [(k, v)].
Proof.
  induction o as [|[k' v'] o IH]; cbn [Obj.set List.map fst In app]; intros H.
  - reflexivity.
  - destruct (ueqb k k') eqn:E.
    + apply ueqb_eq in E. subst. tauto.
    + rewrite IH by tauto. reflexivity.
Qed.

Lemma set_last {V} (o : Obj.t V) k v v' :
  ~ In k (List.map fst o) -> Obj.set (o ++ [(k, v)]) k v' = o ++ [(k, v')].
Proof.
  induction o as [|[k' v0] o IH]; cbn [Obj.set List.map fst In app]; intros H.
  - now rewrite ueqb_refl.
  - destruct (ueqb k k') eqn:E.
    + apply ueqb_eq in E. subst. tauto.
    + rewrite IH by tauto. reflexivity.
Qed.

Lemma set_keyed {V} (f g : ustring -> V) keys k :
  NoDup keys -> In k keys ->
  (forall id, id <> k -> g id = f id) ->
  Obj.set (List.map (fun id => (id, f id)) keys) k (g k)
  = List.map (fun id => (id, g id)) keys.
Proof.
  intros Hnd Hin Hg.
  induction keys as [|id keys IH]; cbn [List.map Obj.set]; [destruct Hin|].
  inversion Hnd as [|? ? Hid Hnd']; subst.
  destruct (ueqb k id) eqn:E.
  - apply ueqb_eq in E. subst id. f_equal.
    apply map_ext_in. intros id' Hid'. rewrite Hg; [reflexivity|].
    intros ->. contradiction.
  - apply ueqb_neq in E. rewrite (Hg id) by congruence. f_equal.
    apply IH; [exact Hnd'|]. destruct Hin as [->|Hin]; [congruence|exact Hin].
Qed.

(** *** [buildSectionInfo] *)

(** The chunks that name a section. *)
Definition chunksOfSection (id : ustring) (chunks : list Chunk) : list Chunk :=
  filter (fun c => ueqb (c_sectionId c) id) chunks.

(** The section of an id after the first loop of [buildSectionInfo]. *)
Definition rawSection (chunks : list Chunk) (id : ustring) : SectionInfo :=
  let own := chunksOfSection id chunks in
  mkSectionInfo id (lit "Section " ++ id) (flat_map c_themes own) []
                (List.map c_id own)
                (fold_left (fun sum c => sum + c_tokenCount c) own 0)
                (flat_map (fun c => extractKeywords (c_hebrew c)) own) None.

Lemma chunksOfSection_snoc_same chunks c :
  chunksOfSection (c_sectionId c) (chunks ++ [c])
  = chunksOfSection (c_sectionId c) chunks ++ [c].
Proof.
  unfold chunksOfSection. rewrite filter_app. cbn [filter].
  now rewrite ueqb_refl.
Qed.

Lemma chunksOfSection_snoc_other chunks c id :
  id <> c_sectionId c ->
  chunksOfSection id (chunks ++ [c]) = chunksOfSection id chunks.
Proof.
  intros H. unfold chunksOfSection. rewrite filter_app. cbn [filter].
  assert (ueqb (c_sectionId c) id = false) as -> by (apply ueqb_neq; congruence).
  apply app_nil_r.
Qed.

Lemma chunksOfSection_none chunks id :
  ~ In id (List.map c_sectionId chunks) -> chunksOfSection id chunks = [].
Proof.
  intros H. unfold chunksOfSection.
  induction chunks as [|c chunks IH]; cbn [filter]; [reflexivity|].
  cbn [List.map In] in H.
  assert (ueqb (c_sectionId c) id = false) as -> by (apply ueqb_neq; tauto).
  apply IH. tauto.
Qed.

Lemma rawSection_snoc_same chunks c :
  rawSection (chunks ++ [c]) (c_sectionId c)
  = let sec := rawSection chunks (c_sectionId c) in
    mkSectionInfo (si_id sec) (si_title sec)
                  (si_themes sec ++ c_themes c)
                  (si_summary sec)
                  (si_chunkIds sec ++ [c_id c])
                  (si_tokenCount sec + c_tokenCount c)
                  (si_keywords sec ++ extractKeywords (c_hebrew c))
                  (si_embedding sec).
Proof.
  unfold rawSection. cbv zeta. rewrite chunksOfSection_snoc_same.
  cbn [si_id si_title si_themes si_summary si_chunkIds si_tokenCount
       si_keywords si_embedding].
  rewrite !flat_map_app, map_app, fold_left_app. cbn [flat_map List.map fold_left].
  now rewrite !app_nil_r.
Qed.

Lemma rawSection_snoc_other chunks c id :
  id <> c_sectionId c -> rawSection (chunks ++ [c]) id = rawSection chunks id.
Proof.
  intros H. unfold rawSection. now rewrite chunksOfSection_snoc_other.
Qed.

Lemma rawSection_empty chunks id :
  ~ In id (List.map c_sectionId chunks) -> rawSection chunks id = emptySection id.
Proof.
  intros H. unfold rawSection. now rewrite chunksOfSection_none.
Qed.

(** The map of sections after the first loop: one entry per section id, in
    the order in which the chunks first name them. *)
Lemma sectionsMap_spec chunks :
  fold_left sectionStep chunks []
  = List.map (fun id => (id, rawSection chunks id))
             (dedup (List.map c_sectionId chunks)).
Proof.
  induction chunks as [|c chunks IH] using rev_ind; [reflexivity|].
  rewrite fold_left_app. cbn [fold_left]. rewrite IH.
  rewrite map_app. cbn [List.map]. rewrite dedup_snoc.
  set (ids := List.map c_sectionId chunks) in *.
  set (sid := c_sectionId c).
  unfold sectionStep. fold sid.
  rewrite has_get, map_map. cbn [fst]. rewrite map_id, mem_dedup.
  destruct (mem sid ids) eqn:M.
  - rewrite get_keyed, mem_dedup, M.
    assert (In sid (dedup ids)) as Hin by (apply dedup_In; now apply mem_In).
    rewrite <- (@set_keyed _ (rawSection chunks) (rawSection (chunks ++ [c]))
                  (dedup ids) sid (dedup_NoDup ids) Hin).
    + f_equal. unfold sid. now rewrite rawSection_snoc_same.
    + intros id Hne. now apply rawSection_snoc_other.
  - assert (~ In sid ids) as Hn.
    { intros H. apply mem_In in H. congruence. }
    assert (~ In sid (List.map fst
                        (List.map (fun id => (id, rawSection chunks id))
                                  (dedup ids)))) as Hk.
    { rewrite map_map. cbn [fst]. rewrite map_id. now rewrite dedup_In. }
    rewrite get_set_same, (@set_absent _ _ _ _ Hk), (@set_last _ _ _ _ _ Hk).
    rewrite map_app. cbn [List.map]. f_equal.
    + apply map_ext_in. intros id Hid. f_equal. symmetry.
      apply rawSection_snoc_other. intros ->. rewrite dedup_In in Hid.
      contradiction.
    + f_equal. f_equal. unfold sid.
      rewrite rawSection_snoc_same. cbv zeta.
      now rewrite (@rawSection_empty chunks (c_sectionId c) Hn).
Qed.

Lemma buildSectionInfo_spec book chunks :
  buildSectionInfo book chunks
  = List.map (fun id => finishSection (rawSection chunks id))
             (dedup (List.map c_sectionId chunks)).
Proof.
  unfold buildSectionInfo. rewrite sectionsMap_spec, map_map. reflexivity.
Qed.

(** X11: the sections of a book index are the distinct section ids of the
    chunks, in the order of their first chunk; a section is titled
    [Section <id>], lists the ids of its chunks, sums their tokens, holds
    their themes without duplicates and at most 20 distinct keywords, and
    has at least one chunk. *)
Theorem buildSectionInfo_sections book chunks :
  List.map si_id (buildSectionInfo book chunks)
  = dedup (List.map c_sectionId chunks)
  /\ Forall (fun sec =>
               si_title sec = lit "Section " ++ si_id sec
               /\ si_chunkIds sec
                  = List.map c_id (chunksOfSection (si_id sec) chunks)
               /\ si_tokenCount sec
                  = fold_left (fun sum c => sum + c_tokenCount c)
                              (chunksOfSection (si_id sec) chunks) 0
               /\ si_themes sec
                  = dedup (flat_map c_themes (chunksOfSection (si_id sec) chunks))
               /\ NoDup (si_themes sec)
               /\ NoDup (si_keywords sec)
               /\ (length (si_keywords sec) <= 20)%nat
               /\ chunksOfSection (si_id sec) chunks <> [])
            (buildSectionInfo book chunks).
Proof.
  rewrite buildSectionInfo_spec. split.
  - rewrite map_map. cbn [finishSection si_id rawSection]. apply map_id.
  - apply Forall_forall. intros sec Hsec.
    apply in_map_iff in Hsec as (id & <- & Hid).
    cbn [finishSection rawSection si_id si_title si_chunkIds si_tokenCount
         si_themes si_keywords].
    repeat split.
    + apply dedup_NoDup.
    + apply NoDup_firstn, dedup_NoDup.
    + apply length_firstn_le.
    + rewrite dedup_In in Hid. apply in_map_iff in Hid as (c & Ec & Hc).
      intros Hnil.
      assert (In c (chunksOfSection id chunks)) as Hin.
      { apply filter_In. split; [exact Hc|]. now apply ueqb_eq. }
      rewrite Hnil in Hin. destruct Hin.
Qed.

(** *** The hierarchy of a book *)

Definition opensTorah (sec : SectionInfo) : bool :=
  includes (si_title sec) (lit "Torah") || includes (si_title sec) he_torah.

Definition opensStory (sec : SectionInfo) : bool :=
  mem (lit "story") (si_themes sec) || includes (si_title sec) he_maase.

Lemma torahStep_idle st k :
  ts_current st = None ->
  Forall (fun sec => opensTorah sec = false) (ts_sections st) ->
  torahStep st k = st.
Proof.
  intros Hc Hs. unfold torahStep.
  destruct (nth_error (ts_sections st) k) as [sec|] eqn:E; [|reflexivity].
  rewrite Forall_forall in Hs.
  pose proof (Hs sec (nth_error_In _ _ E)) as Ho. unfold opensTorah in Ho.
  rewrite Ho, Hc. reflexivity.
Qed.

Lemma buildTorahHierarchy_idle sections :
  Forall (fun sec => opensTorah sec = false) sections ->
  buildTorahHierarchy sections = ([], sections).
Proof.
  intros Hs. unfold buildTorahHierarchy.
  assert (forall ks,
            fold_left torahStep ks (mkTorahState sections [] None 1)
            = mkTorahState sections [] None 1) as ->.
  { induction ks as [|k ks IH]; cbn [fold_left]; [reflexivity|].
    rewrite torahStep_idle; [exact IH|reflexivity|exact Hs]. }
  reflexivity.
Qed.

Lemma buildStoryHierarchy_idle sections :
  Forall (fun sec => opensStory sec = false) sections ->
  buildStoryHierarchy sections = [].
Proof.
  intros Hs. unfold buildStoryHierarchy.
  assert (filter (fun sec => mem (lit "story") (si_themes sec)
                             || includes (si_title sec) he_maase) sections = [])
    as ->; [|reflexivity].
  induction Hs as [|sec sections Hsec _ IH]; cbn [filter]; [reflexivity|].
  unfold opensStory in Hsec. now rewrite Hsec.
Qed.

(** A section of chunks that the chunker made: its title is ["Section "]
    and a plain id, and its themes are theme names of the chunker. *)
Definition PlainSection (sec : SectionInfo) : Prop :=
  (exists id, PlainId id /\ si_title sec = lit "Section " ++ id)
  /\ KnownThemes (si_themes sec).

Lemma plain_title_absent id c :
  PlainId id -> isIdChar c = false -> ~ In c (lit "Section ") ->
  ~ In c (lit "Section " ++ id).
Proof.
  intros Hid Hc Hs Hin. apply in_app_iff in Hin as [Hin|Hin]; [tauto|].
  unfold PlainId in Hid. rewrite Forall_forall in Hid.
  rewrite (Hid c Hin) in Hc. discriminate.
Qed.

Lemma not_in_section_title c :
  forallb (fun d => negb (N.eqb c d)) (lit "Section ") = true ->
  ~ In c (lit "Section ").
Proof.
  intros H Hin. rewrite forallb_forall in H. specialize (H c Hin).
  now rewrite N.eqb_refl in H.
Qed.

Lemma PlainSection_no_torah sec : PlainSection sec -> opensTorah sec = false.
Proof.
  intros [(id & Hid & Ht) _]. unfold opensTorah. rewrite Ht.
  apply orb_false_iff. split.
  - apply (@includes_absent _ _ 84%N); [cbn; tauto|].
    apply plain_title_absent; [exact Hid|reflexivity|].
    now apply not_in_section_title.
  - apply (@includes_absent _ _ 1514%N); [cbn; tauto|].
    apply plain_title_absent; [exact Hid|reflexivity|].
    now apply not_in_section_title.
Qed.

Lemma story_not_a_theme : ~ In (lit "story") themeNames.
Proof.
  intros H. cbn in H.
  repeat (destruct H as [H|H]; [discriminate|]). exact H.
Qed.

Lemma PlainSection_no_story sec : PlainSection sec -> opensStory sec = false.
Proof.
  intros [(id & Hid & Ht) Hk]. unfold opensStory. rewrite Ht.
  apply orb_false_iff. split.
  - destruct (mem (lit "story") (si_themes sec)) eqn:M; [|reflexivity].
    apply mem_In in M. unfold KnownThemes in Hk. rewrite Forall_forall in Hk.
    destruct (story_not_a_theme (Hk _ M)).
  - apply (@includes_absent _ _ 1502%N); [cbn; tauto|].
    apply plain_title_absent; [exact Hid|reflexivity|].
    now apply not_in_section_title.
Qed.

Lemma buildSectionInfo_plain book chunks :
  Forall PlainChunk chunks -> Forall PlainSection (buildSectionInfo book chunks).
Proof.
  intros Hc. rewrite Forall_forall in Hc.
  rewrite buildSectionInfo_spec. apply Forall_forall. intros sec Hsec.
  apply in_map_iff in Hsec as (id & <- & Hid).
  cbn [finishSection rawSection si_id si_title si_themes]. split.
  - exists id. split; [|reflexivity].
    rewrite dedup_In in Hid. apply in_map_iff in Hid as (c & <- & Hin).
    now destruct (Hc c Hin).
  - apply Forall_forall. intros t Ht.
    change (In t (dedup (flat_map c_themes (chunksOfSection id chunks)))) in Ht.
    rewrite dedup_In in Ht.
    apply in_flat_map in Ht as (c & Hin & Ht).
    apply filter_In in Hin as [Hin _].
    destruct (Hc c Hin) as [_ Hk].
    unfold KnownThemes in Hk. rewrite Forall_forall in Hk. now apply Hk.
Qed.

(** The book ids for which the builder looks for Torah or story titles. *)
Definition structuredId (bookId : ustring) : bool :=
  includes bookId (lit "likutey_moharan")
  || includes bookId (lit "sippurei_maasiyot").

Lemma buildHierarchy_plain book sections :
  Forall PlainSection sections ->
  structuredId (b_id book) = true ->
  buildHierarchy book sections = ([], sections).
Proof.
  intros Hs Hid. unfold buildHierarchy. unfold structuredId in Hid.
  destruct (includes (b_id book) (lit "likutey_moharan")).
  - apply buildTorahHierarchy_idle.
    eapply Forall_impl; [|exact Hs]. apply PlainSection_no_torah.
  - cbn [orb] in Hid. rewrite Hid.
    rewrite buildStoryHierarchy_idle; [reflexivity|].
    eapply Forall_impl; [|exact Hs]. apply PlainSection_no_story.
Qed.

Lemma buildBookIndex_plain now book chunks chunkIndexes :
  Forall PlainChunk chunks ->
  structuredId (b_id book) = true ->
  bi_hierarchy (buildBookIndex now book chunks chunkIndexes) = []
  /\ bi_hierarchy (compressBookIndex
                     (buildBookIndex now book chunks chunkIndexes)) = [].
Proof.
  intros Hc Hid. unfold buildBookIndex.
  rewrite (buildHierarchy_plain book (buildSectionInfo_plain book Hc) Hid).
  split; reflexivity.
Qed.

(** *** Cross references *)

Lemma commonCount_le a b : (commonCount a b <= length a)%nat.
Proof. unfold commonCount. apply filter_length_le. Qed.

Lemma commonCount_pos a b :
  (0 < commonCount a b)%nat -> exists t, In t a /\ In t b.
Proof.
  unfold commonCount. intros H.
  destruct (filter (fun x => mem x b) a) as [|t rest] eqn:E; [cbn in H; lia|].
  assert (In t (filter (fun x => mem x b) a)) as Hin by (rewrite E; now left).
  apply filter_In in Hin as [Ha Hb]. exists t. split; [exact Ha|].
  now apply mem_In.
Qed.

(** A link between two sections that share a theme. *)
Definition ThemeLink (a b : SectionInfo) (x : CrossReference) : Prop :=
  xr_fromSection x = si_id a
  /\ xr_toSection x = si_id b
  /\ xr_type x = refTheme
  /\ xr_strength x
     = ratio (commonCount (si_themes a) (si_themes b))
             (Nat.max (length (si_themes a)) (length (si_themes b)))
  /\ exists t, In t (si_themes a) /\ In t (si_themes b).

(** A link from a chunk that cites a source to another chunk whose text
    holds the source. *)
Definition QuoteLink (chunks : list Chunk) (x : CrossReference) : Prop :=
  exists chunk citation sourceChunk,
    In chunk chunks
    /\ In citation (c_citations chunk)
    /\ In sourceChunk chunks
    /\ includes (c_hebrew sourceChunk) (cit_source citation) = true
    /\ c_id sourceChunk <> c_id chunk
    /\ xr_fromSection x = c_sectionId chunk
    /\ xr_toSection x = c_sectionId sourceChunk
    /\ xr_type x = refQuote
    /\ xr_strength x = (8 # 10)%Q.

Lemma themeLink_spec a b x :
  In x (themeLink a b) ->
  ThemeLink a b x /\ (0 < xr_strength x /\ xr_strength x <= 1)%Q.
Proof.
  unfold themeLink.
  destruct (0 <? commonCount (si_themes a) (si_themes b))%nat eqn:E;
    [|intros []].
  apply Nat.ltb_lt in E. intros [<-|[]].
  cbn [xr_fromSection xr_toSection xr_type xr_strength]. split.
  - repeat split. now apply commonCount_pos.
  - unfold ratio. apply weight_range.
    pose proof (commonCount_le (si_themes a) (si_themes b)). lia.
Qed.

Lemma themeLinks_spec sections x :
  In x (themeLinks sections) ->
  exists i j a b,
    (i < j)%nat
    /\ nth_error sections i = Some a
    /\ nth_error sections j = Some b
    /\ ThemeLink a b x
    /\ (0 < xr_strength x /\ xr_strength x <= 1)%Q.
Proof.
  induction sections as [|a rest IH]; cbn [themeLinks]; [intros []|].
  intros H. apply in_app_iff in H as [H|H].
  - apply in_flat_map in H as (b & Hb & Hx).
    apply In_nth_error in Hb as (j & Hj).
    apply themeLink_spec in Hx as [Hl Hr].
    exists 0%nat, (S j), a, b.
    split; [lia|]. split; [reflexivity|]. split; [exact Hj|]. now split.
  - destruct (IH H) as (i & j & a' & b' & Hij & Hi & Hj & Hl & Hr).
    exists (S i), (S j), a', b'.
    split; [lia|]. split; [exact Hi|]. split; [exact Hj|]. now split.
Qed.

Lemma quoteLinks_spec chunks x :
  In x (quoteLinks chunks) -> QuoteLink chunks x.
Proof.
  unfold quoteLinks. intros H.
  apply in_flat_map in H as (chunk & Hc & H).
  apply in_flat_map in H as (citation & Hcit & H).
  apply in_flat_map in H as (sourceChunk & Hs & H).
  apply filter_In in Hs as [Hs Hinc].
  destruct (ueqb (c_id sourceChunk) (c_id chunk)) eqn:E; [destruct H|].
  apply ueqb_neq in E. destruct H as [<-|[]].
  exists chunk, citation, sourceChunk. repeat split; assumption.
Qed.

(** X12: a cross reference has a strength above 0 and at most 1.  It links
    either a section to a later one that shares a theme with it, with the
    share of the common themes as its strength, or the section of a chunk
    to the section of another chunk whose text holds the source of one of
    its citations, with the strength 0.8. *)
Theorem findCrossReferences_links sections chunks :
  Forall (fun x =>
            (0 < xr_strength x /\ xr_strength x <= 1)%Q
            /\ ((exists i j a b,
                   (i < j)%nat
                   /\ nth_error sections i = Some a
                   /\ nth_error sections j = Some b
                   /\ ThemeLink a b x)
                \/ QuoteLink chunks x))
         (findCrossReferences sections chunks).
Proof.
  apply Forall_forall. intros x H. unfold findCrossReferences in H.
  apply in_app_iff in H as [H|H].
  - apply themeLinks_spec in H as (i & j & a & b & Hij & Hi & Hj & Hl & Hr).
    split; [exact Hr|]. left. now exists i, j, a, b.
  - apply quoteLinks_spec in H. split; [|now right].
    destruct H as (? & ? & ? & _ & _ & _ & _ & _ & _ & _ & _ & ->).
    split; [reflexivity|discriminate].
Qed.

(** *** The similarity of chunks without themes or without keywords *)

Lemma div_nothing_by_nothing (a b : list ustring) :
  a = [] -> b = [] ->
  Num.ddiv (Num.dOfNat (commonCount a b))
           (Num.dOfNat (Nat.max (length a) (length b))) = S754_nan.
Proof. intros -> ->. reflexivity. Qed.

Lemma similarity_undefined chunk other :
  (ci_themes chunk = [] /\ ci_themes other = [])
  \/ (ci_keywords chunk = [] /\ ci_keywords other = []) ->
  similarity chunk other = Num.NaN.
Proof.
  unfold similarity, relatedScore. intros [[H1 H2]|[H1 H2]].
  - rewrite (div_nothing_by_nothing H1 H2). reflexivity.
  - rewrite (div_nothing_by_nothing H1 H2).
    now destruct (Num.dmul _ (Num.decimal 6 10)).
Qed.

End IndexSections.

(* ================================================================= *)
(** ** The index builder: book indexes and the master index *)

Module IndexMaster.
Import JS Chunker Index IndexBuilder Router JSProps NumProps ObjProps
       IndexWords ChunkerChunks IndexSections.

(** *** Decimal numerals read back *)

Lemma digit_cases c :
  isDigit c = true ->
  (c = 48 \/ c = 49 \/ c = 50 \/ c = 51 \/ c = 52 \/ c = 53 \/ c = 54
   \/ c = 55 \/ c = 56 \/ c = 57)%N.
Proof.
  unfold isDigit. intros H. apply andb_true_iff in H as [H1 H2].
  apply N.leb_le in H1, H2. lia.
Qed.

Lemma digit_not_space c : isDigit c = true -> isSpace c = false.
Proof.
  intros H. apply digit_cases in H.
  repeat (destruct H as [->|H]; [reflexivity|]). now subst.
Qed.

Lemma digit_value c : isDigit c = true -> decValue c = Some (c - 48)%N.
Proof. intros H. unfold decValue. now rewrite H. Qed.

Lemma leadingDigits_uint d :
  forall acc,
  leadingDigits decValue 10 (lit (NilEmpty.string_of_uint d)) (Some (N.of_nat acc))
  = Some (N.of_nat (Nat.of_uint_acc d acc)).
Proof.
  induction d as [|d IH|d IH|d IH|d IH|d IH|d IH|d IH|d IH|d IH|d IH];
    intros acc; [reflexivity|..];
    cbn [NilEmpty.string_of_uint Nat.of_uint_acc];
    unfold lit; cbn [list_ascii_of_string List.map leadingDigits];
    match goal with
    | |- context [decValue ?c] =>
        let v := eval vm_compute in (decValue c) in
        change (decValue c) with v
    end;
    cbn iota; fold (lit (NilEmpty.string_of_uint d));
    rewrite <- IH; f_equal; f_equal; rewrite Nat.tail_mul_spec; lia.
Qed.

Lemma leadingDigits_start (s : ustring) :
  s <> [] -> Forall (fun c => isDigit c = true) s ->
  leadingDigits decValue 10 s None = leadingDigits decValue 10 s (Some 0%N).
Proof.
  intros Hne H. destruct s as [|c rest]; [congruence|].
  inversion H as [|? ? Hc _]; subst. cbn [leadingDigits].
  now rewrite (digit_value c Hc).
Qed.

Lemma parseInt_digits (s : ustring) :
  s <> [] -> Forall (fun c => isDigit c = true) s ->
  parseInt (Some s)
  = match leadingDigits decValue 10 s None with
    | Some n => Num.ofZ (Z.of_N n)
    | None => Num.NaN
    end.
Proof.
  intros Hne H. destruct s as [|c rest]; [congruence|].
  inversion H as [|? ? Hc Hrest]; subst.
  unfold parseInt. cbn [dropWhile]. rewrite (digit_not_space c Hc).
  apply digit_cases in Hc.
  destruct Hc as [->|Hc].
  - destruct rest as [|x r]; [reflexivity|].
    inversion Hrest as [|? ? Hx _]; subst.
    apply digit_cases in Hx.
    repeat (destruct Hx as [->|Hx]; [reflexivity|]). now subst.
  - repeat (destruct Hc as [->|Hc]; [reflexivity|]). now subst.
Qed.

Lemma ofNat_nonempty n : ofNat n <> [].
Proof.
  unfold ofNat. intros H.
  assert (NilEmpty.string_of_uint (Nat.to_uint n) = EmptyString) as E.
  { apply lit_inj. exact H. }
  pose proof (NilEmpty.usu (Nat.to_uint n)) as U. rewrite E in U.
  cbn in U. inversion U as [U'].
  pose proof (Unsigned.of_to n) as O. rewrite <- U' in O. cbn in O. subst n.
  discriminate.
Qed.

(** [parseInt] reads the numeral of a natural number back. *)
Lemma parseInt_ofNat n : parseInt (Some (ofNat n)) = Num.ofNat n.
Proof.
  rewrite parseInt_digits; [|apply ofNat_nonempty|apply ofNat_digits].
  rewrite leadingDigits_start; [|apply ofNat_nonempty|apply ofNat_digits].
  unfold ofNat. change 0%N with (N.of_nat 0).
  rewrite leadingDigits_uint.
  change (Nat.of_uint_acc (Nat.to_uint n) 0) with (Nat.of_uint (Nat.to_uint n)).
  rewrite Unsigned.of_to. unfold Num.ofZ, Num.ofNat. now rewrite nat_N_Z.
Qed.

(** *** References [bookId:count] *)

Lemma splitColon_plain s piece :
  ~ In 58%N s -> splitColon s piece = [rev piece ++ s].
Proof.
  revert piece. induction s as [|c s IH]; intros piece H; cbn [splitColon].
  - now rewrite app_nil_r.
  - cbn [In] in H. destruct (c =? 58)%N eqn:E.
    + apply N.eqb_eq in E. subst. tauto.
    + rewrite IH by tauto. cbn [rev]. now rewrite <- app_assoc.
Qed.

Lemma splitColon_head s rest piece :
  ~ In 58%N s ->
  splitColon (s ++ 58%N :: rest) piece = (rev piece ++ s) :: splitColon rest [].
Proof.
  revert piece. induction s as [|c s IH]; intros piece H; cbn [splitColon app].
  - rewrite N.eqb_refl. now rewrite app_nil_r.
  - cbn [In] in H. destruct (c =? 58)%N eqn:E.
    + apply N.eqb_eq in E. subst. tauto.
    + rewrite IH by tauto. cbn [rev]. now rewrite <- app_assoc.
Qed.

Lemma digits_no_colon s :
  Forall (fun c => isDigit c = true) s -> ~ In 58%N s.
Proof.
  intros H Hin. rewrite Forall_forall in H. specialize (H _ Hin). discriminate.
Qed.

(** X15: a reference [<bookId>:<count>] of the global search index is read
    back by the router, which splits it at the colons and parses the second
    piece, as the id and the count, provided that the id of the book holds
    no colon. *)
Theorem reference_round_trip bookId n :
  ~ In 58%N bookId ->
  hd [] (splitColon (bookId ++ lit ":" ++ ofNat n) []) = bookId
  /\ parseInt (nth_error (splitColon (bookId ++ lit ":" ++ ofNat n) []) 1)
     = Num.ofNat n.
Proof.
  intros H. change (lit ":" ++ ofNat n) with (58%N :: ofNat n).
  rewrite (splitColon_head bookId (ofNat n) [] H).
  rewrite splitColon_plain by (apply digits_no_colon, ofNat_digits).
  cbn [rev app hd nth_error]. split; [reflexivity|apply parseInt_ofNat].
Qed.

(** A reference of one of the books. *)
Definition BuiltRef (books : list Book) (ref : ustring) : Prop :=
  exists book n, In book books /\ ref = b_id book ++ lit ":" ++ ofNat n.

Definition AllRefs (P : ustring -> Prop) (o : Obj.t (list ustring)) : Prop :=
  forall k refs, In (k, refs) o -> Forall P refs.

Lemma pushTo_AllRefs P o k v :
  AllRefs P o -> P v -> AllRefs P (pushTo o k v).
Proof.
  intros Ho Hv k' refs H. unfold pushTo in H.
  apply In_set in H as [H|[_ ->]]; [now apply (Ho k')|].
  destruct (Obj.get o k) as [l|] eqn:E.
  - apply Forall_app. split; [|now constructor].
    apply (Ho k). now apply get_In.
  - now constructor.
Qed.

Lemma fold_left_inv {A B} (P : A -> Prop) (f : A -> B -> A) l a :
  (forall x y, P x -> P (f x y)) -> P a -> P (fold_left f l a).
Proof.
  intros Hf. revert a. induction l as [|y l IH]; intros a Ha; cbn [fold_left].
  - exact Ha.
  - apply IH. now apply Hf.
Qed.

Lemma fold_left_inv_In {A B} (P : A -> Prop) (f : A -> B -> A) l a :
  (forall x y, In y l -> P x -> P (f x y)) -> P a -> P (fold_left f l a).
Proof.
  revert a. induction l as [|y l IH]; intros a Hf Ha; cbn [fold_left].
  - exact Ha.
  - apply IH.
    + intros x z Hz. apply Hf. now right.
    + apply Hf; [now left|exact Ha].
Qed.

Lemma updateGlobalSearchIndex_refs books index book bookIndex :
  In book books ->
  AllRefs (BuiltRef books) index ->
  AllRefs (BuiltRef books)
          (updateGlobalSearchIndex index (b_id book) bookIndex).
Proof.
  intros Hb Hi. unfold updateGlobalSearchIndex.
  apply fold_left_inv.
  - intros ix e Hix. destruct (5 <? snd e)%nat; [|exact Hix].
    apply pushTo_AllRefs; [exact Hix|]. now exists book, (snd e).
  - apply fold_left_inv; [|exact Hi].
    intros ix e Hix. apply pushTo_AllRefs; [exact Hix|].
    now exists book, (length (snd e)).
Qed.

(** *** Loops over the books *)

Lemma fold_left_prefix_inv {A S} (P : list A -> S -> Prop) (f : S -> A -> S) l :
  (forall done s a, In a l -> P done s -> P (done ++ [a]) (f s a)) ->
  forall done s, P done s -> P (done ++ l) (fold_left f l s).
Proof.
  induction l as [|a l IH]; intros Hf done s H; cbn [fold_left].
  - now rewrite app_nil_r.
  - replace (done ++ a :: l) with ((done ++ [a]) ++ l)
      by (now rewrite <- app_assoc).
    apply IH.
    + intros d s' a' Ha'. apply Hf. now right.
    + apply Hf; [now left|exact H].
Qed.

Lemma foldT_prefix_inv {A S} (P : list A -> S -> Prop)
  (f : S -> A -> Timed S) l :
  (forall done s a n, P done s -> P (done ++ [a]) (fst (f s a n))) ->
  forall done s n, P done s -> P (done ++ l) (fst (foldT f l s n)).
Proof.
  intros Hf. induction l as [|a l IH]; intros done s n H; cbn [foldT].
  - unfold ret. cbn [fst]. now rewrite app_nil_r.
  - unfold bind. pose proof (Hf done s a n H) as H1.
    destruct (f s a n) as [s1 n1]. cbn [fst] in H1.
    replace (done ++ a :: l) with ((done ++ [a]) ++ l)
      by (now rewrite <- app_assoc).
    now apply IH.
Qed.

(** The chunks filed under a book id; none when the id is not a key. *)
Definition chunksFor (chunksMap : Obj.t (list Chunk)) (bookId : ustring)
  : list Chunk :=
  match Obj.get chunksMap bookId with
  | Some l => l
  | None => []
  end.

Definition tokensOf (chunks : list Chunk) : Z :=
  fold_left (fun sum chunk => sum + c_tokenCount chunk) chunks 0.

(** A book index as [buildBookIndexes] stores it under a key. *)
Definition BuiltFor (chunksMap : Obj.t (list Chunk)) (k : ustring)
  (bi : BookIndex) : Prop :=
  exists book now chunkIndexes,
    b_id book = k
    /\ (bi = buildBookIndex now book (chunksFor chunksMap k) chunkIndexes
        \/ bi = compressBookIndex
                  (buildBookIndex now book (chunksFor chunksMap k) chunkIndexes)).

Lemma BuiltFor_facts chunksMap k bi :
  BuiltFor chunksMap k bi ->
  bi_bookId bi = k
  /\ bi_totalTokens bi = tokensOf (chunksFor chunksMap k)
  /\ length (bi_chunks bi) = length (chunksFor chunksMap k)
  /\ List.map cr_id (bi_chunks bi) = List.map c_id (chunksFor chunksMap k)
  /\ (Forall PlainChunk (chunksFor chunksMap k) ->
      structuredId k = true -> bi_hierarchy bi = []).
Proof.
  intros (book & now & cis & <- & H).
  set (chunks := chunksFor chunksMap (b_id book)) in *.
  assert (forall B, B = buildBookIndex now book chunks cis ->
                    bi_bookId B = b_id book
                    /\ bi_totalTokens B = tokensOf chunks
                    /\ List.map cr_id (bi_chunks B) = List.map c_id chunks)
    as HB.
  { intros B ->. unfold buildBookIndex.
    destruct (buildHierarchy book (buildSectionInfo book chunks)).
    cbn [bi_bookId bi_totalTokens bi_chunks]. split; [reflexivity|].
    split; [reflexivity|]. now rewrite map_map. }
  destruct (HB _ eq_refl) as (H1 & H2 & H3).
  assert (length (bi_chunks (buildBookIndex now book chunks cis))
          = length chunks) as H4.
  { rewrite <- (length_map cr_id), H3. apply length_map. }
  destruct H as [->| ->].
  - repeat split; try assumption.
    intros Hp Hs. now apply buildBookIndex_plain.
  - cbn [compressBookIndex bi_bookId bi_totalTokens bi_chunks bi_hierarchy].
    rewrite length_map, map_map. cbn [cr_id].
    repeat split; try assumption.
    intros Hp Hs. now apply (buildBookIndex_plain now book cis Hp Hs).
Qed.

Section Built.

Variable floatLength : Q -> Z.
Variable clock : nat -> Date.

Lemma addBookIndex_set chunksMap chunkIndexes m book n :
  exists bi,
    fst (addBookIndex floatLength clock chunksMap chunkIndexes m book n)
    = Obj.set m (b_id book) bi
    /\ BuiltFor chunksMap (b_id book) bi.
Proof.
  unfold addBookIndex, bind, newDate.
  fold (chunksFor chunksMap (b_id book)).
  destruct (_ >? 200000); cbn [ret fst]; eexists; (split; [reflexivity|]);
    exists book, (clock n),
           (chunkIndexesOf chunkIndexes (chunksFor chunksMap (b_id book)));
    (split; [reflexivity|]); [now right|now left].
Qed.

(** Every book has a book index under its id, and every book index is
    built from the chunks filed under its key. *)
Lemma buildBookIndexes_built books chunksMap chunkIndexes n :
  let bis := fst (buildBookIndexes floatLength clock books chunksMap
                                   chunkIndexes n) in
  (forall book, In book books ->
                exists bi, Obj.get bis (b_id book) = Some bi)
  /\ (forall k bi, In (k, bi) bis -> BuiltFor chunksMap k bi)
  /\ NoDup (List.map fst bis).
Proof.
  cbv zeta. unfold buildBookIndexes.
  apply (@foldT_prefix_inv _ _
           (fun done m =>
              (forall book, In book done ->
                            exists bi, Obj.get m (b_id book) = Some bi)
              /\ (forall k bi, In (k, bi) m -> BuiltFor chunksMap k bi)
              /\ NoDup (List.map fst m))
           (addBookIndex floatLength clock chunksMap chunkIndexes) books)
    with (done := []).
  - intros done m book k (Hget & Hin & Hnd).
    destruct (addBookIndex_set chunksMap chunkIndexes m book k)
      as (bi & -> & Hbi).
    split; [|split].
    + intros book' H'. apply in_app_iff in H' as [H'|[<-|[]]].
      * destruct (list_eq_dec N.eq_dec (b_id book) (b_id book')) as [E|E].
        -- exists bi. rewrite <- E. apply get_set_same.
        -- rewrite get_set_other by exact E. now apply Hget.
      * exists bi. apply get_set_same.
    + intros k' bi' H'. apply In_set in H' as [H'|[-> ->]];
        [now apply Hin|exact Hbi].
    + now apply NoDup_keys_set.
  - split; [intros book []|]. split; [intros k bi []|constructor].
Qed.

End Built.

(** *** The master index *)

(** A book summary of a book index built from the chunks of its key. *)
Definition SummaryOf (chunksMap : Obj.t (list Chunk)) (s : BookSummary)
  : Prop :=
  bs_keywordEmbeddings s = Some []
  /\ bs_totalTokens s = tokensOf (chunksFor chunksMap (bs_id s))
  /\ bs_chunks s = length (chunksFor chunksMap (bs_id s)).

Definition tokensOfBooks (chunksMap : Obj.t (list Chunk)) (books : list Book)
  : Z :=
  fold_left (fun sum book => sum + tokensOf (chunksFor chunksMap (b_id book)))
            books 0.

Lemma masterLoop_summaries chunksMap bis books :
  (forall book, In book books -> exists bi, Obj.get bis (b_id book) = Some bi) ->
  (forall k bi, In (k, bi) bis -> BuiltFor chunksMap k bi) ->
  let st := fold_left (masterStep bis) books (mkMasterState [] [] [] 0) in
  List.map bs_id (ms_bookSummaries st) = List.map b_id books
  /\ ms_totalTokens st = tokensOfBooks chunksMap books
  /\ Forall (SummaryOf chunksMap) (ms_bookSummaries st)
  /\ AllRefs (BuiltRef books) (ms_globalSearchIndex st).
Proof.
  intros Hget Hin. cbv zeta.
  apply (@fold_left_prefix_inv _ _
           (fun done st =>
              List.map bs_id (ms_bookSummaries st) = List.map b_id done
              /\ ms_totalTokens st = tokensOfBooks chunksMap done
              /\ Forall (SummaryOf chunksMap) (ms_bookSummaries st)
              /\ AllRefs (BuiltRef books) (ms_globalSearchIndex st))
           (masterStep bis) books)
    with (done := []).
  - intros done st book Hb (Hids & Htok & Hsum & Hrefs).
    destruct (Hget book Hb) as (bi & Ebi).
    destruct (BuiltFor_facts (Hin _ _ (get_In _ _ Ebi)))
      as (_ & Ht & Hl & _ & _).
    unfold masterStep. rewrite Ebi.
    cbn [ms_bookSummaries ms_totalTokens ms_globalSearchIndex].
    split; [|split; [|split]].
    + rewrite !map_app, Hids. reflexivity.
    + unfold tokensOfBooks. rewrite fold_left_app. cbn [fold_left].
      fold (tokensOfBooks chunksMap done). now rewrite Htok, Ht.
    + apply Forall_app. split; [exact Hsum|]. constructor; [|constructor].
      split; [reflexivity|]. now split.
    + now apply updateGlobalSearchIndex_refs.
  - split; [reflexivity|]. split; [reflexivity|]. split; [constructor|].
    intros k refs [].
Qed.

Lemma compress_summaries chunksMap books :
  Forall (SummaryOf chunksMap) books ->
  Forall (SummaryOf chunksMap)
         (List.map (fun b =>
                      mkBookSummary (bs_id b) (bs_title b) (bs_hebrewTitle b)
                                    (bs_sections b) (bs_chunks b)
                                    (bs_totalTokens b) (firstn 5 (bs_themes b))
                                    (substring (bs_summary b) 0 100)
                                    (bs_keywordEmbeddings b))
                   books).
Proof.
  intros H. apply Forall_map. eapply Forall_impl; [|exact H].
  intros s Hs. exact Hs.
Qed.

Lemma In_map_values {V W} (g : V -> W) (o : Obj.t V) k w :
  In (k, w) (List.map (fun e => (fst e, g (snd e))) o) ->
  exists v, In (k, v) o /\ w = g v.
Proof.
  intros H. apply in_map_iff in H as ([k' v] & E & Hin).
  cbn [fst snd] in E. inversion E; subst. now exists v.
Qed.

Lemma compress_refs P (o : Obj.t (list ustring)) :
  AllRefs P o ->
  AllRefs P (List.map (fun e => (fst e, firstn 10 (snd e))) o).
Proof.
  intros H k refs Hin.
  apply (In_map_values (firstn 10)) in Hin as (l & Hin & ->).
  apply Forall_forall. intros r Hr. apply In_firstn in Hr.
  specialize (H _ _ Hin). rewrite Forall_forall in H. now apply H.
Qed.

Section Master.

Variable floatLength : Q -> Z.
Variable clock : nat -> Date.

Lemma buildMasterIndex_summaries chunksMap bis books n :
  (forall book, In book books -> exists bi, Obj.get bis (b_id book) = Some bi) ->
  (forall k bi, In (k, bi) bis -> BuiltFor chunksMap k bi) ->
  let master := fst (buildMasterIndex floatLength clock books bis n) in
  List.map bs_id (mi_books master) = List.map b_id books
  /\ mi_totalBooks master = length books
  /\ mi_totalTokens master = tokensOfBooks chunksMap books
  /\ Forall (SummaryOf chunksMap) (mi_books master)
  /\ AllRefs (BuiltRef books) (mi_searchIndex master).
Proof.
  intros Hget Hin. cbv zeta.
  destruct (@masterLoop_summaries chunksMap bis books Hget Hin)
    as (Hids & Htok & Hsum & Hrefs).
  unfold buildMasterIndex, bind, newDate, ret. cbn [fst].
  unfold finishMasterIndex. cbv zeta.
  destruct (_ >? 100000);
    cbn [compressMasterIndex mi_books mi_totalBooks mi_totalTokens
         mi_searchIndex].
  - split; [|split; [reflexivity|split; [exact Htok|split]]].
    + rewrite map_map. cbn [bs_id]. exact Hids.
    + now apply compress_summaries.
    + now apply compress_refs.
  - repeat split; assumption.
Qed.

(** The master index of [buildAllIndexes]. *)
Lemma buildAllIndexes_master books chunksMap n :
  let all := fst (buildAllIndexes floatLength clock books chunksMap n) in
  List.map bs_id (mi_books (masterIndex all)) = List.map b_id books
  /\ mi_totalBooks (masterIndex all) = length books
  /\ mi_totalTokens (masterIndex all) = tokensOfBooks chunksMap books
  /\ Forall (SummaryOf chunksMap) (mi_books (masterIndex all))
  /\ AllRefs (BuiltRef books) (mi_searchIndex (masterIndex all))
  /\ (forall k bi, In (k, bi) (bookIndexes all) -> BuiltFor chunksMap k bi).
Proof.
  cbv zeta. unfold buildAllIndexes, bind.
  destruct (buildChunkIndexes clock chunksMap n) as [cis n1].
  pose proof (buildBookIndexes_built floatLength clock books chunksMap cis n1)
    as (Hget & Hin & _).
  destruct (buildBookIndexes floatLength clock books chunksMap cis n1)
    as [bis n2].
  cbn [fst] in Hget, Hin.
  pose proof (@buildMasterIndex_summaries chunksMap bis books n2 Hget Hin) as H.
  cbv zeta in H.
  destruct (buildMasterIndex floatLength clock books bis n2) as [mi n3].
  cbn [fst ret masterIndex bookIndexes] in *.
  destruct H as (H1 & H2 & H3 & H4 & H5). repeat split; assumption.
Qed.

End Master.

(** Without embeddings in the book summaries, Level 1 has no semantic
    score. *)
Lemma semanticMatches_without_embeddings index queryEmbedding :
  Forall (fun s => bs_keywordEmbeddings s = Some []) (mi_books index) ->
  semanticMatches index queryEmbedding = [].
Proof.
  intros H. unfold semanticMatches.
  destruct (semanticGate index queryEmbedding); [|reflexivity].
  induction H as [|s rest Hs _ IH]; cbn [fold_left]; [reflexivity|].
  rewrite Hs. exact IH.
Qed.

(** *** The themes at the head of a book *)

(** X14: the top themes of a book index are at most 10 distinct themes of
    its thematic map, ranked by the number of chunk ids that the map lists
    for them, the largest first. *)
Theorem extractTopThemes_ranked bookIndex :
  (length (extractTopThemes bookIndex) <= 10)%nat
  /\ NoDup (extractTopThemes bookIndex)
  /\ exists ranked,
       extractTopThemes bookIndex = List.map fst ranked
       /\ Descending countScore ranked
       /\ Forall (fun e => exists ids,
                    In (fst e, ids) (bi_thematicMap bookIndex)
                    /\ snd e = length ids)
                 ranked.
Proof.
  unfold extractTopThemes.
  set (themeCounts :=
         fold_left (fun (o : Obj.t nat) (e : ustring * list ustring) =>
                      Obj.set o (fst e) (length (snd e)))
                   (Obj.entries (bi_thematicMap bookIndex)) []).
  assert (NoDup (List.map fst themeCounts)
          /\ forall k n, In (k, n) themeCounts ->
                         exists ids, In (k, ids) (bi_thematicMap bookIndex)
                                     /\ n = length ids) as [Hnd Hin].
  { unfold themeCounts. apply fold_left_inv_In.
    - intros o e He (Hnd & Hin). split; [now apply NoDup_keys_set|].
      intros k n H. apply In_set in H as [H|[-> ->]]; [now apply Hin|].
      exists (snd e). split; [|reflexivity].
      rewrite entries_In in He. now destruct e.
    - split; [constructor|intros k n []]. }
  split; [|split].
  - rewrite length_map. apply length_firstn_le.
  - apply NoDup_map_firstn, NoDup_map_sortDesc. now apply entries_keys_NoDup.
  - eexists. split; [reflexivity|]. split.
    + apply Descending_firstn, sortDesc_sorted.
    + apply Forall_forall. intros [k n] H. apply In_firstn_sortDesc in H.
      rewrite entries_In in H. cbn [fst snd]. now apply Hin.
Qed.

End IndexMaster.

(* ================================================================= *)
(** ** The router: the three levels, the caches and the similarity *)

Module RouterLevels.
Import JS Chunker Index Router JSProps NumProps ObjProps RouterProps.

(** *** Level 1 *)

Lemma scoreBook_cases index lexical thematic semantic bookId :
  scoreBook index lexical thematic semantic bookId = []
  \/ exists b,
       scoreBook index lexical thematic semantic bookId = [b]
       /\ bk_bookId b = bookId
       /\ (bookFloor < bk_score b)%Q
       /\ exists s, In s (mi_books index)
                    /\ bs_id s = bookId /\ bs_title s = bk_title b.
Proof.
  unfold scoreBook.
  destruct (totalScore _ _ _) as [total| | |]; try (now left).
  destruct (Num.Qltb bookFloor total) eqn:L; [|now left].
  destruct (find _ _) as [book|] eqn:F; [|now left].
  right. eexists. split; [reflexivity|].
  apply find_some in F as [Hin F]. apply ueqb_eq in F.
  cbn [bk_bookId bk_score bk_title]. split; [exact F|].
  split; [now apply Qltb_lt|]. now exists book.
Qed.

Lemma NoDup_flat_map_keyed {A B} (f : A -> list B) (g : B -> A) l :
  NoDup l ->
  (forall x, f x = [] \/ exists y, f x = [y] /\ g y = x) ->
  NoDup (List.map g (flat_map f l)).
Proof.
  intros Hnd Hf. induction Hnd as [|x l Hx Hl IH]; cbn [flat_map List.map];
    [constructor|].
  destruct (Hf x) as [->|(y & -> & Hy)]; [exact IH|].
  cbn [app List.map]. constructor; [|exact IH].
  rewrite Hy. intros Hin. apply Hx.
  apply in_map_iff in Hin as (z & Hz & Hin).
  apply in_flat_map in Hin as (x' & Hx' & Hin).
  destruct (Hf x') as [E|(y' & E & Hy')]; rewrite E in Hin; [destruct Hin|].
  destruct Hin as [->|[]]. congruence.
Qed.

(** X19: with a master index loaded, Level 1 raises a [TypeError] when a
    keyword of the query names a member of [Object.prototype] that the
    search index or the thematic map does not have as a property of its
    own; otherwise it returns at most 3 books, ranked by their score, the
    largest first, each one a different book of the index, under the title
    of its summary, with a score above 0.1. *)
Theorem searchMasterIndex_ranked index query queryEmbedding queryKeywords :
  (~ Readable index queryKeywords
   /\ searchMasterIndex (Some index) query queryEmbedding queryKeywords
      = Throw notIterableError)
  \/ (Readable index queryKeywords
      /\ exists books,
           searchMasterIndex (Some index) query queryEmbedding queryKeywords
           = Ok books
           /\ (length books <= 3)%nat
           /\ Descending bk_score books
           /\ NoDup (List.map bk_bookId books)
           /\ Forall (fun b =>
                        (bookFloor < bk_score b)%Q
                        /\ exists s, In s (mi_books index)
                                     /\ bs_id s = bk_bookId b
                                     /\ bs_title s = bk_title b)
                     books).
Proof.
  destruct (existsb (notIterable (mi_searchIndex index)) queryKeywords
            || existsb (notIterable (mi_thematicMap index)) queryKeywords)
    eqn:Eb.
  { left. assert (~ Readable index queryKeywords) as Hn.
    { intros H. apply Readable_iff in H. congruence. }
    split; [exact Hn|]. now apply searchMasterIndex_raises. }
  right. apply Readable_iff in Eb. split; [exact Eb|].
  eexists. split; [now apply searchMasterIndex_returns|].
  split; [apply length_firstn_le|].
  split; [apply Descending_firstn, sortDesc_sorted|]. split.
  - apply NoDup_map_firstn, NoDup_map_sortDesc.
    apply NoDup_flat_map_keyed; [apply dedup_NoDup|].
    intros bookId.
    destruct (scoreBook_cases index (lexicalMatches index queryKeywords)
                (thematicMatches index queryKeywords)
                (semanticMatches index queryEmbedding) bookId)
      as [E|(b & E & Hb & _)]; [now left|right; now exists b].
  - apply Forall_forall. intros b Hb.
    apply In_firstn_sortDesc in Hb. apply in_flat_map in Hb as (bookId & _ & Hb).
    destruct (scoreBook_cases index (lexicalMatches index queryKeywords)
                (thematicMatches index queryKeywords)
                (semanticMatches index queryEmbedding) bookId)
      as [E|(b' & E & Hid & Hs & s & Hin & Es & Et)];
      rewrite E in Hb; [destruct Hb|].
    destruct Hb as [<-|[]]. split; [exact Hs|].
    exists s. rewrite Hid. now repeat split.
Qed.

(** *** Level 2 *)

(** A candidate of a book: a section of its index, scored above the floor. *)
Definition CandidateOf (bookIndex : BookIndex) (book : BookScore)
  (queryEmbedding : option (list Q)) (queryKeywords : list ustring)
  (c : SectionCandidate) : Prop :=
  sc_bookId c = bk_bookId book
  /\ (sectionFloor < sc_score c)%Q
  /\ (exists scored,
        In scored (bi_sections bookIndex)
        /\ si_id scored = sc_sectionId c
        /\ sc_score c = sectionScore book queryEmbedding queryKeywords scored)
  /\ exists sec,
       In sec (bi_sections bookIndex)
       /\ si_id sec = sc_sectionId c
       /\ sc_chunkIds c = si_chunkIds sec.

Lemma sectionCandidates_spec bookIndex book queryEmbedding queryKeywords :
  (length (sectionCandidates bookIndex book queryEmbedding queryKeywords) <= 5)%nat
  /\ Forall (CandidateOf bookIndex book queryEmbedding queryKeywords)
            (sectionCandidates bookIndex book queryEmbedding queryKeywords).
Proof.
  unfold sectionCandidates.
  set (sectionScores :=
         fold_left (fun (m : Obj.t Q) sec =>
                      let score := sectionScore book queryEmbedding
                                                queryKeywords sec in
                      if Num.Qltb sectionFloor score
                      then Obj.set m (si_id sec) score else m)
                   (bi_sections bookIndex) []).
  assert (forall k q, In (k, q) sectionScores ->
                      (sectionFloor < q)%Q
                      /\ exists scored,
                           In scored (bi_sections bookIndex)
                           /\ si_id scored = k
                           /\ q = sectionScore book queryEmbedding
                                               queryKeywords scored) as Hs.
  { unfold sectionScores. apply IndexMaster.fold_left_inv_In.
    - intros m sec Hsec Hm k q. cbv zeta.
      destruct (Num.Qltb sectionFloor _) eqn:L; [|apply Hm].
      intros H. apply In_set in H as [H|[-> ->]]; [now apply Hm|].
      split; [now apply Qltb_lt|]. now exists sec.
    - intros k q []. }
  split.
  - set (top := firstn 5 (Num.sortDesc snd sectionScores)).
    assert (length top <= 5)%nat as Hlen by apply length_firstn_le.
    clearbody top. clear Hs.
    induction top as [|e top IH]; cbn [flat_map length]; [lia|].
    cbn [length] in Hlen. rewrite length_app.
    assert (forall n, (length top <= n)%nat ->
              (length (flat_map
                 (fun e0 : ustring * Q =>
                    match find (fun sec => ueqb (si_id sec) (fst e0))
                               (bi_sections bookIndex) with
                    | Some sec =>
                        [mkCandidate (bk_bookId book) (fst e0) (snd e0)
                                     (si_chunkIds sec)]
                    | None => []
                    end) top) <= n)%nat) as Hf.
    { clear. induction top as [|e top IH]; intros n Hn; cbn [flat_map length];
        [lia|].
      cbn [length] in Hn. rewrite length_app.
      destruct n as [|n]; [lia|]. specialize (IH n ltac:(lia)).
      destruct (find _ _); cbn [length]; lia. }
    specialize (Hf 4%nat ltac:(lia)).
    destruct (find _ _); cbn [length]; lia.
  - apply Forall_forall. intros c Hc.
    apply in_flat_map in Hc as ([k q] & He & Hc). cbn [fst snd] in Hc.
    apply In_firstn_sortDesc in He.
    destruct (Hs k q He) as (Hq & scored & H1 & H2 & H3).
    destruct (find _ _) as [sec|] eqn:F; [|destruct Hc].
    apply find_some in F as [Hin F]. apply ueqb_eq in F.
    destruct Hc as [<-|[]]. unfold CandidateOf.
    cbn [sc_bookId sc_score sc_sectionId sc_chunkIds].
    split; [reflexivity|]. split; [exact Hq|]. split.
    + now exists scored.
    + now exists sec.
Qed.

(** X20: Level 2 returns at most 10 candidates, ranked by their score, the
    largest first; each one is a section of the index of one of the books
    of Level 1, with a score above 0.1, and lists the chunk ids of a
    section of that id. *)
Theorem searchBookIndexes_ranked bookIndexes books query queryEmbedding
  queryKeywords :
  let candidates := searchBookIndexes bookIndexes books query queryEmbedding
                                      queryKeywords in
  (length candidates <= 10)%nat
  /\ Descending sc_score candidates
  /\ Forall (fun c =>
               exists book bookIndex,
                 In book books
                 /\ Obj.get bookIndexes (bk_bookId book) = Some bookIndex
                 /\ CandidateOf bookIndex book queryEmbedding queryKeywords c)
            candidates.
Proof.
  cbv zeta. unfold searchBookIndexes.
  split; [apply length_firstn_le|].
  split; [apply Descending_firstn, sortDesc_sorted|].
  apply Forall_forall. intros c Hc. apply In_firstn_sortDesc in Hc.
  apply in_flat_map in Hc as (book & Hb & Hc).
  destruct (Obj.get bookIndexes (bk_bookId book)) as [bookIndex|] eqn:E;
    [|destruct Hc].
  exists book, bookIndex. split; [exact Hb|]. split; [exact E|].
  destruct (sectionCandidates_spec bookIndex book queryEmbedding queryKeywords)
    as [_ H].
  rewrite Forall_forall in H. now apply H.
Qed.

(** *** Level 3: the chunk cache *)

Section Loading.

Variable readChunk : ustring -> ustring -> option Chunk.

Lemma load_grows bookId chunkIds :
  forall cache chunks cache',
  loadChunksForSection readChunk cache bookId chunkIds = (chunks, cache') ->
  forall k c, Obj.get cache k = Some c -> Obj.get cache' k = Some c.
Proof.
  induction chunkIds as [|id rest IH]; intros cache chunks cache' H k c Hk;
    cbn [loadChunksForSection] in H.
  - inversion H; subst. exact Hk.
  - destruct (Obj.get cache id) as [chunk|] eqn:G.
    + destruct (loadChunksForSection readChunk cache bookId rest)
        as [chunks1 cache1] eqn:L.
      inversion H; subst. eapply IH; eassumption.
    + destruct (readChunk bookId id) as [chunk|] eqn:R.
      * destruct (loadChunksForSection readChunk (Obj.set cache id chunk)
                                       bookId rest) as [chunks1 cache1] eqn:L.
        inversion H; subst. eapply IH; [eassumption|].
        rewrite get_set_other; [exact Hk|]. intros ->. congruence.
      * eapply IH; eassumption.
Qed.

Lemma load_unread bookId chunkIds :
  forall cache chunks cache' id,
  loadChunksForSection readChunk cache bookId chunkIds = (chunks, cache') ->
  Obj.get cache id = None ->
  readChunk bookId id = None ->
  Obj.get cache' id = None.
Proof.
  induction chunkIds as [|id0 rest IH]; intros cache chunks cache' id H G R;
    cbn [loadChunksForSection] in H.
  - inversion H; subst. exact G.
  - destruct (Obj.get cache id0) as [chunk|] eqn:G0.
    + destruct (loadChunksForSection readChunk cache bookId rest)
        as [chunks1 cache1] eqn:L.
      inversion H; subst. eapply IH; eassumption.
    + destruct (readChunk bookId id0) as [chunk|] eqn:R0.
      * destruct (loadChunksForSection readChunk (Obj.set cache id0 chunk)
                                       bookId rest) as [chunks1 cache1] eqn:L.
        inversion H; subst. eapply IH; [eassumption| |exact R].
        rewrite get_set_other; [exact G|]. intros ->. congruence.
      * eapply IH; eassumption.
Qed.

(** The chunks cached under the ids, in order. *)
Definition cachedChunks (cache : Obj.t Chunk) (chunkIds : list ustring)
  : list Chunk :=
  flat_map (fun id => match Obj.get cache id with
                      | Some c => [c]
                      | None => []
                      end) chunkIds.

Lemma load_cached bookId chunkIds :
  forall cache chunks cache',
  loadChunksForSection readChunk cache bookId chunkIds = (chunks, cache') ->
  chunks = cachedChunks cache' chunkIds.
Proof.
  induction chunkIds as [|id rest IH]; intros cache chunks cache' H;
    cbn [loadChunksForSection] in H.
  - now inversion H; subst.
  - unfold cachedChunks. cbn [flat_map]. fold (cachedChunks cache' rest).
    destruct (Obj.get cache id) as [chunk|] eqn:G.
    + destruct (loadChunksForSection readChunk cache bookId rest)
        as [chunks1 cache1] eqn:L.
      inversion H; subst.
      rewrite (load_grows _ _ _ L _ G). cbn [app]. f_equal.
      eapply IH; eassumption.
    + destruct (readChunk bookId id) as [chunk|] eqn:R.
      * destruct (loadChunksForSection readChunk (Obj.set cache id chunk)
                                       bookId rest) as [chunks1 cache1] eqn:L.
        inversion H; subst.
        rewrite (load_grows _ _ _ L id (get_set_same cache id chunk)).
        cbn [app]. f_equal. eapply IH; eassumption.
      * rewrite (@load_unread bookId rest cache chunks cache' id H G R).
        cbn [app].
        eapply IH; eassumption.
Qed.

End Loading.

Lemma load_offline bookId chunkIds cache :
  loadChunksForSection (fun _ _ => None) cache bookId chunkIds
  = (cachedChunks cache chunkIds, cache).
Proof.
  induction chunkIds as [|id rest IH]; cbn [loadChunksForSection].
  - reflexivity.
  - unfold cachedChunks. cbn [flat_map]. fold (cachedChunks cache rest).
    rewrite IH. now destruct (Obj.get cache id).
Qed.

(** *** Level 3: what is returned *)

(** A chunk that the cache holds. *)
Definition Stored (cache : Obj.t Chunk) (c : Chunk) : Prop :=
  exists k, Obj.get cache k = Some c.

(** The chunks that Level 3 returns: chunks of the cache, the last of which
    may be cut to the tokens that are left, when the budget is a number
    and more than [partialFloor] are left. *)
Definition Retrieved (cache : Obj.t Chunk) (maxTokens : option Z)
  (chunks : list Chunk) : Prop :=
  exists whole cut,
    chunks = whole ++ cut
    /\ Forall (Stored cache) whole
    /\ (cut = []
        \/ exists limit c0,
             maxTokens = Some limit
             /\ cut = [truncateChunk c0 (limit - tokenSum whole)]
             /\ Stored cache c0
             /\ partialFloor < limit - tokenSum whole
             /\ limit - tokenSum whole < c_tokenCount c0).

Lemma addChunks_shape (P : Chunk -> Prop) candidateChunks maxTokens :
  forall chunks totalTokens chunks' total' returned,
  addChunks candidateChunks maxTokens chunks totalTokens
  = (chunks', total', returned) ->
  tokenSum chunks = totalTokens ->
  Forall P chunks -> Forall P candidateChunks ->
  (returned = false -> Forall P chunks' /\ tokenSum chunks' = total')
  /\ (returned = true ->
      exists whole cut,
        chunks' = whole ++ cut
        /\ Forall P whole
        /\ (cut = []
            \/ exists limit c0,
                 maxTokens = Some limit
                 /\ cut = [truncateChunk c0 (limit - tokenSum whole)]
                 /\ P c0
                 /\ partialFloor < limit - tokenSum whole
                 /\ limit - tokenSum whole < c_tokenCount c0)).
Proof.
  induction candidateChunks as [|chunk rest IH];
    intros chunks totalTokens chunks' total' returned E Hsum Hc Hcand;
    cbn [addChunks] in E.
  - inversion E; subst. split; [now split|discriminate].
  - inversion Hcand as [|? ? Hchunk Hrest]; subst.
    assert (addChunks rest maxTokens (chunks ++ [chunk])
                      (tokenSum chunks + c_tokenCount chunk)
            = (chunks', total', returned) ->
            (returned = false -> Forall P chunks' /\ tokenSum chunks' = total')
            /\ (returned = true ->
                exists whole cut,
                  chunks' = whole ++ cut
                  /\ Forall P whole
                  /\ (cut = []
                      \/ exists limit c0,
                           maxTokens = Some limit
                           /\ cut = [truncateChunk c0 (limit - tokenSum whole)]
                           /\ P c0
                           /\ partialFloor < limit - tokenSum whole
                           /\ limit - tokenSum whole < c_tokenCount c0)))
      as Hnext.
    { intros E'.
      apply (IH (chunks ++ [chunk]) (tokenSum chunks + c_tokenCount chunk)
                chunks' total' returned E').
      - apply tokenSum_snoc.
      - apply Forall_app. split; [exact Hc|]. now constructor.
      - exact Hrest. }
    destruct maxTokens as [limit|]; [|now apply Hnext].
    destruct (tokenSum chunks + c_tokenCount chunk >? limit) eqn:E1;
      [|now apply Hnext].
    rewrite Z.gtb_ltb in E1. apply Z.ltb_lt in E1.
    destruct (limit - tokenSum chunks >? partialFloor) eqn:E2;
      inversion E; subst; clear E; (split; [discriminate|]); intros _.
    + rewrite Z.gtb_ltb in E2. apply Z.ltb_lt in E2.
      eexists _, [_]. split; [reflexivity|]. split; [exact Hc|]. right.
      exists limit, chunk. repeat split; try assumption. lia.
    + eexists _, []. rewrite app_nil_r. split; [reflexivity|].
      split; [exact Hc|now left].
Qed.

(** Without a budget every chunk of the candidate is added whole. *)
Lemma addChunks_without_budget candidateChunks :
  forall chunks totalTokens,
  addChunks candidateChunks None chunks totalTokens
  = (chunks ++ candidateChunks,
     fold_left (fun sum chunk => sum + c_tokenCount chunk) candidateChunks
               totalTokens,
     false).
Proof.
  induction candidateChunks as [|chunk rest IH]; intros chunks totalTokens;
    cbn [addChunks fold_left].
  - now rewrite app_nil_r.
  - rewrite IH, <- app_assoc. reflexivity.
Qed.

Section Retrieving.

Variable readChunk : ustring -> ustring -> option Chunk.

Lemma load_stored bookId chunkIds cache chunks cache' :
  loadChunksForSection readChunk cache bookId chunkIds = (chunks, cache') ->
  Forall (Stored cache') chunks.
Proof.
  intros H. rewrite (load_cached readChunk bookId chunkIds cache H).
  apply Forall_forall. intros c Hc. unfold cachedChunks in Hc.
  apply in_flat_map in Hc as (id & _ & Hc).
  destruct (Obj.get cache' id) as [c'|] eqn:G; [|destruct Hc].
  destruct Hc as [<-|[]]. now exists id.
Qed.

Lemma Stored_grows bookId chunkIds cache chunks cache' c :
  loadChunksForSection readChunk cache bookId chunkIds = (chunks, cache') ->
  Stored cache c -> Stored cache' c.
Proof.
  intros H [k Hk]. exists k. eapply load_grows; eassumption.
Qed.

Lemma retrieveLoop_shape candidates maxTokens :
  forall cache chunks totalTokens,
  tokenSum chunks = totalTokens ->
  Forall (Stored cache) chunks ->
  Retrieved (snd (retrieveLoop readChunk candidates maxTokens cache chunks
                               totalTokens))
            maxTokens
            (fst (retrieveLoop readChunk candidates maxTokens cache chunks
                               totalTokens)).
Proof.
  induction candidates as [|candidate rest IH];
    intros cache chunks totalTokens Hsum Hc; cbn [retrieveLoop].
  - cbn [fst snd]. exists chunks, []. rewrite app_nil_r.
    split; [reflexivity|]. split; [exact Hc|now left].
  - destruct (loadChunksForSection readChunk cache (sc_bookId candidate)
                                   (sc_chunkIds candidate))
      as [candidateChunks cache1] eqn:L.
    pose proof (load_stored _ _ _ L) as Hl.
    assert (Forall (Stored cache1) chunks) as Hc1.
    { eapply Forall_impl; [|exact Hc]. intros c. eapply Stored_grows. exact L. }
    destruct (addChunks candidateChunks maxTokens chunks totalTokens)
      as [[chunks' total'] returned] eqn:E.
    destruct (@addChunks_shape (Stored cache1) _ _ _ _ _ _ _ E Hsum Hc1 Hl)
      as [Hfalse Htrue].
    destruct returned.
    + cbn [fst snd]. now apply Htrue.
    + destruct (Hfalse eq_refl) as [Hall Htot].
      destruct (enoughContext total' maxTokens).
      * cbn [fst snd]. exists chunks', []. rewrite app_nil_r.
        split; [reflexivity|]. split; [exact Hall|now left].
      * now apply IH.
Qed.

(** X22: the chunks that [retrieveChunks] returns are chunks of the cache
    as it leaves it, whole, followed by at most one chunk that is cut, and
    by none when the budget is [undefined]: a chunk of the cache with more
    tokens than the budget has left, cut to what is left, which is above
    10000 tokens. *)
Theorem retrieveChunks_whole_then_cut cache candidates maxTokens :
  Retrieved (snd (retrieveChunks readChunk cache candidates maxTokens))
            maxTokens
            (fst (retrieveChunks readChunk cache candidates maxTokens)).
Proof.
  unfold retrieveChunks. apply retrieveLoop_shape; [reflexivity|constructor].
Qed.

End Retrieving.

(** *** The similarity of two embeddings *)

Lemma Qmult_swap (x y : Q) : (x * y)%Q = (y * x)%Q.
Proof.
  unfold Qmult. f_equal; [apply Z.mul_comm|apply Pos.mul_comm].
Qed.

Lemma dot_swap_acc a b acc :
  fold_left (fun acc xy => (acc + fst xy * snd xy)%Q) (combine a b) acc
  = fold_left (fun acc xy => (acc + fst xy * snd xy)%Q) (combine b a) acc.
Proof.
  revert b acc. induction a as [|x a IH]; intros [|y b] acc;
    cbn [combine fold_left fst snd]; try reflexivity.
  rewrite (Qmult_swap x y). apply IH.
Qed.

Lemma dot_swap a b : dot a b = dot b a.
Proof. apply dot_swap_acc. Qed.

Lemma cosineSimilarity_swap a b : cosineSimilarity a b = cosineSimilarity b a.
Proof.
  unfold cosineSimilarity.
  rewrite (Nat.eqb_sym (length a) (length b)).
  destruct (length b =? length a)%nat; cbn [negb]; [|reflexivity].
  rewrite (dot_swap a b), (orb_comm (Qeq_bool (Num.sqrtQ (dot a a)) 0)).
  destruct (_ || _); [reflexivity|].
  now rewrite (Qmult_swap (Num.sqrtQ (dot a a))).
Qed.

Lemma cosineSimilarity_lengths a b :
  length a <> length b -> cosineSimilarity a b = 0%Q.
Proof.
  intros H. unfold cosineSimilarity.
  apply Nat.eqb_neq in H. now rewrite H.
Qed.

Lemma dot_null_acc a acc :
  Forall (fun x => Qnum x = 0) a -> Qnum acc = 0 ->
  Qnum (fold_left (fun acc xy => (acc + fst xy * snd xy)%Q) (combine a a) acc)
  = 0.
Proof.
  intros H. revert acc. induction H as [|x a Hx _ IH]; intros acc Hacc;
    cbn [combine fold_left fst snd]; [exact Hacc|].
  apply IH. cbn [Qplus Qmult Qnum]. rewrite Hx, Hacc. lia.
Qed.

Lemma sqrtQ_null q : Qnum q = 0 -> Qeq_bool (Num.sqrtQ q) 0 = true.
Proof.
  intros H. unfold Num.sqrtQ. rewrite H. reflexivity.
Qed.

Lemma cosineSimilarity_null a b :
  Forall (fun x => Qnum x = 0) a ->
  cosineSimilarity a b = 0%Q /\ cosineSimilarity b a = 0%Q.
Proof.
  intros H.
  assert (cosineSimilarity a b = 0%Q) as E.
  { unfold cosineSimilarity.
    destruct (negb _); [reflexivity|].
    assert (Qnum (dot a a) = 0) as Hd by (now apply dot_null_acc).
    now rewrite (sqrtQ_null _ Hd). }
  split; [exact E|]. now rewrite cosineSimilarity_swap.
Qed.

(** *** The keywords of a query *)

Lemma hebrewRuns_runs s :
  forall run,
  Forall (fun c => isHebrew c = true) run ->
  Forall (fun r => r <> [] /\ Forall (fun c => isHebrew c = true) r)
         (hebrewRuns s run).
Proof.
  induction s as [|c s IH]; intros run Hrun; cbn [hebrewRuns].
  - destruct run as [|d run]; [constructor|].
    constructor; [|constructor]. split.
    + intros H. apply (f_equal (@length _)) in H.
      rewrite length_rev in H. discriminate.
    + apply Forall_rev. exact Hrun.
  - destruct (isHebrew c) eqn:E.
    + apply IH. now constructor.
    + destruct run as [|d run]; [apply IH; constructor|].
      constructor; [|apply IH; constructor]. split.
      * intros H. apply (f_equal (@length _)) in H.
        rewrite length_rev in H. discriminate.
      * apply Forall_rev. exact Hrun.
Qed.

(** X26: the keywords of a query written with the characters of ASCII,
    Latin-1 and the Hebrew block are distinct; they are the words of the
    query in lower case that are longer than two characters, the runs of
    Hebrew letters of the query, and the words of the themes whose French
    name the query holds in lower case.  A run of Hebrew letters is not
    empty and holds Hebrew letters only. *)
Theorem extractQueryKeywords_sources query :
  Forall (fun c => latinOrHebrew c = true) query ->
  NoDup (extractQueryKeywords query)
  /\ (forall k,
        In k (extractQueryKeywords query) <->
        (In k (IndexBuilder.splitWords (toLowerCase query))
         /\ (2 < length k)%nat)
        \/ (existsb isHebrew query = true /\ In k (hebrewRuns query []))
        \/ exists e, In e themeMap
                     /\ includes (toLowerCase query) (fst e) = true
                     /\ In k (snd e))
  /\ Forall (fun r => r <> [] /\ Forall (fun c => isHebrew c = true) r)
            (hebrewRuns query []).
Proof.
  intros _.
  split; [apply dedup_NoDup|]. split; [|apply hebrewRuns_runs; constructor].
  intros k. unfold extractQueryKeywords. rewrite dedup_In, !in_app_iff.
  rewrite filter_In. unfold detectThematicKeywords. rewrite in_flat_map.
  split.
  - intros [[H1 H2]|[H|(e & He & H)]].
    + left. split; [exact H1|]. now apply Nat.ltb_lt.
    + right. left. destruct (existsb isHebrew query); [now split|destruct H].
    + right. right. exists e. split; [exact He|].
      destruct (includes (toLowerCase query) (fst e)); [now split|destruct H].
  - intros [[H1 H2]|[[H1 H2]|(e & He & H1 & H2)]].
    + left. split; [exact H1|]. now apply Nat.ltb_lt.
    + right. left. now rewrite H1.
    + right. right. exists e. split; [exact He|]. now rewrite H1.
Qed.

(** *** [route] and the cache of results *)

Section Routing.

Variable readChunk : ustring -> ustring -> option Chunk.
Variable generateEmbedding : ustring -> option (list Q).
Variable hashQuery : ustring -> ustring.

Lemma routeFresh_cases st query options :
  (rs_masterIndex st = None
   /\ routeFresh readChunk generateEmbedding hashQuery st query options
      = (Throw (lit "Master index not loaded"), st))
  \/ (exists index,
        rs_masterIndex st = Some index
        /\ ~ Readable index (extractQueryKeywords query)
        /\ routeFresh readChunk generateEmbedding hashQuery st query options
           = (Throw notIterableError, st))
  \/ (rs_masterIndex st <> None
      /\ routeFresh readChunk generateEmbedding hashQuery st query options
         = (Ok (createEmptyResult query), st))
  \/ (rs_masterIndex st <> None
      /\ exists r cache',
           routeFresh readChunk generateEmbedding hashQuery st query options
           = (Ok r,
              let st1 := mkRouterState (rs_masterIndex st) (rs_bookIndexes st)
                                       cache' (rs_redis st) in
              if useCacheOf options then cacheResult hashQuery st1 query r
              else st1)
           /\ rr_strategy r = lit "HierarchicalRouting"
           /\ rr_fromCache r = false).
Proof.
  unfold routeFresh.
  destruct (rs_masterIndex st) as [index|] eqn:M; [|now left].
  right.
  destruct (existsb (notIterable (mi_searchIndex index))
                    (extractQueryKeywords query)
            || existsb (notIterable (mi_thematicMap index))
                       (extractQueryKeywords query)) eqn:Eb.
  { left. exists index. split; [reflexivity|].
    assert (~ Readable index (extractQueryKeywords query)) as Hn.
    { intros H. apply Readable_iff in H. congruence. }
    split; [exact Hn|]. now rewrite searchMasterIndex_raises. }
  right. apply Readable_iff in Eb.
  rewrite (searchMasterIndex_returns query (generateEmbedding query) Eb).
  match goal with
  | |- context [firstn 3 ?l] => destruct (firstn 3 l) as [|b bs]
  end; [left; split; [discriminate|reflexivity]|].
  destruct (searchBookIndexes _ _ _ _ _) as [|c cs];
    [left; split; [discriminate|reflexivity]|].
  right. split; [discriminate|].
  destruct (retrieveChunks _ _ _ _) as [chunks cache'].
  eexists _, cache'. split; [reflexivity|]. split; reflexivity.
Qed.

(** X24: [route] throws only at a cache miss, and leaves the router as it
    was: the error is [Master index not loaded] for a router without a
    master index, and otherwise the [TypeError] of Level 1, for a query of
    which a keyword names a member of [Object.prototype] that the search
    index or the thematic map does not have as a property of its own. *)
Theorem route_throws_only_unloaded st query options message st' :
  route readChunk generateEmbedding hashQuery st query options
  = (Throw message, st')
  <-> (st' = st
       /\ cacheCheck hashQuery st query options = None
       /\ ((rs_masterIndex st = None
            /\ message = lit "Master index not loaded")
           \/ exists index,
                rs_masterIndex st = Some index
                /\ ~ Readable index (extractQueryKeywords query)
                /\ message = notIterableError)).
Proof.
  unfold route.
  destruct (cacheCheck hashQuery st query options) as [cached|] eqn:C.
  - split; [discriminate|]. intros (_ & H & _). discriminate.
  - destruct (routeFresh_cases st query options)
      as [[M E]|[(index & M & Hn & E)|[[M E]|(M & r & cache' & E & _)]]];
      rewrite E.
    + split.
      * intros H. inversion H; subst. split; [reflexivity|].
        split; [reflexivity|]. now left.
      * intros (-> & _ & [[_ ->]|(index & M' & _)]); [reflexivity|].
        congruence.
    + split.
      * intros H. inversion H; subst. split; [reflexivity|].
        split; [reflexivity|]. right. now exists index.
      * intros (-> & _ & [[M' _]|(index' & _ & _ & ->)]); [congruence|].
        reflexivity.
    + split; [discriminate|].
      intros (_ & _ & [[M' _]|(index & M' & Hn & _)]); [contradiction|].
      exfalso. unfold routeFresh in E. rewrite M' in E.
      now rewrite searchMasterIndex_raises in E.
    + split; [discriminate|].
      intros (_ & _ & [[M' _]|(index & M' & Hn & _)]); [contradiction|].
      exfalso. unfold routeFresh in E. rewrite M' in E.
      now rewrite searchMasterIndex_raises in E.
Qed.

Lemma setFromCache_twice r : setFromCache (setFromCache r) = setFromCache r.
Proof. reflexivity. Qed.

Lemma throughJson_twice r : throughJson (throughJson r) = throughJson r.
Proof.
  unfold throughJson. cbn [rr_query rr_books rr_sections rr_chunks
    rr_totalTokens rr_confidence rr_fromCache rr_strategy].
  now destruct (rr_confidence r) as [[q| | |]|].
Qed.

Lemma throughJson_setFromCache r :
  throughJson (setFromCache r) = setFromCache (throughJson r).
Proof. reflexivity. Qed.

(** A result whose confidence is a rational comes back from JSON as it
    was. *)
Lemma throughJson_finite r q :
  rr_confidence r = Num.Fin q -> throughJson r = r.
Proof.
  destruct r. cbn [rr_confidence]. intros ->. reflexivity.
Qed.

(** X23: with a connection to the store of results, a query that was
    routed with the cache in use and matched something is answered from
    the store when it is routed again: the same result as it comes back
    from its JSON text, with [null] for a confidence that is no rational,
    marked as cached, whatever the other options of the second call, and
    the router is left as it was. *)
Theorem route_repeats st query options options' r st' store :
  route readChunk generateEmbedding hashQuery st query options = (Ok r, st') ->
  rs_redis st = Some store ->
  useCacheOf options = true ->
  useCacheOf options' = true ->
  r <> createEmptyResult query ->
  route readChunk generateEmbedding hashQuery st' query options'
  = (Ok (setFromCache (throughJson r)), st').
Proof.
  intros E Hredis Hu Hu' Hne. unfold route in E.
  destruct (cacheCheck hashQuery st query options) as [cached|] eqn:C.
  - inversion E; subst. unfold route.
    unfold cacheCheck in *. rewrite Hu in C. rewrite Hu', C.
    unfold getCachedResult in C. rewrite Hredis in C.
    destruct (Obj.get store (cacheKey hashQuery query)) as [written|];
      [|discriminate].
    inversion C; subst.
    now rewrite throughJson_setFromCache, throughJson_twice.
  - destruct (routeFresh_cases st query options)
      as [[M E']|[(index & M & Hn & E')|[[M E']|(M & r' & cache' & E' & _)]]];
      rewrite E' in E.
    + discriminate.
    + discriminate.
    + inversion E; subst. congruence.
    + inversion E; subst. clear E. cbv zeta. rewrite Hu.
      unfold route, cacheCheck. rewrite Hu'.
      unfold getCachedResult, cacheResult. cbn [rs_redis]. rewrite Hredis.
      cbn [rs_redis]. now rewrite get_set_same.
Qed.

End Routing.

End RouterLevels.

(* ================================================================= *)
(** ** The response generator *)

Module GeneratorProps.
Import JS Chunker Router Generator JSProps ObjProps.

(** *** Texts that hold a pattern *)

Lemma startsWith_app pat rest : startsWith pat (pat ++ rest) = true.
Proof.
  induction pat as [|c pat IH]; cbn [startsWith app]; [reflexivity|].
  now rewrite N.eqb_refl, IH.
Qed.

Lemma includes_head s pat : startsWith pat s = true -> includes s pat = true.
Proof. intros H. destruct s; cbn [includes]; now rewrite H. Qed.

Lemma includes_middle pre pat rest : includes (pre ++ pat ++ rest) pat = true.
Proof.
  induction pre as [|c pre IH]; cbn [app].
  - apply includes_head, startsWith_app.
  - cbn [includes]. rewrite IH. apply orb_true_r.
Qed.

(** *** The bracketed texts *)

Definition openText (open : option ustring) : ustring :=
  match open with
  | Some run => 91%N :: rev run
  | None => []
  end.

Ltac reassoc :=
  repeat (cbn [app]; rewrite <- app_assoc); cbn [app]; reflexivity.

Lemma bracketed_groups s :
  forall open pre,
  match open with
  | Some run => ~ In 93%N run
  | None => True
  end ->
  Forall (fun g => g <> [] /\ ~ In 93%N g
                   /\ includes (pre ++ openText open ++ s)
                               (91%N :: g ++ [93%N]) = true)
         (bracketed s open).
Proof.
  induction s as [|c s IH]; intros open pre Hopen; cbn [bracketed];
    [constructor|].
  destruct open as [run|].
  - destruct (c =? 93)%N eqn:E.
    + apply N.eqb_eq in E. subst c.
      assert (Forall (fun g => g <> [] /\ ~ In 93%N g
                               /\ includes (pre ++ openText (Some run) ++ 93%N :: s)
                                           (91%N :: g ++ [93%N]) = true)
                     (bracketed s None)) as Hrest.
      { specialize (IH None (pre ++ openText (Some run) ++ [93%N]) I).
        eapply Forall_impl; [|exact IH].
        intros g (H1 & H2 & H3). split; [exact H1|]. split; [exact H2|].
        rewrite <- H3. f_equal. cbn [openText]. reassoc. }
      destruct run as [|d run]; [exact Hrest|].
      constructor; [|exact Hrest]. split; [|split].
      * intros H. apply (f_equal (@length _)) in H.
        rewrite length_rev in H. discriminate.
      * now rewrite <- in_rev.
      * cbn [openText].
        replace (pre ++ (91%N :: rev (d :: run)) ++ 93%N :: s)
          with (pre ++ (91%N :: rev (d :: run) ++ [93%N]) ++ s)
          by reassoc.
        apply includes_middle.
    + specialize (IH (Some (c :: run)) pre).
      assert (~ In 93%N (c :: run)) as Hrun.
      { cbn [In]. apply N.eqb_neq in E. intros [H|H]; [congruence|tauto]. }
      specialize (IH Hrun). eapply Forall_impl; [|exact IH].
      intros g (H1 & H2 & H3). split; [exact H1|]. split; [exact H2|].
      rewrite <- H3. f_equal. cbn [openText rev]. reassoc.
  - destruct (c =? 91)%N eqn:E.
    + apply N.eqb_eq in E. subst c.
      specialize (IH (Some []) pre (fun H => H)).
      exact IH.
    + specialize (IH None (pre ++ [c]) I).
      eapply Forall_impl; [|exact IH].
      intros g (H1 & H2 & H3). split; [exact H1|]. split; [exact H2|].
      rewrite <- H3. f_equal. cbn [openText]. reassoc.
Qed.

Lemma bracketed_without_bracket s :
  ~ In 91%N s -> bracketed s None = [].
Proof.
  induction s as [|c s IH]; cbn [bracketed In]; intros H; [reflexivity|].
  destruct (c =? 91)%N eqn:E.
  - apply N.eqb_eq in E. subst. tauto.
  - apply IH. tauto.
Qed.

(** A chunk whose reference holds the bracketed text, or the other way
    round. *)
Definition refersTo (citationText : ustring) (chunk : Chunk) : bool :=
  includes (c_reference chunk) citationText
  || includes citationText (c_reference chunk).

Definition Attributed (chunks : list Chunk) (cit : Citation) : Prop :=
  (exists chunk,
     In chunk chunks
     /\ refersTo (gc_text cit) chunk = true
     /\ gc_bookId cit = c_bookId chunk
     /\ gc_reference cit = c_reference chunk
     /\ gc_source cit = identifySource (c_bookId chunk))
  \/ (gc_bookId cit = []
      /\ gc_source cit = lit "Rabbi Nachman"
      /\ gc_reference cit = gc_text cit
      /\ Forall (fun chunk => refersTo (gc_text cit) chunk = false) chunks).

Lemma citationOf_attributed chunks citationText :
  gc_text (citationOf chunks citationText) = citationText
  /\ Attributed chunks (citationOf chunks citationText).
Proof.
  unfold citationOf. fold (refersTo citationText).
  destruct (find (refersTo citationText) chunks) as [chunk|] eqn:F.
  - split; [reflexivity|]. left. apply find_some in F as [Hin F].
    exists chunk. now repeat split.
  - split; [reflexivity|]. right. repeat split.
    apply Forall_forall. intros chunk Hin.
    now apply (find_none _ _ F).
Qed.

(** X27: a citation of a response is a text between brackets of the
    response: it is not empty and holds no closing bracket.  It takes the
    book, the reference and the source name of a chunk whose reference
    holds it or is held by it; when there is no such chunk, it
    has no book, itself as reference and [Rabbi Nachman] as source.  A
    response without an opening bracket has no citation. *)
Theorem extractCitations_attributed text chunks :
  Forall (fun cit =>
            gc_text cit <> []
            /\ ~ In 93%N (gc_text cit)
            /\ includes text (91%N :: gc_text cit ++ [93%N]) = true
            /\ Attributed chunks cit)
         (extractCitations text chunks)
  /\ (~ In 91%N text -> extractCitations text chunks = []).
Proof.
  unfold extractCitations. split.
  - apply Forall_map.
    eapply Forall_impl; [|apply (bracketed_groups text None [] I)].
    intros g (H1 & H2 & H3).
    destruct (citationOf_attributed chunks g) as [E Ha]. rewrite E.
    now repeat split.
  - intros H. now rewrite bracketed_without_bracket.
Qed.

(** *** The text for speech *)

(** The steps after the removal of the citations keep a property of the
    characters that holds of the space. *)
Lemma collapseBlanks_Forall (P : N -> Prop) s b :
  P 32%N -> Forall P s -> Forall P (collapseBlanks s b).
Proof.
  intros H32 H. revert b. induction H as [|c s Hc _ IH]; intros b;
    cbn [collapseBlanks]; [constructor|].
  destruct (isSpace c); [destruct b|]; try constructor; auto.
Qed.

Lemma collapseEllipses_Forall (P : N -> Prop) s :
  Forall P s -> Forall P (collapseEllipses s).
Proof.
  assert (forall n s, (length s <= n)%nat -> Forall P s ->
                      Forall P (collapseEllipses s)) as H.
  { induction n as [|n IH]; intros [|c1 rest1] Hlen Hs;
      cbn [collapseEllipses]; try constructor; cbn [length] in Hlen; try lia.
    - inversion Hs as [|? ? H1 Hr1]; subst.
      destruct rest1 as [|c2 [|c3 rest3]].
      + constructor; [exact H1|constructor].
      + constructor; [exact H1|]. apply IH; [cbn [length] in *; lia|exact Hr1].
      + inversion Hr1 as [|? ? H2 Hr2]; subst.
        inversion Hr2 as [|? ? H3 Hr3]; subst.
        destruct ((c1 =? 46) && (c2 =? 46) && (c3 =? 46))%N eqn:E.
        * apply andb_true_iff in E as [E _]. apply andb_true_iff in E as [E _].
          apply N.eqb_eq in E. subst c1.
          constructor; [exact H1|]. apply IH; [cbn [length] in *; lia|exact Hr3].
        * constructor; [exact H1|]. apply IH; [cbn [length] in *; lia|exact Hr1]. }
  intros Hs. now apply (H (length s)).
Qed.

Lemma collapseNewlines_Forall (P : N -> Prop) s b :
  Forall P s -> Forall P (collapseNewlines s b).
Proof.
  intros H. revert b. induction H as [|c s Hc _ IH]; intros b;
    cbn [collapseNewlines]; [constructor|].
  destruct (c =? 10)%N eqn:E.
  - apply N.eqb_eq in E. subst c. destruct b; [apply IH|].
    constructor; [exact Hc|apply IH].
  - constructor; [exact Hc|apply IH].
Qed.

Lemma pauseAfter_Forall (P : N -> Prop) mark s :
  P 32%N -> Forall P s -> Forall P (pauseAfter mark s).
Proof.
  intros H32 H. unfold pauseAfter.
  induction H as [|c s Hc _ IH]; cbn [flat_map]; [constructor|].
  destruct (c =? mark)%N; cbn [app]; repeat constructor; assumption.
Qed.

Lemma dropWhile_Forall (P : N -> Prop) p s :
  Forall P s -> Forall P (dropWhile p s).
Proof.
  induction 1 as [|c s Hc Hs IH]; cbn [dropWhile]; [constructor|].
  destruct (p c); [exact IH|now constructor].
Qed.

Lemma trim_Forall (P : N -> Prop) s : Forall P s -> Forall P (trim s).
Proof.
  intros H. unfold trim.
  apply Forall_rev, dropWhile_Forall, Forall_rev, dropWhile_Forall, H.
Qed.

Lemma dropWhile_head p s c :
  hd_error (dropWhile p s) = Some c -> p c = false.
Proof.
  induction s as [|d s IH]; cbn [dropWhile]; [discriminate|].
  destruct (p d) eqn:E; [exact IH|].
  cbn. intros H. now inversion H; subst.
Qed.

Lemma dropWhile_suffix p s : exists pre, s = pre ++ dropWhile p s.
Proof.
  induction s as [|d s [pre IH]]; cbn [dropWhile]; [now exists []|].
  destruct (p d); [|now exists []].
  exists (d :: pre). cbn [app]. now rewrite <- IH.
Qed.

(** No blank at either end of a trimmed text. *)
Lemma trim_ends s c :
  (hd_error (trim s) = Some c -> isSpace c = false)
  /\ (hd_error (rev (trim s)) = Some c -> isSpace c = false).
Proof.
  unfold trim. split.
  - set (t := dropWhile isSpace s).
    intros H.
    destruct (dropWhile_suffix isSpace (rev t)) as [pre E].
    destruct (dropWhile isSpace (rev t)) as [|x rest] eqn:D.
    + cbn in H. discriminate.
    + assert (rev (x :: rest) = rev (x :: rest)) as _ by reflexivity.
      apply (f_equal (@rev N)) in E. rewrite rev_involutive, rev_app_distr in E.
      destruct (rev (x :: rest)) as [|y ys] eqn:R.
      * apply (f_equal (@length _)) in R. rewrite length_rev in R. discriminate.
      * cbn in H. inversion H; subst y.
        apply (dropWhile_head isSpace s). fold t. rewrite E. reflexivity.
  - rewrite rev_involutive. apply dropWhile_head.
Qed.

Lemma collapseBlanks_spaces s b :
  Forall (fun c => isSpace c = true -> c = 32%N) (collapseBlanks s b).
Proof.
  revert b. induction s as [|c s IH]; intros b; cbn [collapseBlanks];
    [constructor|].
  destruct (isSpace c) eqn:E.
  - destruct b; [apply IH|]. constructor; [reflexivity|apply IH].
  - constructor; [|apply IH]. intros H. congruence.
Qed.

Definition stripped (text : ustring) (language : Language) : ustring :=
  match language with
  | hebrew => stripBracketed text None
  | _ => filter (fun c => negb (isHebrew c)) (stripBracketed text None)
  end.

Lemma optimizeForAudio_steps text language :
  optimizeForAudio text language
  = trim (pauseAfter 58 (pauseAfter 44 (pauseAfter 46
      (collapseNewlines
         (collapseEllipses (collapseBlanks (stripped text language) false))
         false)))).
Proof. reflexivity. Qed.

Lemma optimizeForAudio_Forall (P : N -> Prop) text language :
  P 32%N ->
  Forall P (collapseBlanks (stripped text language) false) ->
  Forall P (optimizeForAudio text language).
Proof.
  intros H32 H. rewrite optimizeForAudio_steps.
  apply trim_Forall.
  repeat (apply pauseAfter_Forall; [exact H32|]).
  apply collapseNewlines_Forall, collapseEllipses_Forall, H.
Qed.

(** X28: the text for speech starts and ends with no blank, and a blank in
    it is a plain space: tabs and line breaks are gone.  For a language
    other than Hebrew it holds no character of the Hebrew block. *)
Theorem optimizeForAudio_clean text language :
  (language <> hebrew ->
   Forall (fun c => isHebrew c = false) (optimizeForAudio text language))
  /\ Forall (fun c => isSpace c = true -> c = 32%N)
            (optimizeForAudio text language)
  /\ (forall c, hd_error (optimizeForAudio text language) = Some c ->
                isSpace c = false)
  /\ (forall c, hd_error (rev (optimizeForAudio text language)) = Some c ->
                isSpace c = false).
Proof.
  split; [|split; [|split]].
  - intros Hl. apply optimizeForAudio_Forall; [reflexivity|].
    apply collapseBlanks_Forall; [reflexivity|].
    assert (Forall (fun c => isHebrew c = false)
                   (filter (fun c => negb (isHebrew c))
                           (stripBracketed text None))) as H.
    { apply Forall_forall. intros c Hc. apply filter_In in Hc as [_ Hc].
      now apply negb_true_iff in Hc. }
    destruct language; [congruence|exact H|exact H].
  - apply optimizeForAudio_Forall; [reflexivity|apply collapseBlanks_spaces].
  - intros c. rewrite optimizeForAudio_steps. apply trim_ends.
  - intros c. rewrite optimizeForAudio_steps. apply trim_ends.
Qed.

(** *** The context *)

Lemma block_nonempty label reference text : block label reference text <> [].
Proof.
  unfold block. intros H. apply (f_equal (@length _)) in H.
  rewrite !length_app in H. cbn [length lit list_ascii_of_string List.map] in H.
  lia.
Qed.

Lemma block_reference label reference text :
  includes (block label reference text) reference = true.
Proof.
  unfold block. apply (includes_middle label reference).
Qed.

Lemma includes_app_r a b pat : includes b pat = true -> includes (a ++ b) pat = true.
Proof.
  intros H. induction a as [|c a IH]; cbn [app]; [exact H|].
  cbn [includes]. rewrite IH. apply orb_true_r.
Qed.

(** The part of a chunk that has a Hebrew text: it holds a block, and with
    it the reference of the chunk. *)
Lemma contextPart_hebrew language includeHebrew chunk :
  c_hebrew chunk <> [] ->
  contextPart language includeHebrew chunk <> []
  /\ includes (contextPart language includeHebrew chunk) (c_reference chunk)
     = true.
Proof.
  intros Hne. unfold contextPart. cbv zeta.
  destruct (c_hebrew chunk) as [|h hs] eqn:Eh; [congruence|].
  assert (forall a label text,
            a ++ block label (c_reference chunk) text <> []
            /\ includes (a ++ block label (c_reference chunk) text)
                        (c_reference chunk) = true) as Hb.
  { intros a label text. split.
    - intros H. apply app_eq_nil in H as [_ H]. now apply block_nonempty in H.
    - apply includes_app_r, block_reference. }
  destruct includeHebrew; cbn [negb app];
    destruct language, (truthy (c_french chunk)), (truthy (c_english chunk));
    try apply Hb; try apply (Hb []).
Qed.

Lemma join_nonempty sep parts part :
  In part parts -> part <> [] -> join sep parts <> [].
Proof.
  induction parts as [|p parts IH]; [intros []|].
  intros [->|Hin] Hne; cbn [join].
  - destruct parts; [exact Hne|].
    intros H. apply app_eq_nil in H as [H _]. contradiction.
  - destruct parts as [|q parts]; [destruct Hin|].
    intros H. apply app_eq_nil in H as [_ H]. apply app_eq_nil in H as [_ H].
    now apply (IH Hin Hne).
Qed.

(** X29: the context of no chunk is the notice that no text was found;
    the context of chunks of which one has a Hebrew text is not empty, and
    the part of a chunk that has a Hebrew text holds the reference of the
    chunk. *)
Theorem buildContext_parts chunks language includeHebrew :
  (chunks = [] -> buildContext chunks language includeHebrew = noTextFound)
  /\ (Exists (fun chunk => c_hebrew chunk <> []) chunks ->
      buildContext chunks language includeHebrew <> [])
  /\ Forall (fun chunk =>
               c_hebrew chunk <> [] ->
               includes (contextPart language includeHebrew chunk)
                        (c_reference chunk) = true)
            chunks.
Proof.
  split; [now intros ->|]. split.
  - intros H. apply Exists_exists in H as (chunk & Hin & Hne).
    unfold buildContext. destruct chunks as [|c0 rest]; [destruct Hin|].
    apply (@join_nonempty _ _ (contextPart language includeHebrew chunk)).
    + now apply in_map.
    + now apply contextPart_hebrew.
  - apply Forall_forall. intros chunk _ Hne. now apply contextPart_hebrew.
Qed.

End GeneratorProps.

(* ================================================================= *)
(** ** The chunker: units, overlap contexts and chunks *)

Module ChunkerFacts.
Import JS Chunker ChunkerProps JSProps ObjProps ChunkerUnits ChunkerChunks.

(** Sample inputs: a section that carries nothing but its text. *)
Definition teaching (text : string) : BookSection :=
  mkSection None (lit text) None None (lit "ref") 0.

(** Three teachings of 10, 21 and 10 tokens. *)
Definition threeTeachings : Book :=
  mkBook (lit "likutey_moharan_1") None None
         [teaching "Torah 1 aaaaaaaaaaaaaaaaaaaaaaaaaaaaa";
          teaching "Torah 2 aaaaaaaaaaaaaaaaaaaaaaaaaaaaaaaaaaaaaaaaaaaaaaaaaaaaaaaaaaaaaaaaaaaaaaaaa";
          teaching "Torah 3 aaaaaaaaaaaaaaaaaaaaaaaaaaaaa"].

Definition threeUnits : list SemanticUnit := identifyTorahUnits threeTeachings.

(** X1: the overlap context of a budget that is not negative has at most
    four characters for each token of the budget, one line break for each
    section and the three characters of the ellipsis. *)
Theorem getOverlapContext_length units budget position :
  0 <= budget ->
  Z.of_nat (length (getOverlapContext units budget position))
  <= 4 * budget + Z.of_nat (length (flat_map u_sections units)) + 3.
Proof.
  intros Hb. unfold getOverlapContext. cbv zeta. destruct position.
  - pose proof (@contextStart_length
                  (List.map s_hebrewText (flat_map u_sections units))
                  budget [] 0 Hb) as H.
    rewrite length_map in H. cbn [length] in H. lia.
  - pose proof (@contextEnd_length
                  (rev (List.map s_hebrewText (flat_map u_sections units)))
                  budget [] 0 Hb) as H.
    rewrite length_rev, length_map in H. cbn [length] in H. lia.
Qed.

Lemma getOverlapContext_length_witness :
  0 <= 3
  /\ Z.of_nat (length (getOverlapContext threeUnits 3 atEnd))
     <= 4 * 3 + Z.of_nat (length (flat_map u_sections threeUnits)) + 3.
Proof.
  split; [lia|]. apply (getOverlapContext_length threeUnits atEnd). lia.
Defined.

(** X2: when the texts of the units fit in the budget together, the overlap
    context is, at the start as at the end, every text in the order of the
    sections, each one followed by a line break, and nothing is cut. *)
Theorem getOverlapContext_whole units budget position :
  textTokens (List.map s_hebrewText (flat_map u_sections units)) <= budget ->
  getOverlapContext units budget position
  = wholeContext (List.map s_hebrewText (flat_map u_sections units)).
Proof.
  intros Hb. unfold getOverlapContext. cbv zeta. destruct position.
  - rewrite contextStart_whole; [reflexivity|lia].
  - rewrite contextEnd_whole.
    + now rewrite rev_involutive, app_nil_r.
    + rewrite textTokens_rev. lia.
Qed.

Lemma getOverlapContext_whole_witness :
  textTokens (List.map s_hebrewText (flat_map u_sections threeUnits)) <= 50
  /\ getOverlapContext threeUnits 50 atEnd
     = wholeContext (List.map s_hebrewText (flat_map u_sections threeUnits)).
Proof.
  assert (textTokens (List.map s_hebrewText (flat_map u_sections threeUnits))
          <= 50) as H by (vm_compute; discriminate).
  split; [exact H|]. exact (getOverlapContext_whole threeUnits atEnd H).
Defined.

(** X3: the default units of a book are its sections by tens: there are
    [ceil(n / 10)] units for [n] sections, and the unit of rank [k], named
    [unit_(k+1)], holds the sections [10k .. 10k+9], their tokens and the
    themes of their joined texts. *)
Theorem identifyDefaultUnits_by_tens book :
  length (identifyDefaultUnits book) = ((length (b_sections book) + 9) / 10)%nat
  /\ forall k u,
       nth_error (identifyDefaultUnits book) k = Some u ->
       TenthUnit (b_sections book) k u.
Proof. apply identifyDefaultUnits_tenths. Qed.

(** The units of a heuristic over the sections of a book. *)
Definition MarkedUnits (h : Heuristic) (book : Book)
  (units : list SemanticUnit) : Prop :=
  length units = length (filter (h_isStart h) (b_sections book))
  /\ forall k u, nth_error units k = Some u -> MarkedUnit h k u.

(** X4: the teachings, stories and prayers of a book are as many as the
    sections that open one; the unit of rank [k] is named by the prefix of
    its kind and [k + 1], starts with a section that opens a unit and holds
    no other one, counts the tokens of its sections and takes its themes
    from the text of its first section. *)
Theorem marker_units_spec book :
  MarkedUnits torahHeuristic book (identifyTorahUnits book)
  /\ MarkedUnits storyHeuristic book (identifyStoryUnits book)
  /\ MarkedUnits prayerHeuristic book (identifyPrayerUnits book).
Proof.
  unfold MarkedUnits, identifyTorahUnits, identifyStoryUnits,
    identifyPrayerUnits.
  split; [|split]; apply unitsLoop_marked.
Qed.

(** X5: [chunkBook] returns no chunk for any book: when the book has a
    semantic unit, the scan for citations of the first chunk raises a
    [TypeError], whatever the options and the digest; when it has none, the
    list returned is empty. *)
Theorem chunkBook_returns_no_chunk md5hex8 book options :
  (identifySemanticUnits book <> [] ->
   chunkBook md5hex8 extractCitations book options = None)
  /\ (identifySemanticUnits book = [] ->
      chunkBook md5hex8 extractCitations book options = Some []).
Proof.
  destruct (identifySemanticUnits_sections book) as [Hs Hne].
  split; intros Hu.
  - apply chunkBook_raises. rewrite <- Hs.
    destruct (identifySemanticUnits book) as [|u units]; [congruence|].
    inversion Hne as [|? ? Hsec _]; subst. cbn [flat_map].
    intros H. apply app_eq_nil in H as [H _]. contradiction.
  - apply chunkBook_without_units. rewrite <- Hs, Hu. reflexivity.
Qed.

(** X6: every unit of every group from which the chunks of a book are
    made, be it a unit of a heuristic, a default unit or a part of a unit
    that was split, has an id made of lower-case letters, digits and
    underscores, and themes that are names of the two theme tables of the
    chunker. *)
Theorem group_units_vocabulary book options :
  Forall (Forall (fun u => PlainId (u_id u) /\ KnownThemes (u_themes u)))
         (groupUnitsIntoChunks (identifySemanticUnits book) options).
Proof.
  apply (@groupUnitsIntoChunks_Forall PlainUnit).
  - intros u n secs t. apply PlainUnit_partOf.
  - apply identifySemanticUnits_plain.
Qed.

End ChunkerFacts.

(* ================================================================= *)
(** ** The index builder: words, sections, links and the master index *)

Module IndexFacts.
Import JS Chunker Index IndexBuilder Router JSProps NumProps ObjProps
       IndexProps ChunkerChunks IndexWords IndexSections IndexMaster.

(** Sample words. *)
Definition threeWords : list ustring := [lit "joy"; lit "faith"; lit "joy"].
Definition threeWordsText : ustring := lit "joy faith joy".

Lemma threeWords_own : Forall (fun w => Obj.inherited w = false) threeWords.
Proof. now repeat constructor. Qed.

(** X7: for items that name no member of [Object.prototype],
    [countOccurrences] keeps the items in the order of their first
    occurrence, and has as property of an item the number of its
    occurrences and no property for a string that is not among the
    items. *)
Theorem countOccurrences_counts items :
  Forall (fun w => Obj.inherited w = false) items ->
  List.map fst (countOccurrences items) = dedup items
  /\ forall w,
       Obj.get (countOccurrences items) w = someIfPositive (occurrences items w).
Proof. intros _. apply countOccurrences_spec. Qed.

Lemma countOccurrences_counts_witness :
  List.map fst (countOccurrences threeWords) = dedup threeWords
  /\ forall w,
       Obj.get (countOccurrences threeWords) w
       = someIfPositive (occurrences threeWords w).
Proof. exact (countOccurrences_counts threeWords_own). Defined.

Lemma extractKeywords_ranked_witness :
  extractKeywords threeWordsText = [lit "joy"; lit "faith"]
  /\ (length (extractKeywords threeWordsText) <= 50)%nat
  /\ NoDup (extractKeywords threeWordsText)
  /\ Forall (fun w => In w (splitWords threeWordsText)
                      /\ (2 < length w)%nat
                      /\ ~ In w stopWords)
            (extractKeywords threeWordsText)
  /\ exists ranked,
       extractKeywords threeWordsText = List.map fst ranked
       /\ Descending countScore ranked
       /\ Forall (fun e => snd e = occurrences (splitWords threeWordsText)
                                               (fst e))
                 ranked.
Proof.
  split; [reflexivity|].
  exact (@extractKeywords_ranked threeWordsText threeWords_own).
Defined.


(** Two chunks with the themes of prayer and of joy. *)
Definition themed (id : string) (themes : list ustring) : Chunk :=
  mkChunk (lit id) (lit "book") (lit "unit_1") (lit "text") None None
          (lit "ref") 0 0 1 themes [] None None None.

Definition themedChunks : list Chunk :=
  [themed "c1" [he_tefila; he_simcha]; themed "c2" [he_simcha]].

Lemma buildThematicMap_lookup_witness :
  Obj.get (buildThematicMap themedChunks) he_simcha
  = Some [lit "c1"; lit "c2"]
  /\ Obj.get (buildThematicMap themedChunks) he_simcha
     = optOf (idsOfTheme he_simcha themedChunks).
Proof.
  split; [reflexivity|].
  apply (@buildThematicMap_lookup themedChunks he_simcha).
  now repeat constructor.
Defined.

(** X13: a related chunk is another chunk index with which the chunk has
    a theme list that is not empty on both sides, and likewise a keyword
    list: when neither chunk has a theme, or neither a keyword, the score
    is not a number and the pair is not related, whatever else they
    share. *)
Theorem related_chunks_need_both_scores chunkIndexes :
  Forall (fun e =>
            forall id,
            In id (ci_relatedChunks (snd e)) ->
            exists other,
              In other (List.map snd chunkIndexes)
              /\ ci_chunkId other = id
              /\ ~ (ci_themes (snd e) = [] /\ ci_themes other = [])
              /\ ~ (ci_keywords (snd e) = [] /\ ci_keywords other = []))
         (findRelatedChunks chunkIndexes).
Proof.
  apply Forall_forall. intros [key ci] H. cbn [snd].
  apply findRelatedChunks_In in H as (ci0 & Hin & ->).
  cbn [ci_relatedChunks setRelated ci_themes ci_keywords]. unfold relatedOf.
  intros id Hid. apply in_map_iff in Hid as ([id' q] & E & Hq).
  cbn [fst] in E. subst id'.
  apply In_firstn_sortDesc in Hq.
  apply relatedCandidates_spec in Hq as (other & H1 & H2 & H3 & H4 & H5).
  exists other. split; [exact H1|]. split; [exact H2|]. split.
  - intros HA. rewrite (@similarity_undefined ci0 other (or_introl HA)) in H4.
    discriminate.
  - intros HA. rewrite (@similarity_undefined ci0 other (or_intror HA)) in H4.
    discriminate.
Qed.

Lemma reference_round_trip_witness :
  hd [] (splitColon (lit "likutey_moharan_1" ++ lit ":" ++ ofNat 12) [])
  = lit "likutey_moharan_1"
  /\ parseInt (nth_error
                 (splitColon (lit "likutey_moharan_1" ++ lit ":" ++ ofNat 12) [])
                 1)
     = Num.ofNat 12.
Proof.
  apply (reference_round_trip (lit "likutey_moharan_1") 12).
  intros H. cbn in H.
  repeat (destruct H as [H|H]; [discriminate|]). exact H.
Defined.

(** The facts of a book index that the builder files under a key. *)
Definition FiledUnder (chunksMap : Obj.t (list Chunk))
  (e : ustring * BookIndex) : Prop :=
  bi_bookId (snd e) = fst e
  /\ bi_totalTokens (snd e) = tokensOf (chunksFor chunksMap (fst e))
  /\ List.map cr_id (bi_chunks (snd e))
     = List.map c_id (chunksFor chunksMap (fst e)).

(** X16: the master index that [buildAllIndexes] returns, compressed or
    not, has one summary for each book of the list in the order of the
    list; its totals are the number of the books and the sum of the tokens
    of the chunks filed under their ids; a summary has the tokens and the
    number of the chunks of its book and an empty list of keyword
    embeddings; every reference of the search index is [<bookId>:<count>]
    for a book of the list; and a book index lists, under the id of its
    book, the chunks of the book and the sum of their tokens. *)
Theorem buildAllIndexes_totals floatLength clock books chunksMap n :
  let all := fst (buildAllIndexes floatLength clock books chunksMap n) in
  List.map bs_id (mi_books (masterIndex all)) = List.map b_id books
  /\ mi_totalBooks (masterIndex all) = length books
  /\ mi_totalTokens (masterIndex all) = tokensOfBooks chunksMap books
  /\ Forall (SummaryOf chunksMap) (mi_books (masterIndex all))
  /\ AllRefs (BuiltRef books) (mi_searchIndex (masterIndex all))
  /\ Forall (FiledUnder chunksMap) (bookIndexes all).
Proof.
  cbv zeta.
  destruct (buildAllIndexes_master floatLength clock books chunksMap n)
    as (H1 & H2 & H3 & H4 & H5 & H6).
  repeat (split; [assumption|]).
  apply Forall_forall. intros [k bi] Hin.
  destruct (BuiltFor_facts (H6 k bi Hin)) as (F1 & F2 & _ & F4 & _).
  now repeat split.
Qed.

(** X17: on a master index as [buildAllIndexes] returns it, the semantic
    search of Level 1 matches no book, whatever the embedding of the
    query: the summaries are built with an empty list of keyword
    embeddings. *)
Theorem built_index_has_no_semantic_match floatLength clock books chunksMap n
  queryEmbedding :
  semanticMatches
    (masterIndex (fst (buildAllIndexes floatLength clock books chunksMap n)))
    queryEmbedding
  = [].
Proof.
  apply semanticMatches_without_embeddings.
  destruct (buildAllIndexes_master floatLength clock books chunksMap n)
    as (_ & _ & _ & H & _).
  eapply Forall_impl; [|exact H]. intros s Hs. apply Hs.
Qed.

(** A chunk of the first teaching of a book, with the theme of prayer. *)
Definition firstTeaching : Chunk :=
  mkChunk (lit "likutey_moharan_1_chunk_0_0a0a0a0a") (lit "likutey_moharan_1")
          (lit "torah_1") (lit "Torah 1") None None (lit "ref") 0 0 2
          [he_tefila] [] None None None.

Definition firstBook : Book :=
  mkBook (lit "likutey_moharan_1") None None [].

(** X18: the index of a book whose id holds [likutey_moharan] or
    [sippurei_maasiyot] has an empty hierarchy, compressed or not, when the
    section ids of its chunks are made of lower-case letters, digits and
    underscores, as the ids of the units of the chunker are, and the themes
    of the chunks are names of its theme tables: a section is titled
    [Section <id>], which holds neither [Torah] nor a Hebrew marker, and no
    theme is [story]. *)
Theorem buildBookIndex_empty_hierarchy now book chunks chunkIndexes :
  Forall (fun c => PlainId (c_sectionId c) /\ KnownThemes (c_themes c))
         chunks ->
  structuredId (b_id book) = true ->
  bi_hierarchy (buildBookIndex now book chunks chunkIndexes) = []
  /\ bi_hierarchy (compressBookIndex
                     (buildBookIndex now book chunks chunkIndexes)) = [].
Proof. intros Hc Hb. now apply buildBookIndex_plain. Qed.

Lemma buildBookIndex_empty_hierarchy_witness :
  List.map si_title (bi_sections (buildBookIndex 0 firstBook [firstTeaching] []))
  = [lit "Section torah_1"]
  /\ bi_hierarchy (buildBookIndex 0 firstBook [firstTeaching] []) = []
  /\ bi_hierarchy (compressBookIndex
                     (buildBookIndex 0 firstBook [firstTeaching] [])) = [].
Proof.
  split; [reflexivity|].
  apply (@buildBookIndex_empty_hierarchy 0 firstBook [firstTeaching] []).
  - constructor; [|constructor]. split.
    + unfold PlainId. now repeat constructor.
    + unfold KnownThemes. constructor; [|constructor].
      vm_compute. tauto.
  - reflexivity.
Defined.

End IndexFacts.

(* ================================================================= *)
(** ** The router: levels, caches and the similarity of embeddings *)

Module RouterFacts.
Import JS Chunker Index Router JSProps NumProps ObjProps RouterProps
       RouterLevels.

(** *** Sample corpus: two books of one chunk each *)

Definition demoChunk (id bookId : string) : Chunk :=
  mkChunk (lit id) (lit bookId) (lit "s1") (lit "joy faith hope") None None
          (lit "ref") 0 0 50000 [lit "joy"] [] None None None.

Definition demoChunks : Obj.t (list Chunk) :=
  [ (lit "bookA", [demoChunk "a1" "bookA"]);
    (lit "bookB", [demoChunk "b1" "bookB"]) ].

Definition demoBooks : list Book :=
  [ mkBook (lit "bookA") (Some (lit "A")) None [];
    mkBook (lit "bookB") (Some (lit "B")) None [] ].

Definition demoIndexes : IndexBuilder.AllIndexes :=
  fst (IndexBuilder.buildAllIndexes (fun _ => 3) (fun _ => 0)
                                    demoBooks demoChunks 0%nat).

(** A router that has loaded the indexes, with a connection to an empty
    store of results. *)
Definition demoState : RouterState :=
  mkRouterState (Some (IndexBuilder.masterIndex demoIndexes))
                (IndexBuilder.bookIndexes demoIndexes) [] (Some []).

Definition readDemo (bookId chunkId : ustring) : option Chunk :=
  match Obj.get demoChunks bookId with
  | Some chunks => find (fun c => ueqb (c_id c) chunkId) chunks
  | None => None
  end.

(** No embedding provider; the query itself as its digest. *)
Definition noProvider : ustring -> option (list Q) := fun _ => None.
Definition sameKey : ustring -> ustring := fun query => query.

Definition demoRun : result RouteResult * RouterState :=
  route readDemo noProvider sameKey demoState (lit "joy") defaultSearch.

Definition okOf (out : result RouteResult * RouterState) : RouteResult :=
  match fst out with
  | Ok r => r
  | Throw _ => createEmptyResult []
  end.

(** X21: [loadChunksForSection] returns, in the order of the ids, the
    chunks that the cache holds for them afterwards; the cache keeps every
    entry that it had, and gains none for an id that was missing and that
    the store cannot read; when the store can read nothing, the cache is
    unchanged and alone answers. *)
Theorem loadChunksForSection_cache readChunk cache bookId chunkIds :
  let out := loadChunksForSection readChunk cache bookId chunkIds in
  fst out = cachedChunks (snd out) chunkIds
  /\ (forall k c, Obj.get cache k = Some c -> Obj.get (snd out) k = Some c)
  /\ (forall id, Obj.get cache id = None ->
                 readChunk bookId id = None ->
                 Obj.get (snd out) id = None)
  /\ loadChunksForSection (fun _ _ => None) cache bookId chunkIds
     = (cachedChunks cache chunkIds, cache).
Proof.
  cbv zeta.
  destruct (loadChunksForSection readChunk cache bookId chunkIds)
    as [chunks cache'] eqn:E.
  cbn [fst snd]. split; [|split; [|split]].
  - eapply load_cached; eassumption.
  - intros k c Hk. eapply load_grows; eassumption.
  - intros id Hid Hread. eapply load_unread; eassumption.
  - apply load_offline.
Qed.

Lemma route_repeats_witness :
  demoRun = (Ok (okOf demoRun), snd demoRun)
  /\ rs_redis demoState = Some []
  /\ okOf demoRun <> createEmptyResult (lit "joy")
  /\ route readDemo noProvider sameKey (snd demoRun) (lit "joy")
           (mkSearchOptions (Given 10000) Absent Absent Absent)
     = (Ok (setFromCache (throughJson (okOf demoRun))), snd demoRun).
Proof.
  assert (demoRun = (Ok (okOf demoRun), snd demoRun)) as E
    by (vm_compute; reflexivity).
  assert (okOf demoRun <> createEmptyResult (lit "joy")) as Hne
    by (vm_compute; discriminate).
  split; [exact E|]. split; [reflexivity|]. split; [exact Hne|].
  exact (@route_repeats readDemo noProvider sameKey demoState (lit "joy")
           defaultSearch (mkSearchOptions (Given 10000) Absent Absent Absent)
           (okOf demoRun) (snd demoRun) [] E eq_refl eq_refl eq_refl Hne).
Defined.

(** X25: the similarity of two embeddings does not depend on their order;
    it is 0 for embeddings of different lengths, and 0 when one of them
    is null. *)
Theorem cosineSimilarity_facts a b :
  cosineSimilarity a b = cosineSimilarity b a
  /\ (length a <> length b -> cosineSimilarity a b = 0%Q)
  /\ (Forall (fun x => Qnum x = 0) a ->
      cosineSimilarity a b = 0%Q /\ cosineSimilarity b a = 0%Q).
Proof.
  split; [apply cosineSimilarity_swap|].
  split; [apply cosineSimilarity_lengths|apply cosineSimilarity_null].
Qed.

(** The length that [truncateChunk] keeps follows the rounding of the
    doubles: of a text of 100 characters and 100000 tokens cut to 29000
    tokens, 28 characters are kept before the ellipsis, for the product of
    100 and the double [0.29] is below 29. *)
Definition longChunk : Chunk :=
  mkChunk (lit "c") (lit "book") (lit "s1") (repeat 97%N 100) None None
          (lit "ref") 0 0 100000 [] [] None None None.

Lemma truncateChunk_rounds_down :
  c_hebrew (truncateChunk longChunk 29000) = repeat 97%N 28 ++ lit "..."
  /\ c_tokenCount (truncateChunk longChunk 29000) = 29000.
Proof. split; vm_compute; reflexivity. Qed.

Lemma extractQueryKeywords_sources_witness :
  extractQueryKeywords (lit "La JOIE de vivre")
  = [lit "joie"; lit "vivre"; he_simcha; lit "simcha"]
  /\ NoDup (extractQueryKeywords (lit "La JOIE de vivre"))
  /\ (forall k,
        In k (extractQueryKeywords (lit "La JOIE de vivre")) <->
        (In k (IndexBuilder.splitWords (toLowerCase (lit "La JOIE de vivre")))
         /\ (2 < length k)%nat)
        \/ (existsb isHebrew (lit "La JOIE de vivre") = true
            /\ In k (hebrewRuns (lit "La JOIE de vivre") []))
        \/ exists e, In e themeMap
                     /\ includes (toLowerCase (lit "La JOIE de vivre")) (fst e)
                        = true
                     /\ In k (snd e))
  /\ Forall (fun r => r <> [] /\ Forall (fun c => isHebrew c = true) r)
            (hebrewRuns (lit "La JOIE de vivre") []).
Proof.
  split; [reflexivity|].
  apply (@extractQueryKeywords_sources (lit "La JOIE de vivre")).
  now repeat constructor.
Defined.

End RouterFacts.
